(** * go-tpm2: packet codec, command dispatcher, session start-up,
      duplication wrappers, qualified names and policy digests.

    A shallow embedding of the Go sources in Rocq.  Byte slices are
    [list byte]; Go's fixed-width unsigned integers are [Z] with the
    wrap-around written out; [bytes.Reader] is the list of bytes that
    remain to be read; errors are values of inductive types, one
    constructor for each error site of the source. *)

From Stdlib Require Import ZArith List Lia Bool.
From Stdlib Require Import Strings.Byte Strings.String.
From stdpp Require Import base tactics option list gmap.

Local Open Scope Z_scope.

Abbreviation byte := Byte.byte.

(* ===================================================================== *)
(** * Part I: definitions                                                 *)
(* ===================================================================== *)

(** ** Results of fallible Go code

    [Ok] is a return with a nil error, [Err] a return with a non-nil
    error, [Panic] a run-time panic. *)

Inductive result (E A : Type) : Type :=
| Ok (a : A)
| Err (e : E)
| Panic.
Arguments Ok {E A} a.
Arguments Err {E A} e.
Arguments Panic {E A}.

Definition rbind {E A B} (r : result E A) (k : A -> result E B) : result E B :=
  match r with
  | Ok a => k a
  | Err e => Err e
  | Panic => Panic
  end.

Definition is_Ok {E A} (r : result E A) : bool :=
  match r with Ok _ => true | _ => false end.

Definition is_Err {E A} (r : result E A) : bool :=
  match r with Err _ => true | _ => false end.

(** ** Fixed-width integers *)

Definition wrap (bits : Z) (z : Z) : Z := z mod 2 ^ bits.
Definition uint8 (z : Z) : Z := wrap 8 z.
Definition uint16 (z : Z) : Z := wrap 16 z.
Definition uint32 (z : Z) : Z := wrap 32 z.

Definition Z_of_byte (b : byte) : Z := Z.of_N (Byte.to_N b).

Definition byte_of_Z (z : Z) : byte :=
  match Byte.of_N (Z.to_N (z mod 256)) with
  | Some b => b
  | None => Byte.x00
  end.

Definition len {A} (l : list A) : Z := Z.of_nat (length l).

(** ** The wire codec ([mu]) *)

Module mu.

(** Modelled from the spec: package [mu] is not among the sources.
    "Primitives are big-endian fixed-width integers."  [put_be n v]
    is the [n]-byte big-endian encoding of [v] (its low [8n] bits). *)
Fixpoint put_be (n : nat) (v : Z) : list byte :=
  match n with
  | O => []
  | S k => byte_of_Z (Z.shiftr v (8 * Z.of_nat k)) :: put_be k v
  end.

Definition get_be (bs : list byte) : Z :=
  fold_left (fun acc b => acc * 256 + Z_of_byte b) bs 0.

(** [io.ReadFull] on a [bytes.Reader]: exactly [n] bytes or an error.
    A read of no bytes succeeds, also at the end of the input. *)
Definition readFull (n : Z) (buf : list byte) : option (list byte * list byte) :=
  if (0 <=? n) && (n <=? len buf)
  then Some (take (Z.to_nat n) buf, drop (Z.to_nat n) buf)
  else None.

Definition get_uint (n : nat) (buf : list byte) : option (Z * list byte) :=
  match readFull (Z.of_nat n) buf with
  | Some (bs, rest) => Some (get_be bs, rest)
  | None => None
  end.

(** Modelled from the spec: "Sized buffer ([TPM2B_*]): length-prefixed
    by a [u16]"; a buffer longer than [2^16-1] bytes is rejected. *)
Definition put_sized (b : list byte) : option (list byte) :=
  if len b <=? 65535 then Some (put_be 2 (len b) ++ b) else None.

Definition get_sized (buf : list byte) : option (list byte * list byte) :=
  match get_uint 2 buf with
  | Some (sz, rest) => readFull sz rest
  | None => None
  end.

(** [io.LimitedReader]: [R] is the underlying reader, [N] the number
    of bytes it may still hand out. *)
Record LimitedReader := mkLimited { R : list byte; N : Z }.

Definition lreadFull (n : Z) (r : LimitedReader) : option (list byte * LimitedReader) :=
  if n <=? N r then
    match readFull n (R r) with
    | Some (bs, rest) => Some (bs, mkLimited rest (N r - n))
    | None => None
    end
  else None.

Definition lget_uint (n : nat) (r : LimitedReader) : option (Z * LimitedReader) :=
  match lreadFull (Z.of_nat n) r with
  | Some (bs, r') => Some (get_be bs, r')
  | None => None
  end.

Definition lget_sized (r : LimitedReader) : option (list byte * LimitedReader) :=
  match lget_uint 2 r with
  | Some (sz, r') => lreadFull sz r'
  | None => None
  end.

End mu.

(** ** command.go: the packet codec *)

Definition StructTag := Z.
Definition CommandCode := Z.
Definition ResponseCode := Z.
Definition Handle := Z.

(** The two structure tags, as the packets of [command_test.go] show
    them ([8001...] without sessions, [8002...] with sessions). *)
Definition TagNoSessions : StructTag := 0x8001.
Definition TagSessions : StructTag := 0x8002.

Definition Success : ResponseCode := 0.

Definition maxResponseSize : Z := 4096.

Record CommandHeader := mkCommandHeader {
  cmdTag : StructTag;
  CommandSize : Z;
  cmdCode : CommandCode
}.

(** [binary.Size(header)]: a [u16] and two [u32]. *)
Definition headerSize : Z := 10.

(** [binary.Size(Handle(0))]. *)
Definition handleSize : Z := 4.

(** The values of Go's [int], taken to have 64 bits.  An [int] product
    is the product in [Z] when that lies in this range, and wraps
    otherwise. *)
Definition intRange (z : Z) : Prop := - 2 ^ 63 <= z < 2 ^ 63.

(** One entry of a command auth area.  Its wire form is fixed by
    [TestMarshalCommandPacketWithSessions]:
    [40000009 0000 01 0003 666f6f] is the password session with an
    empty nonce, the continue-session attribute and the HMAC "foo". *)
Record AuthCommand := mkAuthCommand {
  SessionHandle : Handle;
  cNonce : list byte;
  cSessionAttributes : Z;
  cHMAC : list byte
}.

(** One entry of a response auth area
    ([TestUnmarshalResponsePacketWithSessions]: [0000 01 0000]). *)
Record AuthResponse := mkAuthResponse {
  rNonce : list byte;
  rSessionAttributes : Z;
  rHMAC : list byte
}.

Definition CommandPacket := list byte.
Definition ResponsePacket := list byte.

Inductive codecError :=
| ErrUnmarshalHeader
| ErrInvalidCommandSize (got plen : Z)
| ErrInvalidResponseSize (got plen : Z)
| ErrPacketTooLarge (plen : Z)
| ErrReadHandles
| ErrUnmarshalAuthSize
| ErrAuthAreaTrailing (n : Z)
| ErrUnmarshalAuth
| ErrInvalidTag (tag : StructTag)
| ErrTrailingBytes (n : Z)
| ErrUnmarshalParameterSize
| ErrReadParameters.

Definition marshalCommandHeader (h : CommandHeader) : list byte :=
  mu.put_be 2 (cmdTag h) ++ mu.put_be 4 (CommandSize h) ++ mu.put_be 4 (cmdCode h).

Definition unmarshalCommandHeader (buf : list byte) : option (CommandHeader * list byte) :=
  match mu.get_uint 2 buf with
  | Some (tag, buf1) =>
      match mu.get_uint 4 buf1 with
      | Some (sz, buf2) =>
          match mu.get_uint 4 buf2 with
          | Some (cc, buf3) => Some (mkCommandHeader tag sz cc, buf3)
          | None => None
          end
      | None => None
      end
  | None => None
  end.

(** [mu.MarshalToWriter(aBytes, auth)]; [None] is a marshalling error. *)
Definition marshalAuthCommand (a : AuthCommand) : option (list byte) :=
  match mu.put_sized (cNonce a), mu.put_sized (cHMAC a) with
  | Some n, Some h =>
      Some (mu.put_be 4 (SessionHandle a) ++ n ++ mu.put_be 1 (cSessionAttributes a) ++ h)
  | _, _ => None
  end.

(** [mu.UnmarshalFromReader(r, &auth)] on the limited reader. *)
Definition unmarshalAuthCommand (r : mu.LimitedReader) : option (AuthCommand * mu.LimitedReader) :=
  match mu.lget_uint 4 r with
  | Some (h, r1) =>
      match mu.lget_sized r1 with
      | Some (n, r2) =>
          match mu.lget_uint 1 r2 with
          | Some (a, r3) =>
              match mu.lget_sized r3 with
              | Some (m, r4) => Some (mkAuthCommand h n a m, r4)
              | None => None
              end
          | None => None
          end
      | None => None
      end
  | None => None
  end.

Definition unmarshalAuthResponse (buf : list byte) : option (AuthResponse * list byte) :=
  match mu.get_sized buf with
  | Some (n, b1) =>
      match mu.get_uint 1 b1 with
      | Some (a, b2) =>
          match mu.get_sized b2 with
          | Some (m, b3) => Some (mkAuthResponse n a m, b3)
          | None => None
          end
      | None => None
      end
  | None => None
  end.

(** The loop [for r.N > 0 { ... }] of [UnmarshalPayload].  The guard
    [len(authArea) >= 3] lets the body complete at most three times;
    [slots] counts the entries that may still be appended, so the
    recursion is on [3 - len(authArea)]. *)
Fixpoint readCommandAuthArea (slots : nat) (r : mu.LimitedReader) (authArea : list AuthCommand)
  : result codecError (list AuthCommand * mu.LimitedReader) :=
  if 0 <? mu.N r then
    match slots with
    | O => Err (ErrAuthAreaTrailing (mu.N r))
    | S k =>
        match unmarshalAuthCommand r with
        | None => Err ErrUnmarshalAuth
        | Some (auth, r') => readCommandAuthArea k r' (authArea ++ [auth])
        end
    end
  else Ok (authArea, r).

(** [CommandPacket.UnmarshalPayload].  [numHandles] is an [int], and
    [numHandles * handleSize] stands for the [int] product of the
    source: the two agree when the product is in [intRange], which is
    the domain of this definition, as far as [make] grants the
    length; [make] panics on a negative length. *)
Definition UnmarshalPayload (p : CommandPacket) (numHandles : Z)
  : result codecError (list byte * list AuthCommand * list byte) :=
  match unmarshalCommandHeader p with
  | None => Err ErrUnmarshalHeader
  | Some (header, buf) =>
      if negb (CommandSize header =? uint32 (len p))
      then Err (ErrInvalidCommandSize (CommandSize header) (len p))
      else if numHandles * handleSize <? 0 then Panic
      else
        match mu.readFull (numHandles * handleSize) buf with
        | None => Err ErrReadHandles
        | Some (handles, buf) =>
            if cmdTag header =? TagSessions then
              match mu.get_uint 4 buf with
              | None => Err ErrUnmarshalAuthSize
              | Some (authSize, buf) =>
                  match readCommandAuthArea 3 (mu.mkLimited buf authSize) [] with
                  | Ok (authArea, r) => Ok (handles, authArea, mu.R r)
                  | Err e => Err e
                  | Panic => Panic
                  end
              end
            else if cmdTag header =? TagNoSessions then Ok (handles, [], buf)
            else Err (ErrInvalidTag (cmdTag header))
        end
  end.

(** The loop [for _, auth := range authArea] of [MarshalCommandPacket]:
    the concatenated entries, or [None] where the source panics. *)
Fixpoint marshalAuthArea (authArea : list AuthCommand) : option (list byte) :=
  match authArea with
  | [] => Some []
  | auth :: rest =>
      match marshalAuthCommand auth, marshalAuthArea rest with
      | Some a, Some b => Some (a ++ b)
      | _, _ => None
      end
  end.

(** [MarshalCommandPacket]; a marshalling error makes the source panic. *)
Definition MarshalCommandPacket (command : CommandCode) (handles : list byte)
    (authArea : list AuthCommand) (parameters : list byte)
  : result codecError CommandPacket :=
  let finish (tag : StructTag) (payload : list byte) :=
    let header := mkCommandHeader tag (uint32 (headerSize + len payload)) command in
    marshalCommandHeader header ++ payload in
  if 0 <? len authArea then
    match marshalAuthArea authArea with
    | None => Panic
    | Some aBytes =>
        Ok (finish TagSessions
              (handles ++ mu.put_be 4 (uint32 (len aBytes)) ++ aBytes ++ parameters))
    end
  else Ok (finish TagNoSessions (handles ++ parameters)).

Record ResponseHeader := mkResponseHeader {
  rspTag : StructTag;
  ResponseSize : Z;
  rspCode : ResponseCode
}.

Definition unmarshalResponseHeader (buf : list byte) : option (ResponseHeader * list byte) :=
  match mu.get_uint 2 buf with
  | Some (tag, buf1) =>
      match mu.get_uint 4 buf1 with
      | Some (sz, buf2) =>
          match mu.get_uint 4 buf2 with
          | Some (rc, buf3) => Some (mkResponseHeader tag sz rc, buf3)
          | None => None
          end
      | None => None
      end
  | None => None
  end.

(** The loop [for buf.Len() > 0 { ... }] of [ResponsePacket.Unmarshal]. *)
Fixpoint readResponseAuthArea (slots : nat) (buf : list byte) (authArea : list AuthResponse)
  : result codecError (list AuthResponse) :=
  if 0 <? len buf then
    match slots with
    | O => Err (ErrTrailingBytes (len buf))
    | S k =>
        match unmarshalAuthResponse buf with
        | None => Err ErrUnmarshalAuth
        | Some (auth, buf') => readResponseAuthArea k buf' (authArea ++ [auth])
        end
    end
  else Ok authArea.

(** What [ResponsePacket.Unmarshal] returns: the response code, the
    handles, the parameters, the auth area and the error, which the
    source reports next to the response code. *)
Record unmarshalled := mkUnmarshalled {
  u_rc : ResponseCode;
  u_handles : list byte;
  u_parameters : list byte;
  u_authArea : list AuthResponse;
  u_err : option codecError
}.

Definition fail (rc : ResponseCode) (e : codecError) : unmarshalled :=
  mkUnmarshalled rc [] [] [] (Some e).

(** [ResponsePacket.Unmarshal] of command.go.  As in
    [UnmarshalPayload], [numHandles * handleSize] is the [int] product
    of the source for a product in [intRange]. *)
Definition Unmarshal (p : ResponsePacket) (numHandles : Z) : result codecError unmarshalled :=
  if maxResponseSize <? len p then Ok (fail 0 (ErrPacketTooLarge (len p)))
  else
    match unmarshalResponseHeader p with
    | None => Ok (fail 0 ErrUnmarshalHeader)
    | Some (header, buf) =>
        if negb (ResponseSize header =? uint32 (len p))
        then Ok (fail 0 (ErrInvalidResponseSize (ResponseSize header) (len p)))
        else if negb (rspCode header =? Success) then
          if negb (len buf =? 0)
          then Ok (fail (rspCode header) (ErrTrailingBytes (len buf)))
          else Ok (mkUnmarshalled (rspCode header) [] [] [] None)
        else if numHandles * handleSize <? 0 then Panic
        else
          match mu.readFull (numHandles * handleSize) buf with
          | None => Ok (fail 0 ErrReadHandles)
          | Some (handles, buf) =>
              if rspTag header =? TagSessions then
                match mu.get_uint 4 buf with
                | None => Ok (fail 0 ErrUnmarshalParameterSize)
                | Some (parameterSize, buf) =>
                    match mu.readFull parameterSize buf with
                    | None => Ok (fail 0 ErrReadParameters)
                    | Some (parameters, buf) =>
                        match readResponseAuthArea 3 buf [] with
                        | Ok authArea => Ok (mkUnmarshalled Success handles parameters authArea None)
                        | Err e => Ok (fail 0 e)
                        | Panic => Panic
                        end
                    end
                end
              else if rspTag header =? TagNoSessions then
                Ok (mkUnmarshalled Success handles buf [] None)
              else Ok (fail 0 (ErrInvalidTag (rspTag header)))
          end
    end.

(** A response is rejected when [Unmarshal] returns a non-nil error. *)
Definition rejected (r : result codecError unmarshalled) : bool :=
  match r with
  | Ok u => match u_err u with Some _ => true | None => false end
  | _ => false
  end.

(** A packet given by the values of its bytes. *)
Fixpoint bytes_of_Zs (l : list Z) : list byte :=
  match l with
  | [] => []
  | z :: r => byte_of_Z z :: bytes_of_Zs r
  end.

Definition hexval (c : byte) : Z :=
  let v := Z_of_byte c in
  if (48 <=? v) && (v <=? 57) then v - 48
  else if (97 <=? v) && (v <=? 102) then v - 87
  else v - 55.

Fixpoint hexpairs (cs : list byte) : list byte :=
  match cs with
  | h :: l :: rest => byte_of_Z (16 * hexval h + hexval l) :: hexpairs rest
  | _ => []
  end.

(** [internal_testutil.DecodeHexString]. *)
Definition DecodeHexString (s : string) : list byte := hexpairs (list_byte_of_string s).

(** ** tpm.go: session contexts and the read/write-multiple helper *)

(** Command codes of the TPM 2.0 library specification (part 2); the
    constants are declared outside the sources at hand, and the packets
    of [command_test.go] confirm [StartAuthSession] and [Unseal]. *)
Definition CommandStartup : CommandCode := 0x144.
Definition CommandContextLoad : CommandCode := 0x161.
Definition CommandContextSave : CommandCode := 0x162.
Definition CommandFlushContext : CommandCode := 0x165.
Definition CommandStartAuthSession : CommandCode := 0x176.
Definition CommandUnseal : CommandCode := 0x15e.
Definition CommandGetRandom : CommandCode := 0x17b.

Inductive SessionType := SessionTypeHMAC | SessionTypePolicy | SessionTypeTrial.

Definition SessionType_eqb (a b : SessionType) : bool :=
  match a, b with
  | SessionTypeHMAC, SessionTypeHMAC
  | SessionTypePolicy, SessionTypePolicy
  | SessionTypeTrial, SessionTypeTrial => true
  | _, _ => false
  end.

Definition SessionAttributes := Z.
Definition AttrContinueSession : SessionAttributes := 0x01.
Definition AttrAudit : SessionAttributes := 0x80.

(** The part of [sessionContextData] that tpm.go reads and writes. *)
Record sessionContextData := mkSessionData {
  sdSessionType : SessionType;
  IsExclusive : bool
}.

(** A session context points to a handle context shared by all the
    copies that [WithAttrs] and [IncludeAttrs] make of it; the session
    data hangs off that handle context and is nil once the session is
    gone.  [ctx] is the address of the handle context, the heap maps
    it to the session data, [None] standing for nil. *)
Abbreviation loc := positive.
Abbreviation heap := (gmap loc sessionContextData).

Record sessionContext := mkSessionContext {
  ctx : loc;
  attrs : SessionAttributes
}.

(** A [SessionContext] interface value; [None] is nil. *)
Definition SessionContext := option sessionContext.

Definition Data (h : heap) (s : sessionContext) : option sessionContextData :=
  h !! ctx s.

(** [SessionContext.IncludeAttrs], as [TestSessionContextIncludeAttrs]
    fixes it: a copy for the same handle context whose attributes are
    the old ones with [a] added; the receiver is unchanged. *)
Definition IncludeAttrs (s : sessionContext) (a : SessionAttributes) : sessionContext :=
  mkSessionContext (ctx s) (Z.lor (attrs s) a).

(** [sessionContext.IsExclusive]: false when the session data is nil. *)
Definition SessionIsExclusive (h : heap) (s : sessionContext) : bool :=
  match Data h s with
  | Some d => IsExclusive d
  | None => false
  end.

Inductive helperError (E : Type) :=
| ErrUnusableSessionContext
| ErrPolicySession
| ErrRun (e : E).
Arguments ErrUnusableSessionContext {E}.
Arguments ErrPolicySession {E}.
Arguments ErrRun {E} e.

(** The interface [execMultipleHelperAction] over a state [S]. *)
Record execMultipleHelperAction (S E : Type) := mkAction {
  last : S -> bool;
  run : list SessionContext -> S -> S * option E
}.
Arguments last {S E} _ _.
Arguments run {S E} _ _ _.

(** The first loop of [execMultipleHelper]: it replaces every non-nil
    session by a copy with [AttrContinueSession] and notes whether a
    policy session is among them; [None] is the early return
    "unusable session context". *)
Fixpoint prepareSessions (h : heap) (sessions : list SessionContext)
  : option (list SessionContext * bool) :=
  match sessions with
  | [] => Some ([], false)
  | None :: rest =>
      match prepareSessions h rest with
      | Some (rest', p) => Some (None :: rest', p)
      | None => None
      end
  | Some s :: rest =>
      match Data h s with
      | None => None
      | Some sessionData =>
          match prepareSessions h rest with
          | Some (rest', p) =>
              Some (Some (IncludeAttrs s AttrContinueSession) :: rest',
                    SessionType_eqb (sdSessionType sessionData) SessionTypePolicy || p)
          | None => None
          end
      end
  end.

(** The loop [for !action.last() { ... }] of [execMultipleHelper]
    followed by the last run.  The source loop has no bound; [fuel]
    bounds the number of runs before the last one, and the outer
    [None] says that the fuel ran out. *)
Fixpoint execLoop {S E} (fuel : nat) (action : execMultipleHelperAction S E)
    (hasPolicySession : bool) (sessions sessionsOrig : list SessionContext) (st : S)
  : option (S * option (helperError E)) :=
  if negb (last action st) then
    if hasPolicySession then Some (st, Some ErrPolicySession)
    else
      match run action sessions st with
      | (st', Some e) => Some (st', Some (ErrRun e))
      | (st', None) =>
          match fuel with
          | O => None
          | Datatypes.S k => execLoop k action hasPolicySession sessions sessionsOrig st'
          end
      end
  else
    match run action sessionsOrig st with
    | (st', Some e) => Some (st', Some (ErrRun e))
    | (st', None) => Some (st', None)
    end.

(** [execMultipleHelper]. *)
Definition execMultipleHelper {S E} (fuel : nat) (action : execMultipleHelperAction S E)
    (h : heap) (sessions : list SessionContext) (st : S)
  : option (S * option (helperError E)) :=
  let sessionsOrig := sessions in
  match prepareSessions h sessions with
  | None => Some (st, Some ErrUnusableSessionContext)
  | Some (sessions', hasPolicySession) =>
      execLoop fuel action hasPolicySession sessions' sessionsOrig st
  end.

(** [readMultipleHelperContext]; the callback [fn] runs against a
    state [W] (the TPM behind it). *)
Record readMultipleHelperContext := mkReadCtx {
  data : list byte;
  maxSize : Z;
  remaining : Z;
  total : Z
}.

Definition execFn (W E : Type) : Type :=
  Z -> Z -> list SessionContext -> W -> W * (E + list byte).

(** Go's [copy(dst[off:], src)]: as many bytes as fit. *)
Definition copyAt (dst : list byte) (off : Z) (src : list byte) : list byte :=
  let o := Z.to_nat off in
  let n := Nat.min (length dst - o) (length src) in
  take o dst ++ take n src ++ drop (o + n) dst.

Definition readLast (c : readMultipleHelperContext) : bool :=
  remaining c <=? maxSize c.

Definition readRun {W E} (fn : execFn W E) (sessions : list SessionContext)
    (st : readMultipleHelperContext * W) : (readMultipleHelperContext * W) * option E :=
  let '(c, w) := st in
  let sz := if maxSize c <? remaining c then maxSize c else remaining c in
  match fn sz (total c) sessions w with
  | (w', inl err) => ((c, w'), Some err)
  | (w', inr tmpData) =>
      ((mkReadCtx (copyAt (data c) (total c) tmpData) (maxSize c)
                  (uint16 (remaining c - sz)) (uint16 (total c + sz)), w'), None)
  end.

Definition readAction {W E} (fn : execFn W E)
  : execMultipleHelperAction (readMultipleHelperContext * W) E :=
  mkAction _ _ (fun st => readLast (fst st)) (readRun fn).

(** [readMultipleHelper].  The fuel handed to the loop is [size]: every
    run before the last one moves [maxSize] bytes, so for a positive
    [maxSize] there are at most [size] of them and the fuel does not
    run out; for [maxSize = 0] and a positive [size] the source loops
    for ever. *)
Definition readMultipleHelper {W E} (size maxSize : Z) (exec : execFn W E)
    (h : heap) (sessions : list SessionContext) (w : W)
  : option (W * result (helperError E) (list byte)) :=
  let context := mkReadCtx (replicate (Z.to_nat size) Byte.x00) maxSize size 0 in
  match execMultipleHelper (Z.to_nat size) (readAction exec) h sessions (context, w) with
  | None => None
  | Some ((c, w'), Some err) => Some (w', Err err)
  | Some ((c, w'), None) => Some (w', Ok (data c))
  end.

(** One command issued by a helper: size, offset and sessions. *)
Definition call := (Z * Z * list SessionContext)%type.

(** A callback that answers every command with [sz] zero bytes. *)
Definition zeroFill : execFn unit Empty_set :=
  fun sz _ _ w => (w, inr (replicate (Z.to_nat sz) Byte.x00)).




Definition withContinue (s : SessionContext) : SessionContext :=
  match s with
  | Some c => Some (IncludeAttrs c AttrContinueSession)
  | None => None
  end.


Definition usable (h : heap) (s : SessionContext) : bool :=
  match s with
  | None => true
  | Some c => match Data h c with Some _ => true | None => false end
  end.

Definition isPolicy (h : heap) (s : SessionContext) : bool :=
  match s with
  | None => false
  | Some c =>
      match Data h c with
      | Some d => SessionType_eqb (sdSessionType d) SessionTypePolicy
      | None => false
      end
  end.

(** ** tpm.go: the pending response and the exclusive audit session *)

Definition isSessionAllowed (commandCode : CommandCode) : bool :=
  if commandCode =? CommandStartup then false
  else if commandCode =? CommandContextLoad then false
  else if commandCode =? CommandContextSave then false
  else if commandCode =? CommandFlushContext then false
  else true.

Record sessionParam := mkSessionParam {
  Session : sessionContext
}.

Record sessionParams := mkSessionParams {
  Sessions : list sessionParam
}.

Inductive dispatchError (X : Type) :=
| InvalidResponseAuth (cc : CommandCode) (cause : X)
| InvalidResponsePacket (cc : CommandCode) (cause : codecError)
| InvalidResponseAuthCount (cc : CommandCode) (got expected : Z)
| SerializeError (cause : codecError)
| TctiError (op : string) (cause : X)
| TPMResponseError (e : X).
Arguments InvalidResponseAuth {X} cc cause.
Arguments InvalidResponsePacket {X} cc cause.
Arguments InvalidResponseAuthCount {X} cc got expected.
Arguments SerializeError {X} cause.
Arguments TctiError {X} op cause.
Arguments TPMResponseError {X} e.

Record rspContext (X : Type) := mkRspContext {
  rCommandCode : CommandCode;
  SessionParams : sessionParams;
  ResponseAuthArea : list AuthResponse;
  RpBytes : list byte;
  rErr : option (dispatchError X)
}.
Arguments mkRspContext {X} _ _ _ _ _.
Arguments rCommandCode {X} _.
Arguments SessionParams {X} _.
Arguments ResponseAuthArea {X} _.
Arguments RpBytes {X} _.
Arguments rErr {X} _.

(** The state [processResponseAuth] works on: the session data behind
    the handle contexts, the response contexts (they are compared and
    updated through pointers), and the two fields of [execContext]. *)
Record execContext (X : Type) := mkExecContext {
  sessionHeap : heap;
  responses : gmap loc (rspContext X);
  lastExclusiveSession : option sessionContext;
  pendingResponse : option loc
}.
Arguments mkExecContext {X} _ _ _ _.
Arguments sessionHeap {X} _.
Arguments responses {X} _.
Arguments lastExclusiveSession {X} _.
Arguments pendingResponse {X} _.

(** The session engine is not among the sources:
    [sessionParams.ProcessResponseAuthArea] is a parameter.  It works
    on the session data through the session contexts, so it maps a heap
    to a heap, and it may fail. *)
Definition authProcessor (X : Type) : Type :=
  sessionParams -> list AuthResponse -> list byte -> heap -> heap * option X.

(** [data.IsExclusive = false] through the pointer [Data()] returns;
    nothing happens when that pointer is nil. *)
Definition clearExclusive (h : heap) (s : sessionContext) : heap :=
  match Data h s with
  | Some d => <[ctx s := mkSessionData (sdSessionType d) false]> h
  | None => h
  end.

(** The loop over [r.SessionParams.Sessions] with its [break]. *)
Fixpoint firstExclusive (h : heap) (l : list sessionParam) : option sessionContext :=
  match l with
  | [] => None
  | s :: rest => if SessionIsExclusive h (Session s) then Some (Session s) else firstExclusive h rest
  end.

(** [execContext.processResponseAuth]; [r] is the address of the
    response context.  An address without a response context is a nil
    pointer, which the source dereferences. *)
Definition processResponseAuth {X} (ProcessResponseAuthArea : authProcessor X)
    (e : execContext X) (r : loc) : result Empty_set (execContext X * option (dispatchError X)) :=
  match responses e !! r with
  | None => Panic
  | Some rsp =>
      if negb (bool_decide (Some r = pendingResponse e)) then Ok (e, rErr rsp)
      else
        let '(h1, last1) :=
          if isSessionAllowed (rCommandCode rsp) then
            match lastExclusiveSession e with
            | Some s => (clearExclusive (sessionHeap e) s, None)
            | None => (sessionHeap e, lastExclusiveSession e)
            end
          else (sessionHeap e, lastExclusiveSession e) in
        let '(h2, perr) :=
          ProcessResponseAuthArea (SessionParams rsp) (ResponseAuthArea rsp) (RpBytes rsp) h1 in
        let setErr (err : option (dispatchError X)) :=
          <[r := mkRspContext (rCommandCode rsp) (SessionParams rsp) (ResponseAuthArea rsp)
                              (RpBytes rsp) err]> (responses e) in
        match perr with
        | Some x =>
            let err := Some (InvalidResponseAuth (rCommandCode rsp) x) in
            Ok (mkExecContext h2 (setErr err) last1 None, err)
        | None =>
            let last2 :=
              match firstExclusive h2 (Sessions (SessionParams rsp)) with
              | Some s => Some s
              | None => last1
              end in
            Ok (mkExecContext h2 (setErr None) last2 None, None)
        end
  end.

(** ** tpm.go: [TPMContext.RunCommand] *)

Definition WarningCode := Z.
Definition WarningYielded : WarningCode := 0x08.
Definition WarningTesting : WarningCode := 0x0a.
Definition WarningRetry : WarningCode := 0x22.

Definition HandleList := list Handle.

Fixpoint marshalHandleList (l : HandleList) : list byte :=
  match l with
  | [] => []
  | h :: r => mu.put_be 4 h ++ marshalHandleList r
  end.

(** What [RunCommand] needs from outside tpm.go.  [T] is the state of
    the transmission interface, [X] the type of foreign errors.
    [unmarshalResponse] is [ResponsePacket.Unmarshal(rHandle)] in the
    form tpm.go calls it; [DecodeResponseCode] and [IsTPMWarning] are
    the error decoding of the package. *)
Record dispatcherEnv (T X : Type) := mkDispatcherEnv {
  tctiWrite : T -> CommandPacket -> T * option X;
  tctiReadAll : T -> T * (X + ResponsePacket);
  unmarshalResponse : ResponsePacket -> bool ->
                      ResponseCode * list byte * list AuthResponse * option codecError;
  DecodeResponseCode : CommandCode -> ResponseCode -> option X;
  IsTPMWarning : X -> WarningCode -> CommandCode -> bool
}.
Arguments tctiWrite {T X} _ _ _.
Arguments tctiReadAll {T X} _ _.
Arguments unmarshalResponse {T X} _ _ _.
Arguments DecodeResponseCode {T X} _ _ _.
Arguments IsTPMWarning {T X} _ _ _ _.

(** [TPMContext.RunCommandBytes]. *)
Definition RunCommandBytes {T X} (env : dispatcherEnv T X) (t : T) (packet : CommandPacket)
  : T * result (dispatchError X) ResponsePacket :=
  match tctiWrite env t packet with
  | (t1, Some err) => (t1, Err (TctiError "write" err))
  | (t1, None) =>
      match tctiReadAll env t1 with
      | (t2, inl err) => (t2, Err (TctiError "read" err))
      | (t2, inr resp) => (t2, Ok resp)
      end
  end.

Definition retryWarning {T X} (env : dispatcherEnv T X) (err : X) (commandCode : CommandCode) : bool :=
  IsTPMWarning env err WarningYielded commandCode
  || IsTPMWarning env err WarningTesting commandCode
  || IsTPMWarning env err WarningRetry commandCode.

(** What one submission brought back: no response at all, a response
    that does not parse, or a parsed response with its decoded code. *)
Inductive submission (X : Type) :=
| SubNoResponse
| SubMalformed
| SubDecoded (rc : ResponseCode) (err : option X).
Arguments SubNoResponse {X}.
Arguments SubMalformed {X}.
Arguments SubDecoded {X} rc err.

Record runOutcome (T X : Type) := mkRunOutcome {
  tcti : T;
  submissions : list (submission X);
  returned : result (dispatchError X) (list byte * list AuthResponse)
}.
Arguments mkRunOutcome {T X} _ _ _.
Arguments tcti {T X} _.
Arguments submissions {T X} _.
Arguments returned {T X} _.

(** The loop [for tries := uint(1); ; tries++ { ... }].  [tries] is
    incremented only below [maxSubmissions], so it never wraps; [fuel]
    is the number of further iterations the model may start, and
    [None] says it ran out.  [log] collects, oldest first, what each
    call of [RunCommandBytes] brought back. *)
Fixpoint runLoop {T X} (env : dispatcherEnv T X) (maxSubmissions : Z) (commandCode : CommandCode)
    (cmd : CommandPacket) (nAuth : Z) (rHandle : bool)
    (fuel : nat) (tries : Z) (t : T) (log : list (submission X))
  : option (runOutcome T X) :=
  match RunCommandBytes env t cmd with
  | (t1, Err err) => Some (mkRunOutcome t1 (log ++ [SubNoResponse]) (Err err))
  | (t1, Panic) => Some (mkRunOutcome t1 (log ++ [SubNoResponse]) Panic)
  | (t1, Ok resp) =>
      match unmarshalResponse env resp rHandle with
      | (_, _, _, Some uerr) =>
          Some (mkRunOutcome t1 (log ++ [SubMalformed]) (Err (InvalidResponsePacket commandCode uerr)))
      | (rc, rpBytes, rAuthArea, None) =>
          let log' := log ++ [SubDecoded rc (DecodeResponseCode env commandCode rc)] in
          match DecodeResponseCode env commandCode rc with
          | None =>
              if negb (len rAuthArea =? nAuth)
              then Some (mkRunOutcome t1 log'
                           (Err (InvalidResponseAuthCount commandCode (len rAuthArea) nAuth)))
              else Some (mkRunOutcome t1 log' (Ok (rpBytes, rAuthArea)))
          | Some err =>
              if maxSubmissions <=? tries
              then Some (mkRunOutcome t1 log' (Err (TPMResponseError err)))
              else if negb (retryWarning env err commandCode)
              then Some (mkRunOutcome t1 log' (Err (TPMResponseError err)))
              else
                match fuel with
                | O => None
                | Datatypes.S k =>
                    runLoop env maxSubmissions commandCode cmd nAuth rHandle k (tries + 1) t1 log'
                end
          end
      end
  end.

(** [TPMContext.RunCommand] for a context whose [maxSubmissions] field
    has the given value.  The loop is given [maxSubmissions]
    iterations beyond the first, more than it can use. *)
Definition RunCommand {T X} (env : dispatcherEnv T X) (maxSubmissions : Z) (t : T)
    (commandCode : CommandCode) (cHandles : HandleList) (cAuthArea : list AuthCommand)
    (cpBytes : list byte) (rHandle : bool) : option (runOutcome T X) :=
  match MarshalCommandPacket commandCode (marshalHandleList cHandles) cAuthArea cpBytes with
  | Err e => Some (mkRunOutcome t [] (Err (SerializeError e)))
  | Panic => Some (mkRunOutcome t [] Panic)
  | Ok cmd =>
      runLoop env maxSubmissions commandCode cmd (len cAuthArea) rHandle
              (Z.to_nat maxSubmissions) 1 t []
  end.

(** [newTpmContext] and [NewTPMContext] set [maxSubmissions] to 5. *)
Definition defaultMaxSubmissions : Z := 5.

(** ** cmds_session.go: [tpmImpl.StartAuthSession] *)

Definition AlgorithmId := Z.
Definition AlgorithmNull : AlgorithmId := 0x0010.
Definition HandleNull : Handle := 0x40000007.

(** A [ResourceContext] interface value, as far as this file looks at
    it: only [Handle()] is called. *)
Record ResourceContext := mkResourceContext {
  rcHandle : Handle
}.

(** The dynamic type of the [authValue interface{}] argument. *)
Inductive authValueArg :=
| AuthString (a : list byte)
| AuthBytes (a : list byte)
| AuthNil
| AuthOther.

(** The messages of the [InvalidParamError]s of this function. *)
Inductive invalidParam :=
| NoSaltedSessions        (* "no support for salted sessions yet" *)
| NoParameterEncryption   (* "no support for parameter / response encryption yet" *)
| UnsupportedAuthHash (authHash : AlgorithmId)
| InvalidAuthValue.

Inductive sessionError (X : Type) :=
| InvalidParamError (p : invalidParam)
| NonceError (cause : X)
| OtherError (cause : X).
Arguments InvalidParamError {X} p.
Arguments NonceError {X} cause.
Arguments OtherError {X} cause.

(** The [sessionContext] struct of cmds_session.go. *)
Record startedSession := mkStartedSession {
  ssHandle : Handle;
  hashAlg : AlgorithmId;
  boundResource : ResourceContext;
  ssNonceCaller : list byte;
  ssNonceTPM : list byte;
  sessionKey : list byte
}.

(** The parameters of the one command this function sends:
    [tpmKey, bind, nonceCaller, encryptedSecret, sessionType,
    symmetric, authHash]. *)
Record startAuthSessionCmd := mkStartCmd {
  c_tpmKey : ResourceContext;
  c_bind : ResourceContext;
  c_nonceCaller : list byte;
  c_encryptedSecret : list byte;
  c_sessionType : SessionType;
  c_symmetric : AlgorithmId;
  c_authHash : AlgorithmId
}.

(** What [StartAuthSession] uses of [tpmImpl] and of the crypto
    helpers; [T] is the state of the [tpmImpl] (its transport, its
    table of resource contexts and the random source). *)
Record sessionEnv (T X : Type) := mkSessionEnv {
  checkResourceContextParam : T -> ResourceContext -> option X;
  digestSizes : gmap AlgorithmId Z;
  cryptComputeNonce : T -> Z -> T * (X + list byte);
  runStartAuthSession : T -> startAuthSessionCmd -> T * (X + (Handle * list byte));
  WrapHandle : T -> Handle -> ResourceContext;
  cryptKDFa : AlgorithmId -> list byte -> list byte -> list byte -> list byte -> Z -> list byte;
  addResourceContext : T -> startedSession -> T
}.
Arguments checkResourceContextParam {T X} _ _ _.
Arguments digestSizes {T X} _.
Arguments cryptComputeNonce {T X} _ _ _.
Arguments runStartAuthSession {T X} _ _ _.
Arguments WrapHandle {T X} _ _ _.
Arguments cryptKDFa {T X} _ _ _ _ _ _ _.
Arguments addResourceContext {T X} _ _ _.

Definition label_ATH : list byte := [Byte.x41; Byte.x54; Byte.x48].

(** [tpmImpl.StartAuthSession].  [symmetric] is [true] when the
    [*SymDef] argument is not nil. *)
Definition StartAuthSession {T X} (env : sessionEnv T X) (t : T)
    (tpmKey bind : option ResourceContext) (sessionType : SessionType) (symmetric : bool)
    (authHash : AlgorithmId) (authValue : authValueArg)
  : T * result (sessionError X) startedSession :=
  match tpmKey with
  | Some _ => (t, Err (InvalidParamError NoSaltedSessions))
  | None =>
      match (match bind with
             | Some b => checkResourceContextParam env t b
             | None => None
             end) with
      | Some err => (t, Err (OtherError err))
      | None =>
          if symmetric then (t, Err (InvalidParamError NoParameterEncryption))
          else
            match digestSizes env !! authHash with
            | None => (t, Err (InvalidParamError (UnsupportedAuthHash authHash)))
            | Some digestSize =>
                let salt : list byte := [] in
                let tpmKey' := mkResourceContext HandleNull in
                match (match bind with
                       | Some b =>
                           match authValue with
                           | AuthString a => Ok (a, b)
                           | AuthBytes a => Ok (a, b)
                           | AuthNil => Ok ([], b)
                           | AuthOther => Err (InvalidParamError InvalidAuthValue)
                           end
                       | None => Ok ([], WrapHandle env t HandleNull)
                       end) with
                | Err e => (t, Err e)
                | Panic => (t, Panic)
                | Ok (authB, bind') =>
                    match cryptComputeNonce env t digestSize with
                    | (t1, inl err) => (t1, Err (NonceError err))
                    | (t1, inr nonceCaller) =>
                        match runStartAuthSession env t1
                                (mkStartCmd tpmKey' bind' nonceCaller [] sessionType
                                            AlgorithmNull authHash) with
                        | (t2, inl err) => (t2, Err (OtherError err))
                        | (t2, inr (sessionHandle, nonceTPM)) =>
                            let key := authB ++ salt in
                            let sessionKey :=
                              if negb (rcHandle tpmKey' =? HandleNull)
                                 || negb (rcHandle bind' =? HandleNull)
                              then cryptKDFa env authHash key label_ATH nonceTPM nonceCaller
                                             (digestSize * 8)
                              else [] in
                            let sc := mkStartedSession sessionHandle authHash bind'
                                                       nonceCaller nonceTPM sessionKey in
                            (addResourceContext env t2 sc, Ok sc)
                        end
                    end
                end
            end
      end
  end.

(** ** util/object.go: outer and inner wrappers *)

#[global] Instance byte_eq_dec : EqDecision byte := Byte.byte_eq_dec.

Definition HashAlgorithmId := Z.
Definition HashAlgorithmNull : HashAlgorithmId := 0x0010.
Definition SymObjectAlgorithmNull : Z := 0x0010.

Definition Name := list byte.

Record SymDefObject := mkSymDefObject {
  Algorithm : Z;
  KeyBitsSym : Z
}.

(** The fields of [tpm2.Public] the wrappers read.  [AsymDetail] is
    the pointer [Params.AsymDetail()] returns: nil for a parent that
    is neither an RSA nor an ECC key. *)
Record Public := mkPublic {
  NameAlg : HashAlgorithmId;
  AsymDetail : option SymDefObject
}.

(** The crypto adapter and the other foreign code object.go calls.
    [None] is a panic for [digest], [hmac] and [KDFa] (a hash that is
    not linked in) and a returned error for the other functions.
    [randRead n] is what one call of [rand.Read] on [n] bytes
    delivers; no function below calls it twice. *)
Record cryptoAdapter := mkCryptoAdapter {
  digest : HashAlgorithmId -> list byte -> option (list byte);
  hmac : HashAlgorithmId -> list byte -> list byte -> option (list byte);
  KDFa : HashAlgorithmId -> list byte -> list byte -> list byte -> list byte -> Z
         -> option (list byte);
  hashSize : HashAlgorithmId -> Z;
  BlockSize : Z -> Z;
  CryptSymmetricEncrypt : Z -> list byte -> list byte -> list byte -> option (list byte);
  CryptSymmetricDecrypt : Z -> list byte -> list byte -> list byte -> option (list byte);
  randRead : Z -> option (list byte);
  NameAlgorithm : Name -> HashAlgorithmId
}.

(** The wire schema of [tpm2.Sensitive], which is declared outside the
    sources at hand: a marshaller that may fail and an unmarshaller
    that must consume its whole input. *)
Record sensitiveCodec (Sensitive : Type) := mkSensitiveCodec {
  marshalSensitive : Sensitive -> option (list byte);
  unmarshalSensitive : list byte -> option Sensitive
}.
Arguments marshalSensitive {Sensitive} _ _.
Arguments unmarshalSensitive {Sensitive} _ _.

Inductive objectError :=
| ErrUnpackIntegrity
| ErrIntegrityInvalid
| ErrUnpackIV
| ErrIVSize
| ErrRemoveWrapper
| ErrGenerateIV
| ErrApplyWrapper
| ErrUnwrapOuter (cause : objectError)
| ErrRemoveInnerWrapper
| ErrUnpackInnerIntegrity
| ErrInnerIntegrityInvalid
| ErrUnmarshalSensitive
| ErrMarshalSensitive
| ErrRandomKey
| ErrApplyInnerWrapper
| ErrProduceOuterWrapper (cause : objectError)
| ErrApplyOuterWrapper (cause : objectError).

Definition IntegrityKey : list byte := list_byte_of_string "INTEGRITY".
Definition StorageKey : list byte := list_byte_of_string "STORAGE".

Definition zeros (n : Z) : list byte := replicate (Z.to_nat n) Byte.x00.

(** A panic of foreign code inside a computation of results. *)
Definition orPanic {E A} (o : option A) : result E A :=
  match o with Some a => Ok a | None => Panic end.

Definition orErr {E A} (e : E) (o : option A) : result E A :=
  match o with Some a => Ok a | None => Err e end.

Notation "'do' x <- c1 ; c2" := (rbind c1 (fun x => c2))
  (at level 10, x name, c1 at level 100, c2 at level 200).

Section Object.

Context (C : cryptoAdapter).

(** [UnwrapOuter]; a nil [symmetricAlg] is dereferenced.  The IV is
    unmarshalled into the slice [make([]byte, BlockSize())]: a field of
    size zero leaves that slice as it is, all zero bytes, and any other
    field replaces it. *)
Definition UnwrapOuter (hashAlg : HashAlgorithmId) (symmetricAlg : option SymDefObject)
    (name : Name) (seed : list byte) (useIV : bool) (data : list byte)
  : result objectError (list byte) :=
  match mu.get_sized data with
  | None => Err ErrUnpackIntegrity
  | Some (integrity, data) =>
      do hmacKey <- orPanic (KDFa C hashAlg seed IntegrityKey [] [] (hashSize C hashAlg * 8));
      do sum <- orPanic (hmac C hashAlg hmacKey (data ++ name));
      if negb (bool_decide (sum = integrity)) then Err ErrIntegrityInvalid
      else
        do sym <- orPanic symmetricAlg;
        do ivr <- (if useIV then
                     match mu.get_sized data with
                     | None => Err ErrUnpackIV
                     | Some (field, rest) =>
                         let iv := if len field =? 0
                                   then zeros (BlockSize C (Algorithm sym))
                                   else field in
                         if negb (len iv =? BlockSize C (Algorithm sym)) then Err ErrIVSize
                         else Ok (iv, rest)
                     end
                   else Ok (zeros (BlockSize C (Algorithm sym)), data));
        let '(iv, data) := ivr in
        do symKey <- orPanic (KDFa C hashAlg seed StorageKey name [] (KeyBitsSym sym));
        orErr ErrRemoveWrapper (CryptSymmetricDecrypt C (Algorithm sym) symKey iv data)
  end.

(** [ProduceOuterWrap]; [mu.MustMarshalToBytes] panics on a sized
    value that is too long. *)
Definition ProduceOuterWrap (hashAlg : HashAlgorithmId) (symmetricAlg : option SymDefObject)
    (name : Name) (seed : list byte) (useIV : bool) (data : list byte)
  : result objectError (list byte) :=
  do sym <- orPanic symmetricAlg;
  do iv <- (if useIV then orErr ErrGenerateIV (randRead C (BlockSize C (Algorithm sym)))
            else Ok (zeros (BlockSize C (Algorithm sym))));
  do symKey <- orPanic (KDFa C hashAlg seed StorageKey name [] (KeyBitsSym sym));
  do data <- orErr ErrApplyWrapper (CryptSymmetricEncrypt C (Algorithm sym) symKey iv data);
  do data <- (if useIV then
                do ivb <- orPanic (mu.put_sized iv); Ok (ivb ++ data)
              else Ok data);
  do hmacKey <- orPanic (KDFa C hashAlg seed IntegrityKey [] [] (hashSize C hashAlg * 8));
  do integrity <- orPanic (hmac C hashAlg hmacKey (data ++ name));
  do ib <- orPanic (mu.put_sized integrity);
  Ok (ib ++ data).

Context {Sensitive : Type} (SC : sensitiveCodec Sensitive).

(** Modelled from the spec: the [sized] field option of package [mu],
    "emitted as [u16 size || bytes]; a null value yields [0x0000].
    Unmarshalling reads the size, limits the reader to that window,
    then unmarshals the inner structure; trailing bytes inside the
    window are an error."  This is [struct { Ptr *tpm2.Sensitive
    `tpm2:"sized"` }], a nil [Ptr] being [None]. *)
Definition marshalSized (sensitive : option Sensitive) : option (list byte) :=
  match sensitive with
  | None => Some (mu.put_be 2 0)
  | Some s =>
      match marshalSensitive SC s with
      | Some b => mu.put_sized b
      | None => None
      end
  end.

Definition unmarshalSized (buf : list byte) : option (option Sensitive) :=
  match mu.get_sized buf with
  | None => None
  | Some (window, _) =>
      if len window =? 0 then Some None
      else
        match unmarshalSensitive SC window with
        | Some s => Some (Some s)
        | None => None
        end
  end.

(** [PrivateToSensitive]. *)
Definition PrivateToSensitive (private : list byte) (name : Name) (hashAlg : HashAlgorithmId)
    (symmetricAlg : option SymDefObject) (seed : list byte)
  : result objectError (option Sensitive) :=
  match UnwrapOuter hashAlg symmetricAlg name seed true private with
  | Err e => Err (ErrUnwrapOuter e)
  | Panic => Panic
  | Ok data => orErr ErrUnmarshalSensitive (unmarshalSized data)
  end.

(** [SensitiveToPrivate]. *)
Definition SensitiveToPrivate (sensitive : option Sensitive) (name : Name)
    (hashAlg : HashAlgorithmId) (symmetricAlg : option SymDefObject) (seed : list byte)
  : result objectError (list byte) :=
  do private <- orErr ErrMarshalSensitive (marshalSized sensitive);
  match ProduceOuterWrap hashAlg symmetricAlg name seed true private with
  | Err e => Err (ErrApplyOuterWrapper e)
  | Panic => Panic
  | Ok private => Ok private
  end.

Definition innerWrapperWanted (symmetricAlg : option SymDefObject) : option SymDefObject :=
  match symmetricAlg with
  | Some sym => if negb (Algorithm sym =? SymObjectAlgorithmNull) then Some sym else None
  | None => None
  end.

(** [DuplicateToSensitive]. *)
Definition DuplicateToSensitive (duplicate : list byte) (name : Name)
    (parentNameAlg : HashAlgorithmId) (parentSymmetricAlg : option SymDefObject)
    (seed : list byte) (symmetricAlg : option SymDefObject) (innerSymKey : list byte)
  : result objectError (option Sensitive) :=
  do duplicate <-
    (if 0 <? len seed then
       match UnwrapOuter parentNameAlg parentSymmetricAlg name seed false duplicate with
       | Err e => Err (ErrUnwrapOuter e)
       | Panic => Panic
       | Ok d => Ok d
       end
     else Ok duplicate);
  do duplicate <-
    (match innerWrapperWanted symmetricAlg with
     | Some sym =>
         do duplicate <- orErr ErrRemoveInnerWrapper
           (CryptSymmetricDecrypt C (Algorithm sym) innerSymKey
              (zeros (BlockSize C (Algorithm sym))) duplicate);
         match mu.get_sized duplicate with
         | None => Err ErrUnpackInnerIntegrity
         | Some (innerIntegrity, duplicate) =>
             do sum <- orPanic (digest C (NameAlgorithm C name) (duplicate ++ name));
             if negb (bool_decide (sum = innerIntegrity))
             then Err ErrInnerIntegrityInvalid
             else Ok duplicate
         end
     | None => Ok duplicate
     end);
  orErr ErrUnmarshalSensitive (unmarshalSized duplicate).

(** [SensitiveToDuplicate]; the result is the pair
    [(innerSymKeyOut, duplicate)]. *)
Definition SensitiveToDuplicate (sensitive : option Sensitive) (name : Name) (parent : Public)
    (seed : list byte) (symmetricAlg : option SymDefObject) (innerSymKey : list byte)
  : result objectError (list byte * list byte) :=
  let applyInnerWrapper := innerWrapperWanted symmetricAlg in
  let applyOuterWrapper := 0 <? len seed in
  do duplicate <- orErr ErrMarshalSensitive (marshalSized sensitive);
  do inner <-
    (match applyInnerWrapper with
     | Some sym =>
         do innerIntegrity <- orPanic (digest C (NameAlgorithm C name) (duplicate ++ name));
         do ib <- orPanic (mu.put_sized innerIntegrity);
         let duplicate := ib ++ duplicate in
         do keys <- (if len innerSymKey =? 0 then
                       do k <- orErr ErrRandomKey (randRead C (KeyBitsSym sym / 8));
                       Ok (k, k)
                     else Ok (innerSymKey, []));
         let '(innerSymKey, innerSymKeyOut) := keys in
         do duplicate <- orErr ErrApplyInnerWrapper
           (CryptSymmetricEncrypt C (Algorithm sym) innerSymKey
              (zeros (BlockSize C (Algorithm sym))) duplicate);
         Ok (innerSymKeyOut, duplicate)
     | None => Ok ([], duplicate)
     end);
  let '(innerSymKeyOut, duplicate) := inner in
  if applyOuterWrapper then
    match ProduceOuterWrap (NameAlg parent) (AsymDetail parent) name seed false duplicate with
    | Err e => Err (ErrProduceOuterWrapper e)
    | Panic => Panic
    | Ok d => Ok (innerSymKeyOut, d)
    end
  else Ok (innerSymKeyOut, duplicate).

(** The key that opens a blob: the caller's key, or the fresh key
    handed back when the caller supplied none. *)
Definition matchingKey (innerSymKey innerSymKeyOut : list byte) : list byte :=
  if len innerSymKey =? 0 then innerSymKeyOut else innerSymKey.

End Object.

(** ** util: qualified names *)

(** [Entity] is a type that has a name. *)
Record Entity := mkEntity {
  EntityName : Name
}.

(** The methods of [tpm2.Name] and [tpm2.HashAlgorithmId] that the
    qualified-name code calls; they are declared outside the sources
    at hand.  [hashSum alg] is [alg.NewHash()] fed with the given
    bytes, called only after [Available] said yes. *)
Record nameOps := mkNameOps {
  Algorithm_of : Name -> HashAlgorithmId;
  IsValid : Name -> bool;
  Available : HashAlgorithmId -> bool;
  hashSum : HashAlgorithmId -> list byte -> list byte
}.

Inductive qnError :=
| ErrInvalidName
| ErrAlgorithmNotAvailable
| ErrInvalidParentQN
| ErrAlgorithmMismatch
| ErrIntermediateQN (index : Z) (cause : qnError)
| ErrInvalidHierarchy.

Definition HandleOwner : Handle := 0x40000001.
Definition HandleEndorsement : Handle := 0x4000000B.
Definition HandlePlatform : Handle := 0x4000000C.

Section QualifiedName.

Context (ops : nameOps).

(** [computeOneQualifiedName]. *)
Definition computeOneQualifiedName (entity : Entity) (parentQn : Name) : result qnError Name :=
  let alg := Algorithm_of ops (EntityName entity) in
  if alg =? HashAlgorithmNull then Err ErrInvalidName
  else if negb (Available ops alg) then Err ErrAlgorithmNotAvailable
  else if negb (IsValid ops parentQn) then Err ErrInvalidParentQN
  else if negb (Algorithm_of ops parentQn =? HashAlgorithmNull)
          && negb (Algorithm_of ops parentQn =? alg)
  then Err ErrAlgorithmMismatch
  else Ok (mu.put_be 2 alg ++ hashSum ops alg (parentQn ++ EntityName entity)).

(** The loop [for i, ancestor := range ancestors] of
    [ComputeQualifiedName], started at index [i] with [lastQn]. *)
Fixpoint foldAncestors (i : Z) (lastQn : Name) (ancestors : list Entity) : result qnError Name :=
  match ancestors with
  | [] => Ok lastQn
  | ancestor :: rest =>
      match computeOneQualifiedName ancestor lastQn with
      | Ok qn => foldAncestors (i + 1) qn rest
      | Err e => Err (ErrIntermediateQN i e)
      | Panic => Panic
      end
  end.

(** [ComputeQualifiedName]. *)
Definition ComputeQualifiedName (entity : Entity) (rootQn : Name) (ancestors : list Entity)
  : result qnError Name :=
  match foldAncestors 0 rootQn ancestors with
  | Ok lastQn => computeOneQualifiedName entity lastQn
  | Err e => Err e
  | Panic => Panic
  end.

(** [ComputeQualifiedNameInHierarchy]. *)
Definition ComputeQualifiedNameInHierarchy (entity : Entity) (hierarchy : Handle)
    (ancestors : list Entity) : result qnError Name :=
  if (hierarchy =? HandleOwner) || (hierarchy =? HandleNull)
     || (hierarchy =? HandleEndorsement) || (hierarchy =? HandlePlatform)
  then ComputeQualifiedName entity (mu.put_be 4 hierarchy) ancestors
  else Err ErrInvalidHierarchy.

(** The qualified name a call delivers, if it delivers one. *)
Definition qualifiedName (r : result qnError Name) : option Name :=
  match r with Ok qn => Some qn | _ => None end.

(** The intermediate qualified name at split point [k]: the root
    for [k = 0], the qualified name of the [k]-th ancestor below its
    [k-1] predecessors otherwise. *)
Definition intermediateQN (rootQn : Name) (ancestors : list Entity) (k : nat) : option Name :=
  match k with
  | O => Some rootQn
  | Datatypes.S j =>
      match ancestors !! j with
      | Some ak => qualifiedName (ComputeQualifiedName ak rootQn (take j ancestors))
      | None => None
      end
  end.

End QualifiedName.

(** ** Digests: SHA-1 and SHA-256 (FIPS 180-4)

    The policy digests of the test-suite are SHA-1 and SHA-256 values;
    the Go code takes both functions from the standard library. *)

Module SHA.

Definition mask32 : Z := 0xffffffff.
Definition add32 (a b : Z) : Z := Z.land (a + b) mask32.
Definition rotl (n x : Z) : Z :=
  Z.lor (Z.land (Z.shiftl x n) mask32) (Z.shiftr x (32 - n)).
Definition rotr (n x : Z) : Z := rotl (32 - n) x.
Definition not32 (x : Z) : Z := Z.lxor x mask32.

(** Padding: a one bit, zero bits up to 56 bytes modulo 64, and the
    bit length of the message as a 64-bit big-endian number. *)
Definition pad (msg : list byte) : list byte :=
  let l := len msg in
  let k := (55 - l) mod 64 in
  msg ++ [Byte.x80] ++ zeros k ++ mu.put_be 8 (8 * l).

(** The big-endian 32-bit words of a byte string. *)
Fixpoint words (n : nat) (bs : list byte) : list Z :=
  match n with
  | O => []
  | Datatypes.S k =>
      match bs with
      | [] => []
      | _ => mu.get_be (take 4 bs) :: words k (drop 4 bs)
      end
  end.

(** The 16-word blocks of a list of words. *)
Fixpoint blocks (n : nat) (ws : list Z) : list (list Z) :=
  match n with
  | O => []
  | Datatypes.S k =>
      match ws with
      | [] => []
      | _ => take 16 ws :: blocks k (drop 16 ws)
      end
  end.

Definition nthw (l : list Z) (i : nat) : Z := nth i l 0.

(** The message schedule, most recent word first: [step] computes
    the next word from the ones before it. *)
Fixpoint extend (step : list Z -> Z) (n : nat) (rev_w : list Z) : list Z :=
  match n with
  | O => rev_w
  | Datatypes.S k => extend step k (step rev_w :: rev_w)
  end.

Definition schedule (step : list Z -> Z) (rounds : nat) (block : list Z) : list Z :=
  rev (extend step (rounds - 16) (rev block)).

(** *** SHA-256 *)

Definition primes64 : list Z :=
  [2; 3; 5; 7; 11; 13; 17; 19; 23; 29; 31; 37; 41; 43; 47; 53;
   59; 61; 67; 71; 73; 79; 83; 89; 97; 101; 103; 107; 109; 113; 127; 131;
   137; 139; 149; 151; 157; 163; 167; 173; 179; 181; 191; 193; 197; 199; 211; 223;
   227; 229; 233; 239; 241; 251; 257; 263; 269; 271; 277; 281; 283; 293; 307; 311].

(** The integer cube root, bit by bit from bit [n-1] down. *)
Fixpoint cbrt_bits (n : nat) (x acc : Z) : Z :=
  match n with
  | O => acc
  | Datatypes.S k =>
      let c := acc + 2 ^ Z.of_nat k in
      if c * c * c <=? x then cbrt_bits k x c else cbrt_bits k x acc
  end.

(** "The first thirty-two bits of the fractional parts of the cube
    roots of the first sixty-four prime numbers" and "of the square
    roots of the first eight prime numbers". *)
Definition K256 : list Z :=
  Eval vm_compute in map (fun p => Z.land (cbrt_bits 40 (p * 2 ^ 96) 0) mask32) primes64.

Definition H256 : list Z :=
  Eval vm_compute in map (fun p => Z.land (Z.sqrt (p * 2 ^ 64)) mask32) (take 8 primes64).

Definition Ch (x y z : Z) : Z := Z.lxor (Z.land x y) (Z.land (not32 x) z).
Definition Maj (x y z : Z) : Z := Z.lxor (Z.lxor (Z.land x y) (Z.land x z)) (Z.land y z).
Definition Sigma0 (x : Z) : Z := Z.lxor (Z.lxor (rotr 2 x) (rotr 13 x)) (rotr 22 x).
Definition Sigma1 (x : Z) : Z := Z.lxor (Z.lxor (rotr 6 x) (rotr 11 x)) (rotr 25 x).
Definition sigma0 (x : Z) : Z := Z.lxor (Z.lxor (rotr 7 x) (rotr 18 x)) (Z.shiftr x 3).
Definition sigma1 (x : Z) : Z := Z.lxor (Z.lxor (rotr 17 x) (rotr 19 x)) (Z.shiftr x 10).

Definition step256 (rev_w : list Z) : Z :=
  add32 (add32 (sigma1 (nthw rev_w 1)) (nthw rev_w 6))
        (add32 (sigma0 (nthw rev_w 14)) (nthw rev_w 15)).

Definition round256 (s : list Z) (kw : Z * Z) : list Z :=
  match s with
  | [a; b; c; d; e; f; g; h] =>
      let t1 := add32 (add32 (add32 h (Sigma1 e)) (add32 (Ch e f g) (fst kw))) (snd kw) in
      let t2 := add32 (Sigma0 a) (Maj a b c) in
      [add32 t1 t2; a; b; c; add32 d t1; e; f; g]
  | _ => s
  end.

Definition addState (s1 s2 : list Z) : list Z :=
  map (fun p => add32 (fst p) (snd p)) (zip s1 s2).

Definition compress256 (h : list Z) (block : list Z) : list Z :=
  addState h (fold_left round256 (zip K256 (schedule step256 64 block)) h).

Fixpoint unwords (ws : list Z) : list byte :=
  match ws with
  | [] => []
  | w :: r => mu.put_be 4 w ++ unwords r
  end.

Definition sha256 (msg : list byte) : list byte :=
  let p := pad msg in
  let bs := blocks (length p) (words (length p) p) in
  unwords (fold_left compress256 bs H256).

(** *** SHA-1 *)

Definition H1 : list Z := [0x67452301; 0xefcdab89; 0x98badcfe; 0x10325476; 0xc3d2e1f0].

Definition step1 (rev_w : list Z) : Z :=
  rotl 1 (Z.lxor (Z.lxor (nthw rev_w 2) (nthw rev_w 7))
                 (Z.lxor (nthw rev_w 13) (nthw rev_w 15))).

Definition Parity (x y z : Z) : Z := Z.lxor (Z.lxor x y) z.

Definition f1 (t : Z) (x y z : Z) : Z :=
  if t <? 20 then Ch x y z
  else if t <? 40 then Parity x y z
  else if t <? 60 then Maj x y z
  else Parity x y z.

Definition K1 (t : Z) : Z :=
  if t <? 20 then 0x5a827999
  else if t <? 40 then 0x6ed9eba1
  else if t <? 60 then 0x8f1bbcdc
  else 0xca62c1d6.

Definition round1 (s : list Z) (tw : Z * Z) : list Z :=
  match s with
  | [a; b; c; d; e] =>
      let t := fst tw in
      let tmp := add32 (add32 (add32 (rotl 5 a) (f1 t b c d)) (add32 e (K1 t))) (snd tw) in
      [tmp; a; rotl 30 b; c; d]
  | _ => s
  end.

Definition indices (n : nat) : list Z := map Z.of_nat (seq 0 n).

Definition compress1 (h : list Z) (block : list Z) : list Z :=
  addState h (fold_left round1 (zip (indices 80) (schedule step1 80 block)) h).

Definition sha1 (msg : list byte) : list byte :=
  let p := pad msg in
  let bs := blocks (length p) (words (length p) p) in
  unwords (fold_left compress1 bs H1).

End SHA.

(** ** policyutil: the offline digest of a policy *)

Definition HashAlgorithmSHA1 : HashAlgorithmId := 0x0004.
Definition HashAlgorithmSHA256 : HashAlgorithmId := 0x000B.

Definition CommandNVChangeAuth : CommandCode := 0x13B.
Definition CommandPolicySecret : CommandCode := 0x151.
Definition CommandPolicySigned : CommandCode := 0x160.
Definition CommandPolicyCpHash : CommandCode := 0x16E.
Definition CommandPolicyAuthorize : CommandCode := 0x16A.
Definition CommandPolicyAuthValue : CommandCode := 0x16B.
Definition CommandPolicyCommandCode : CommandCode := 0x16C.
Definition CommandPolicyNameHash : CommandCode := 0x170.
Definition CommandPolicyNvWritten : CommandCode := 0x18F.

Module Policy.

(** The hash functions [ComputeFor] can be asked for here. *)
Definition hashOf (alg : HashAlgorithmId) : option ((list byte -> list byte) * Z) :=
  if alg =? HashAlgorithmSHA1 then Some (SHA.sha1, 20)
  else if alg =? HashAlgorithmSHA256 then Some (SHA.sha256, 32)
  else None.

(** Modelled from the spec: the policy builder and [ComputeFor] are
    in package [policyutil], of which only the tests are at hand.
    The elements are those of the spec's data model whose update
    rule needs nothing but the running digest and their own fields. *)
Inductive PolicyElement :=
| AuthValue
| Password
| CommandCodeElt (code : CommandCode)
| CpHash (cpHashA : list byte)
| NameHash (nameHash : list byte)
| NvWritten (writtenSet : bool)
| Secret (authName : Name) (policyRef : list byte)
| Signed (authKeyName : Name) (policyRef : list byte)
| Authorize (keyName : Name) (policyRef : list byte).

Definition cc (code : CommandCode) : list byte := mu.put_be 4 code.

(** Modelled from the spec: the update rules of the table in the
    spec's section on digest computation. *)
Definition update (H : list byte -> list byte) (size : Z) (d : list byte) (e : PolicyElement)
  : list byte :=
  match e with
  | AuthValue => H (d ++ cc CommandPolicyAuthValue)
  | Password => H (d ++ cc CommandPolicyAuthValue)
  | CommandCodeElt code => H (d ++ cc CommandPolicyCommandCode ++ cc code)
  | CpHash cpHashA => H (d ++ cc CommandPolicyCpHash ++ cpHashA)
  | NameHash nameHash => H (d ++ cc CommandPolicyNameHash ++ nameHash)
  | NvWritten b => H (d ++ cc CommandPolicyNvWritten ++ mu.put_be 1 (if b then 1 else 0))
  | Secret name ref => H (H (d ++ cc CommandPolicySecret ++ name) ++ ref)
  | Signed name ref => H (H (d ++ cc CommandPolicySigned ++ name) ++ ref)
  | Authorize name ref => H (H (zeros size ++ cc CommandPolicyAuthorize ++ name) ++ ref)
  end.

(** Modelled from the spec: "[Policy.compute_for(alg)] walks the tree
    updating a running digest [d] starting at all-zero bytes of
    [digest_size(alg)]". *)
Definition ComputeFor (policy : list PolicyElement) (alg : HashAlgorithmId) : option (list byte) :=
  match hashOf alg with
  | Some (H, size) => Some (fold_left (update H size) policy (zeros size))
  | None => None
  end.

(** [tpm2.MakeHandleName]: a handle as a name. *)
Definition MakeHandleName (h : Handle) : Name := mu.put_be 4 h.

(** The policy of [TestPolicyMixed] and [TestPolicyMixedSHA1]. *)
Definition policyMixed : list PolicyElement :=
  [Secret (MakeHandleName HandleOwner) (list_byte_of_string "bar");
   AuthValue;
   CommandCodeElt CommandNVChangeAuth].

End Policy.

(** ** Well-formed values and concrete instances *)

(** The values the Go types of an [AuthCommand] admit: a 32-bit
    handle, 8-bit attributes, and two sized buffers that fit their
    16-bit length prefix. *)
Definition wfAuthCommand (a : AuthCommand) : bool :=
  (0 <=? SessionHandle a) && (SessionHandle a <? 2 ^ 32)
  && (0 <=? cSessionAttributes a) && (cSessionAttributes a <? 2 ^ 8)
  && (len (cNonce a) <=? 65535) && (len (cHMAC a) <=? 65535).

(** The auth area of [TestMarshalCommandPacketWithSessions]: the
    password session with the HMAC "foo", and an HMAC session with
    the response-encrypt attribute. *)
Definition authAreaExample : list AuthCommand :=
  [mkAuthCommand 0x40000009 [] AttrContinueSession (list_byte_of_string "foo");
   mkAuthCommand 0x02000001
     (DecodeHexString "4355a46b19d348dc2f57c046f8ef63d4538ebb936000f3c9ee954a27460dd865")
     0x40
     (DecodeHexString "042aea10a0f14f2d391373599be69d53a75dde9951fc3d3cd10b6100aa7a9f24")].

(** The packet of [TestUnmarshalResponsePacketUnsuccessfulWithSessions]:
    tag [TPM_ST_SESSIONS], size 10, response code [0x88e]. *)
Definition unsuccessfulWithSessions : ResponsePacket :=
  bytes_of_Zs [0x80; 0x02; 0x00; 0x00; 0x00; 0x0a; 0x00; 0x00; 0x08; 0x8e].

(** A session engine that accepts every response auth area and leaves
    the session data alone, as for a command without sessions. *)
Definition acceptAll : authProcessor unit := fun _ _ _ h => (h, None).

(** An audit session that the TPM reported exclusive and that the
    dispatcher cached, and the pending response of a command without
    sessions. *)
Definition auditSession : sessionContext := mkSessionContext 1%positive AttrAudit.

Definition pendingAfter (commandCode : CommandCode) : execContext unit :=
  mkExecContext
    {[ 1%positive := mkSessionData SessionTypeHMAC true ]}
    {[ 7%positive := mkRspContext commandCode (mkSessionParams []) [] [] None ]}
    (Some auditSession)
    (Some 7%positive).

Definition exclusiveAfter (r : result Empty_set (execContext unit * option (dispatchError unit)))
  : option (bool * option sessionContext) :=
  match r with
  | Ok (e, None) => Some (SessionIsExclusive (sessionHeap e) auditSession, lastExclusiveSession e)
  | _ => None
  end.

(** A submission after which the loop of [RunCommand] may go round
    again: its response code decoded to one of the three warnings. *)
Definition isRetry {T X} (env : dispatcherEnv T X) (commandCode : CommandCode)
    (s : submission X) : bool :=
  match s with
  | SubDecoded _ (Some err) => retryWarning env err commandCode
  | _ => false
  end.

(** A transmission interface that plays back a list of responses.
    Responses are parsed by [Unmarshal] of command.go; a nonzero
    response code decodes to itself, and the warning [w] is the
    response code [RC_WARN + w], with [RC_WARN = 0x900]. *)
Definition playback : dispatcherEnv (list ResponsePacket) Z :=
  mkDispatcherEnv _ _
    (fun t _ => (t, None))
    (fun t => match t with
              | [] => (t, inl 0)
              | r :: t' => (t', inr r)
              end)
    (fun resp rHandle =>
       match Unmarshal resp (if rHandle then 1 else 0) with
       | Ok u => (u_rc u, u_parameters u, u_authArea u, u_err u)
       | _ => (0, [], [], Some ErrReadHandles)
       end)
    (fun _ rc => if rc =? Success then None else Some rc)
    (fun err w _ => err =? 0x900 + w).

(** [TPM_RC_RETRY] and [TPM_RC_SUCCESS] responses without sessions. *)
Definition retryResponse : ResponsePacket :=
  bytes_of_Zs [0x80; 0x01; 0x00; 0x00; 0x00; 0x0a; 0x00; 0x00; 0x09; 0x22].
Definition successResponse : ResponsePacket :=
  bytes_of_Zs [0x80; 0x01; 0x00; 0x00; 0x00; 0x0a; 0x00; 0x00; 0x00; 0x00].

(** A callback that also writes down the arguments of every call: the
    commands a helper issues, in order, whatever [fn] answers. *)
Definition logging {W E} (fn : execFn W E) : execFn (list call * W) E :=
  fun sz off sessions st =>
    let '(w', r) := fn sz off sessions (snd st) in
    ((fst st ++ [(sz, off, sessions)], w'), r).

(** An HMAC session and a policy session, both with data. *)
Definition twoSessions : heap :=
  {[ 1%positive := mkSessionData SessionTypeHMAC false;
     2%positive := mkSessionData SessionTypePolicy false ]}.
Definition hmacSession : sessionContext := mkSessionContext 1%positive 0.
Definition policySession : sessionContext := mkSessionContext 2%positive 0.

(** A [tpmImpl] that keeps the list of the [StartAuthSession] commands
    it was asked to send and answers each one with the session handle
    [0x02000000] and a zero nonce. *)
Definition loopbackTpm : sessionEnv (list startAuthSessionCmd) unit :=
  mkSessionEnv _ _
    (fun _ _ => None)
    {[ HashAlgorithmSHA256 := 32 ]}
    (fun t n => (t, inr (zeros n)))
    (fun t c => (t ++ [c], inr (0x02000000, zeros 32)))
    (fun _ handle => mkResourceContext handle)
    (fun _ key _ _ _ _ => key)
    (fun t _ => t).

Definition storageKeyContext : ResourceContext := mkResourceContext 0x80000000.

(** Names with SHA-256 as the only hash: a valid name is a 4-byte
    handle or the algorithm identifier followed by a digest; every
    other name, the empty one included, is invalid. *)
Definition isSHA256Name (n : Name) : bool :=
  (len n =? 34) && (mu.get_be (take 2 n) =? HashAlgorithmSHA256).

Definition sha256Names : nameOps :=
  mkNameOps
    (fun n => if isSHA256Name n then HashAlgorithmSHA256 else HashAlgorithmNull)
    (fun n => (len n =? 4) || isSHA256Name n)
    (fun alg => alg =? HashAlgorithmSHA256)
    (fun _ msg => SHA.sha256 msg).

(** The entity whose name is the SHA-256 digest of a label. *)
Definition entityOf (label : string) : Entity :=
  mkEntity (mu.put_be 2 HashAlgorithmSHA256 ++ SHA.sha256 (list_byte_of_string label)).

(** What the duplication round trip asks of the foreign code: the
    decryption undoes the encryption under the same key and IV, and
    the wire schema of [Sensitive] is symmetric, a structure taking at
    least one byte. *)
Definition cipherLaw (C : cryptoAdapter) : Prop :=
  forall alg key iv plain cipher,
    CryptSymmetricEncrypt C alg key iv plain = Some cipher ->
    CryptSymmetricDecrypt C alg key iv cipher = Some plain.

Definition codecLaw {Sensitive : Type} (SC : sensitiveCodec Sensitive) : Prop :=
  forall s b, marshalSensitive SC s = Some b -> unmarshalSensitive SC b = Some s /\ 0 < len b.

(** A crypto adapter to run the wrappers with: SHA-256 as the hash, a
    keyed prefix hash as MAC and key derivation, and a cipher that
    shifts every byte by the sum of the key and IV bytes.  It refuses
    an empty key and every algorithm but [0x0006] (AES). *)
Definition shiftOf (key iv : list byte) : Z :=
  fold_right (fun b acc => Z_of_byte b + acc) 0 (key ++ iv).

Definition shiftCipher (sign : Z) (alg : Z) (key iv data : list byte) : option (list byte) :=
  if (alg =? 0x0006) && (0 <? len key)
  then Some (map (fun b => byte_of_Z (Z_of_byte b + sign * shiftOf key iv)) data)
  else None.

Definition toyCrypto : cryptoAdapter :=
  mkCryptoAdapter
    (fun alg msg => if alg =? HashAlgorithmSHA256 then Some (SHA.sha256 msg) else None)
    (fun alg key msg => if alg =? HashAlgorithmSHA256 then Some (SHA.sha256 (key ++ msg)) else None)
    (fun alg key label ctxU ctxV bits =>
       if alg =? HashAlgorithmSHA256
       then Some (take (Z.to_nat (bits / 8)) (SHA.sha256 (key ++ label ++ ctxU ++ ctxV)))
       else None)
    (fun alg => if alg =? HashAlgorithmSHA256 then 32 else 0)
    (fun _ => 16)
    (shiftCipher 1)
    (shiftCipher (-1))
    (fun n => Some (replicate (Z.to_nat n) Byte.x2a))
    (fun n => mu.get_be (take 2 n)).

(** A sensitive area reduced to its type and its auth value. *)
Definition toyCodec : sensitiveCodec (list byte) :=
  mkSensitiveCodec _
    (fun s => match mu.put_sized s with
              | Some b => Some (mu.put_be 2 0x0008 ++ b)
              | None => None
              end)
    (fun buf => match mu.get_uint 2 buf with
                | Some (ty, rest) =>
                    if ty =? 0x0008 then
                      match mu.get_sized rest with
                      | Some (s, []) => Some s
                      | _ => None
                      end
                    else None
                | None => None
                end).

Definition aes128 : SymDefObject := mkSymDefObject 0x0006 128.
Definition rsaParent : Public := mkPublic HashAlgorithmSHA256 (Some aes128).
Definition objectName : Name := EntityName (entityOf "object").

(** ** Further code of command.go *)

(** [CommandPacket.GetCommandCode]. *)
Definition GetCommandCode (p : CommandPacket) : result codecError CommandCode :=
  match unmarshalCommandHeader p with
  | None => Err ErrUnmarshalHeader
  | Some (header, _) => Ok (cmdCode header)
  end.

(** ** Further instances for tpm.go *)

(** A callback that reads [sz] bytes at offset [off] of a stored
    value, the way an NV index or a buffer is read from the TPM. *)
Definition readFrom (contents : list byte) : execFn unit Empty_set :=
  fun sz off _ w => (w, inr (take (Z.to_nat sz) (drop (Z.to_nat off) contents))).

(** A session context whose session data is gone. *)
Definition flushedSession : sessionContext := mkSessionContext 9%positive 0.

(** ** Further code of tpm.go: completing a response *)

Inductive completeError (X : Type) :=
| AuthProcessingFailed (e : dispatchError X)
| InvalidResponseParameters (cc : CommandCode)
| InvalidResponseTrailingBytes (cc : CommandCode) (n : Z).
Arguments AuthProcessingFailed {X} e.
Arguments InvalidResponseParameters {X} cc.
Arguments InvalidResponseTrailingBytes {X} cc n.

(** [execContext.CompleteResponse].  [decode] is
    [mu.UnmarshalFromReader(rpBuf, responseParams...)]: the values it
    stores through the pointers and the bytes it leaves in [rpBuf], or
    [None] for an error. *)
Definition CompleteResponse {X V} (ProcessResponseAuthArea : authProcessor X)
    (decode : list byte -> option (V * list byte)) (e : execContext X) (r : loc)
  : result Empty_set (execContext X * result (completeError X) V) :=
  match processResponseAuth ProcessResponseAuthArea e r with
  | Ok (e', Some err) => Ok (e', Err (AuthProcessingFailed err))
  | Ok (e', None) =>
      match responses e' !! r with
      | None => Panic
      | Some rsp =>
          match decode (RpBytes rsp) with
          | None => Ok (e', Err (InvalidResponseParameters (rCommandCode rsp)))
          | Some (v, rest) =>
              if 0 <? len rest
              then Ok (e', Err (InvalidResponseTrailingBytes (rCommandCode rsp) (len rest)))
              else Ok (e', Ok v)
          end
      end
  | Err x => match x with end
  | Panic => Panic
  end.

(** A TPM that answers every command with [TPM_RC_RETRY]. *)
Definition busyTpm : dispatcherEnv unit Z :=
  mkDispatcherEnv _ _
    (fun t _ => (t, None))
    (fun t => (t, inr retryResponse))
    (unmarshalResponse playback)
    (DecodeResponseCode playback)
    (IsTPMWarning playback).

(** Every submission is answered, and answered with one of the three
    warnings. *)
Definition alwaysRetry {T X} (env : dispatcherEnv T X) (commandCode : CommandCode)
    (rHandle : bool) : Prop :=
  forall (t : T) (cmd : CommandPacket),
    exists t' resp rc rpBytes rAuthArea err,
      RunCommandBytes env t cmd = (t', Ok resp)
      /\ unmarshalResponse env resp rHandle = (rc, rpBytes, rAuthArea, None)
      /\ DecodeResponseCode env commandCode rc = Some err
      /\ retryWarning env err commandCode = true.

(** A response context that is still pending, with a response the
    parameters of which are two bytes. *)
Definition pendingWithParams : execContext unit :=
  mkExecContext
    {[ 1%positive := mkSessionData SessionTypeHMAC true ]}
    {[ 7%positive := mkRspContext CommandGetRandom (mkSessionParams [])
                       [] (bytes_of_Zs [0x12; 0x34]) None ]}
    (Some auditSession)
    (Some 7%positive).

(** A decoder for a response with a single [uint16] parameter. *)
Definition decodeUint16 (rpBytes : list byte) : option (Z * list byte) := mu.get_uint 2 rpBytes.

(** ** Further code of tpm.go: [execContext.RunCommand] *)

(** A [HandleContext] interface value: [Handle()] and [Name()]. *)
Record HandleContext := mkHandleContext {
  hcHandle : Handle;
  hcName : Name
}.

(** [CommandHandleContext]: a handle and the session that authorizes
    it, nil for a handle without authorization. *)
Record CommandHandleContext := mkCommandHandleContext {
  chHandle : HandleContext;
  chSession : SessionContext
}.

Record cmdContext (P : Type) := mkCmdContext {
  cCommandCode : CommandCode;
  cHandles : list CommandHandleContext;
  cParams : list P;
  cExtraSessions : list SessionContext
}.
Arguments mkCmdContext {P} _ _ _ _.
Arguments cCommandCode {P} _.
Arguments cHandles {P} _.
Arguments cParams {P} _.
Arguments cExtraSessions {P} _.

(** What [execContext.RunCommand] calls outside tpm.go: the session
    engine behind [sessionParams], the marshalling of the parameters
    (of type [P]) and the dispatcher, on a transport state [T].  The
    session engine reads the session data, and building the command
    auth area may change them. *)
Record commandEngine (T X P : Type) := mkCommandEngine {
  newSessionParams : sessionParams;
  AppendSessionForResource : sessionParams -> sessionContext -> HandleContext -> heap
                             -> X + sessionParams;
  AppendExtraSessions : sessionParams -> list SessionContext -> heap -> X + sessionParams;
  hasDecryptSession : sessionParams -> bool;
  isParamEncryptable : P -> bool;
  MarshalToBytes : list P -> X + list byte;
  BuildCommandAuthArea : sessionParams -> CommandCode -> list Name -> list byte -> heap
                         -> heap * (X + list AuthCommand);
  dispatch : T -> CommandCode -> HandleList -> list AuthCommand -> list byte -> bool
             -> T * result (dispatchError X) (list byte * list AuthResponse);
  engineProcessResponseAuthArea : authProcessor X
}.
Arguments newSessionParams {T X P} _.
Arguments AppendSessionForResource {T X P} _ _ _ _ _.
Arguments AppendExtraSessions {T X P} _ _ _ _.
Arguments hasDecryptSession {T X P} _ _.
Arguments isParamEncryptable {T X P} _ _.
Arguments MarshalToBytes {T X P} _ _.
Arguments BuildCommandAuthArea {T X P} _ _ _ _ _ _.
Arguments dispatch {T X P} _ _ _ _ _ _ _.
Arguments engineProcessResponseAuthArea {T X P} _.

Inductive runError (X : Type) :=
| ErrHandleContext (cc : CommandCode) (index : Z) (cause : X)
| ErrExtraSessions (cc : CommandCode) (cause : X)
| ErrNoParameterEncryption (cc : CommandCode)
| ErrMarshalParameters (cc : CommandCode) (cause : X)
| ErrBuildAuthArea (cc : CommandCode) (cause : X)
| ErrDispatch (e : dispatchError X).
Arguments ErrHandleContext {X} cc index cause.
Arguments ErrExtraSessions {X} cc cause.
Arguments ErrNoParameterEncryption {X} cc.
Arguments ErrMarshalParameters {X} cc cause.
Arguments ErrBuildAuthArea {X} cc cause.
Arguments ErrDispatch {X} e.

(** The loop [for _, h := range c.Handles] of [execContext.RunCommand];
    the index in the error is [len(handles)] after the append. *)
Fixpoint appendHandles {T X P} (eng : commandEngine T X P) (cc : CommandCode) (h : heap)
    (hs : list CommandHandleContext) (handles : HandleList) (handleNames : list Name)
    (sp : sessionParams) : result (runError X) (HandleList * list Name * sessionParams) :=
  match hs with
  | [] => Ok (handles, handleNames, sp)
  | hc :: rest =>
      let handles := handles ++ [hcHandle (chHandle hc)] in
      let handleNames := handleNames ++ [hcName (chHandle hc)] in
      match chSession hc with
      | Some s =>
          match AppendSessionForResource eng sp s (chHandle hc) h with
          | inl err => Err (ErrHandleContext cc (len handles) err)
          | inr sp' => appendHandles eng cc h rest handles handleNames sp'
          end
      | None => appendHandles eng cc h rest handles handleNames sp
      end
  end.

Definition withHeap {X} (e : execContext X) (h : heap) : execContext X :=
  mkExecContext h (responses e) (lastExclusiveSession e) (pendingResponse e).

(** [execContext.RunCommand].  The result is the new [execContext],
    the new state of the transport and the address of the response
    context, which is a fresh one. *)
Definition execRunCommand {T X P} (eng : commandEngine T X P) (e : execContext X) (t : T)
    (c : cmdContext P) (responseHandle : bool)
  : result Empty_set (execContext X * T * result (runError X) loc) :=
  let cc := cCommandCode c in
  match appendHandles eng cc (sessionHeap e) (cHandles c) [] [] (newSessionParams eng) with
  | Panic => Panic
  | Err err => Ok (e, t, Err err)
  | Ok (handles, handleNames, sp) =>
      match AppendExtraSessions eng sp (cExtraSessions c) (sessionHeap e) with
      | inl err => Ok (e, t, Err (ErrExtraSessions cc err))
      | inr sp =>
          if hasDecryptSession eng sp
             && match cParams c with
                | [] => true
                | p :: _ => negb (isParamEncryptable eng p)
                end
          then Ok (e, t, Err (ErrNoParameterEncryption cc))
          else
            match MarshalToBytes eng (cParams c) with
            | inl err => Ok (e, t, Err (ErrMarshalParameters cc err))
            | inr cpBytes =>
                match BuildCommandAuthArea eng sp cc handleNames cpBytes (sessionHeap e) with
                | (h1, inl err) => Ok (withHeap e h1, t, Err (ErrBuildAuthArea cc err))
                | (h1, inr cAuthArea) =>
                    let e1 := withHeap e h1 in
                    match (match pendingResponse e1 with
                           | Some r0 =>
                               match processResponseAuth (engineProcessResponseAuthArea eng)
                                                         e1 r0 with
                               | Ok (e2, _) => Ok e2
                               | Err x => Err x
                               | Panic => Panic
                               end
                           | None => Ok e1
                           end) with
                    | Panic => Panic
                    | Err x => match x with end
                    | Ok e2 =>
                        match dispatch eng t cc handles cAuthArea cpBytes responseHandle with
                        | (t', Panic) => Panic
                        | (t', Err err) => Ok (e2, t', Err (ErrDispatch err))
                        | (t', Ok (rpBytes, rAuthArea)) =>
                            let r := fresh (dom (responses e2)) in
                            Ok (mkExecContext (sessionHeap e2)
                                  (<[r := mkRspContext cc sp rAuthArea rpBytes None]>
                                     (responses e2))
                                  (lastExclusiveSession e2) (Some r),
                                t', Ok r)
                        end
                    end
                end
            end
      end
  end.

(** An engine for commands without parameter encryption: sessions are
    collected in order, a session without session data being refused;
    parameters are byte strings, no session needs an HMAC, and the
    dispatcher is [RunCommand] on a transport that plays back
    responses. *)
Definition plainEngine : commandEngine (list ResponsePacket) Z (list byte) :=
  mkCommandEngine _ _ _
    (mkSessionParams [])
    (fun sp s _ h =>
       match Data h s with
       | Some _ => inr (mkSessionParams (Sessions sp ++ [mkSessionParam s]))
       | None => inl 1
       end)
    (fun sp extra _ =>
       inr (mkSessionParams
              (Sessions sp ++ omap (fun s => option_map mkSessionParam s) extra)))
    (fun _ => false)
    (fun _ => true)
    (fun ps => inr (concat ps))
    (fun _ _ _ _ h => (h, inr []))
    (fun t cc handles area cp rh =>
       match RunCommand playback defaultMaxSubmissions t cc handles area cp rh with
       | Some out => (tcti out, returned out)
       | None => (t, Panic)
       end)
    (fun _ _ _ h => (h, None)).

Definition pendingZ (commandCode : CommandCode) : execContext Z :=
  mkExecContext
    {[ 1%positive := mkSessionData SessionTypeHMAC true ]}
    {[ 7%positive := mkRspContext commandCode (mkSessionParams []) [] [] None ]}
    (Some auditSession)
    (Some 7%positive).


(** A command whose handle is authorized by a session that has been
    flushed. *)
Definition staleSessionCmd : cmdContext (list byte) :=
  mkCmdContext CommandUnseal
    [mkCommandHandleContext (mkHandleContext 0x80000001 (mu.put_be 4 0x80000001))
                            (Some flushedSession)]
    [] [].

(** ** Further code of tpm.go: the properties of the TPM *)

(** [TPM_PT_INPUT_BUFFER], [TPM_PT_PCR_SELECT_MIN], [TPM_PT_MAX_DIGEST]
    and [TPM_PT_NV_BUFFER_MAX] of the TPM 2.0 library specification
    ([PT_FIXED + 13, 19, 32, 44]); the constants are declared outside
    the sources at hand. *)
Definition PropertyInputBuffer : Z := 0x10D.
Definition PropertyPCRSelectMin : Z := 0x113.
Definition PropertyMaxDigest : Z := 0x120.
Definition PropertyNVBufferMax : Z := 0x12C.

Record TaggedProperty := mkTaggedProperty {
  Property : Z;
  Value : Z
}.

(** The fields of [TPMContext] that [InitProperties] sets. *)
Record tpmProperties := mkTpmProperties {
  propertiesInitialized : bool;
  maxBufferSize : Z;
  minPcrSelectSize : Z;
  maxDigestSize : Z;
  maxNVBufferSize : Z
}.

Inductive initError (X : Type) :=
| ErrGetCapability (cause : X)
| ErrPropertyOutOfRange (property : Z)
| ErrPCRSelectMinOutOfRange
| ErrMissingMaxDigest
| ErrMissingNVBufferMax
| ErrMissingPCRSelectMin.
Arguments ErrGetCapability {X} cause.
Arguments ErrPropertyOutOfRange {X} property.
Arguments ErrPCRSelectMinOutOfRange {X}.
Arguments ErrMissingMaxDigest {X}.
Arguments ErrMissingNVBufferMax {X}.
Arguments ErrMissingPCRSelectMin {X}.

(** The loop [for _, prop := range props] of [InitProperties]; on an
    error the fields set so far stay set. *)
Fixpoint applyProperties {X} (props : list TaggedProperty) (t : tpmProperties)
  : tpmProperties * option (initError X) :=
  match props with
  | [] => (t, None)
  | prop :: rest =>
      if (Property prop =? PropertyInputBuffer) || (Property prop =? PropertyMaxDigest)
         || (Property prop =? PropertyNVBufferMax)
      then
        if 65535 <? Value prop then (t, Some (ErrPropertyOutOfRange (Property prop)))
        else
          let value := uint16 (Value prop) in
          applyProperties rest
            (if Property prop =? PropertyInputBuffer then
               mkTpmProperties (propertiesInitialized t) value (minPcrSelectSize t)
                               (maxDigestSize t) (maxNVBufferSize t)
             else if Property prop =? PropertyMaxDigest then
               mkTpmProperties (propertiesInitialized t) (maxBufferSize t) (minPcrSelectSize t)
                               value (maxNVBufferSize t)
             else
               mkTpmProperties (propertiesInitialized t) (maxBufferSize t) (minPcrSelectSize t)
                               (maxDigestSize t) value)
      else if Property prop =? PropertyPCRSelectMin then
        if 255 <? Value prop then (t, Some ErrPCRSelectMinOutOfRange)
        else
          applyProperties rest
            (mkTpmProperties (propertiesInitialized t) (maxBufferSize t) (uint8 (Value prop))
                             (maxDigestSize t) (maxNVBufferSize t))
      else applyProperties rest t
  end.

(** [TPMContext.InitProperties].  [getProperties] is
    [GetCapabilityTPMProperties(PropertyFixed, CapabilityMaxProperties,
    sessions...)] on the state [T] of the TPM. *)
Definition InitProperties {T X}
    (getProperties : list SessionContext -> T -> T * (X + list TaggedProperty))
    (sessions : list SessionContext) (w : T) (t : tpmProperties)
  : T * tpmProperties * option (initError X) :=
  match getProperties sessions w with
  | (w', inl err) => (w', t, Some (ErrGetCapability err))
  | (w', inr props) =>
      match applyProperties props t with
      | (t1, Some err) => (w', t1, Some err)
      | (t1, None) =>
          let t2 :=
            if maxBufferSize t1 =? 0
            then mkTpmProperties (propertiesInitialized t1) 1024 (minPcrSelectSize t1)
                                 (maxDigestSize t1) (maxNVBufferSize t1)
            else t1 in
          if maxDigestSize t2 =? 0 then (w', t2, Some ErrMissingMaxDigest)
          else if maxNVBufferSize t2 =? 0 then (w', t2, Some ErrMissingNVBufferMax)
          else if minPcrSelectSize t2 =? 0 then (w', t2, Some ErrMissingPCRSelectMin)
          else (w', mkTpmProperties true (maxBufferSize t2) (minPcrSelectSize t2)
                                    (maxDigestSize t2) (maxNVBufferSize t2), None)
      end
  end.

(** [TPMContext.initPropertiesIfNeeded]. *)
Definition initPropertiesIfNeeded {T X}
    (getProperties : list SessionContext -> T -> T * (X + list TaggedProperty))
    (w : T) (t : tpmProperties) : T * tpmProperties * option (initError X) :=
  if propertiesInitialized t then (w, t, None)
  else InitProperties getProperties [] w t.

(** The fields as the Go types bound them, and as [new(TPMContext)]
    leaves them. *)
Definition wfProperties (t : tpmProperties) : Prop :=
  0 <= maxBufferSize t <= 65535 /\ 0 <= minPcrSelectSize t <= 255
  /\ 0 <= maxDigestSize t <= 65535 /\ 0 <= maxNVBufferSize t <= 65535.

Definition newProperties : tpmProperties := mkTpmProperties false 0 0 0 0.

(** A TPM that reports a digest size, an NV buffer size and a PCR
    select size, counting the commands it gets, and one that also
    reports an input buffer of a megabyte. *)
Definition reportedProperties : list TaggedProperty :=
  [mkTaggedProperty PropertyPCRSelectMin 3; mkTaggedProperty PropertyMaxDigest 64;
   mkTaggedProperty 0x105 0x322e3000; mkTaggedProperty PropertyNVBufferMax 2048].

Definition reportingTpm : list SessionContext -> nat -> nat * (unit + list TaggedProperty) :=
  fun _ n => (S n, inr reportedProperties).

Definition oversizedTpm : list SessionContext -> nat -> nat * (unit + list TaggedProperty) :=
  fun _ n => (S n, inr (reportedProperties ++ [mkTaggedProperty PropertyInputBuffer 0x100000])).


(** ** Further instances for cmds_session.go, util/object.go and the
       qualified names *)

(** The bytes [authB] that [StartAuthSession] takes from the
    [authValue] of a bound session. *)
Definition authBytes (authValue : authValueArg) : list byte :=
  match authValue with
  | AuthString a => a
  | AuthBytes a => a
  | AuthNil => []
  | AuthOther => []
  end.

(** [rand.Read(iv)] fills the slice it is given: the IV has the block
    size of the cipher. *)
Definition ivLaw (C : cryptoAdapter) : Prop :=
  forall alg iv, randRead C (BlockSize C alg) = Some iv -> len iv = BlockSize C alg.

(** [Name.Algorithm] reads the algorithm back from a digest name built
    with an available algorithm. *)
Definition nameAlgLaw (ops : nameOps) : Prop :=
  forall alg msg,
    Available ops alg = true ->
    Algorithm_of ops (mu.put_be 2 alg ++ hashSum ops alg msg) = alg.

(** An entity whose name is a handle, not a digest. *)
Definition handleEntity : Entity := mkEntity (mu.put_be 4 HandleOwner).

(* ===================================================================== *)
(** * Part II: theorems                                                   *)
(* ===================================================================== *)

(** ** The wire codec *)

Arguments mu.put_be : simpl never.

Lemma Z_of_byte_range (b : byte) : 0 <= Z_of_byte b < 256.
Proof.
  unfold Z_of_byte. pose proof (Byte.to_N_bounded b) as Hb.
  split; [apply N2Z.is_nonneg|]. lia.
Qed.

Lemma Z_of_byte_of_Z (z : Z) : Z_of_byte (byte_of_Z z) = z mod 256.
Proof.
  unfold byte_of_Z, Z_of_byte.
  assert (Hr : 0 <= z mod 256 < 256) by (apply Z.mod_pos_bound; lia).
  destruct (Byte.of_N (Z.to_N (z mod 256))) as [b|] eqn:Hb.
  - apply Byte.to_of_N in Hb. rewrite Hb. rewrite Z2N.id; lia.
  - apply Byte.of_N_None_iff in Hb. lia.
Qed.

Lemma len_app {A} (a b : list A) : len (a ++ b) = len a + len b.
Proof. unfold len. rewrite length_app. lia. Qed.

Lemma len_nonneg {A} (l : list A) : 0 <= len l.
Proof. unfold len. lia. Qed.

Lemma put_be_S (n : nat) (v : Z) :
  mu.put_be (S n) v = byte_of_Z (Z.shiftr v (8 * Z.of_nat n)) :: mu.put_be n v.
Proof. reflexivity. Qed.

Lemma len_put_be (n : nat) (v : Z) : len (mu.put_be n v) = Z.of_nat n.
Proof.
  unfold len. f_equal. induction n as [|k IH]; [reflexivity|].
  rewrite put_be_S. cbn [length]. now rewrite IH.
Qed.

Lemma fold_be_put_be (n : nat) (v acc : Z) :
  fold_left (fun a b => a * 256 + Z_of_byte b) (mu.put_be n v) acc
  = acc * 256 ^ Z.of_nat n + v mod 256 ^ Z.of_nat n.
Proof.
  revert acc. induction n as [|k IH]; intros acc.
  - change (mu.put_be 0 v) with (@nil byte). cbn. rewrite Z.mod_1_r. lia.
  - rewrite put_be_S. cbn [fold_left]. rewrite IH, Z_of_byte_of_Z.
    rewrite Z.shiftr_div_pow2 by lia.
    replace (2 ^ (8 * Z.of_nat k)) with (256 ^ Z.of_nat k)
      by (rewrite Z.pow_mul_r by lia; reflexivity).
    rewrite Nat2Z.inj_succ, Z.pow_succ_r by lia.
    assert (Hk : 0 < 256 ^ Z.of_nat k) by (apply Z.pow_pos_nonneg; lia).
    rewrite (Z.mul_comm 256 (256 ^ Z.of_nat k)).
    rewrite (Z.rem_mul_r v (256 ^ Z.of_nat k) 256) by lia.
    ring.
Qed.

Lemma get_be_put_be (n : nat) (v : Z) :
  mu.get_be (mu.put_be n v) = v mod 256 ^ Z.of_nat n.
Proof. unfold mu.get_be. rewrite fold_be_put_be. lia. Qed.

Lemma get_be_put_be_small (n : nat) (v : Z) :
  0 <= v < 256 ^ Z.of_nat n -> mu.get_be (mu.put_be n v) = v.
Proof. intros H. rewrite get_be_put_be. now apply Z.mod_small. Qed.

Lemma readFull_app (a rest : list byte) :
  mu.readFull (len a) (a ++ rest) = Some (a, rest).
Proof.
  unfold mu.readFull. rewrite len_app.
  pose proof (len_nonneg a). pose proof (len_nonneg rest).
  replace ((0 <=? len a) && (len a <=? len a + len rest)) with true
    by (symmetry; apply andb_true_iff; split; apply Z.leb_le; lia).
  unfold len. rewrite Nat2Z.id.
  rewrite take_app_length, drop_app_length. reflexivity.
Qed.

Lemma get_uint_put_be (n : nat) (v : Z) (rest : list byte) :
  mu.get_uint n (mu.put_be n v ++ rest) = Some (v mod 256 ^ Z.of_nat n, rest).
Proof.
  unfold mu.get_uint. rewrite <- (len_put_be n v), readFull_app.
  now rewrite get_be_put_be, len_put_be.
Qed.

Lemma put_sized_Some (b out : list byte) :
  mu.put_sized b = Some out -> len b <= 65535 /\ out = mu.put_be 2 (len b) ++ b.
Proof.
  unfold mu.put_sized. destruct (len b <=? 65535) eqn:H; [|discriminate].
  intros [= <-]. split; [now apply Z.leb_le|reflexivity].
Qed.

Lemma get_sized_put_sized (b out rest : list byte) :
  mu.put_sized b = Some out -> mu.get_sized (out ++ rest) = Some (b, rest).
Proof.
  intros [Hl ->]%put_sized_Some. unfold mu.get_sized.
  rewrite <- app_assoc, get_uint_put_be.
  pose proof (len_nonneg b).
  rewrite Z.mod_small by (change (256 ^ Z.of_nat 2) with 65536; lia).
  apply readFull_app.
Qed.

(** Reading from a limited reader that still may hand out enough. *)
Lemma lreadFull_app (a rest : list byte) (n : Z) :
  len a <= n ->
  mu.lreadFull (len a) (mu.mkLimited (a ++ rest) n) = Some (a, mu.mkLimited rest (n - len a)).
Proof.
  intros H. unfold mu.lreadFull. cbn [mu.N mu.R].
  replace (len a <=? n) with true by (symmetry; now apply Z.leb_le).
  now rewrite readFull_app.
Qed.

Lemma lget_uint_put_be (k : nat) (v : Z) (rest : list byte) (n : Z) :
  Z.of_nat k <= n ->
  mu.lget_uint k (mu.mkLimited (mu.put_be k v ++ rest) n)
  = Some (v mod 256 ^ Z.of_nat k, mu.mkLimited rest (n - Z.of_nat k)).
Proof.
  intros H. unfold mu.lget_uint. rewrite <- (len_put_be k v) at 1.
  rewrite lreadFull_app by (rewrite len_put_be; lia).
  now rewrite get_be_put_be, len_put_be.
Qed.

Lemma lget_sized_put_sized (b out rest : list byte) (n : Z) :
  mu.put_sized b = Some out -> len out <= n ->
  mu.lget_sized (mu.mkLimited (out ++ rest) n) = Some (b, mu.mkLimited rest (n - len out)).
Proof.
  intros [Hl ->]%put_sized_Some Hn. rewrite len_app, len_put_be in Hn.
  pose proof (len_nonneg b).
  unfold mu.lget_sized. rewrite <- app_assoc, lget_uint_put_be by lia.
  rewrite Z.mod_small by (change (256 ^ Z.of_nat 2) with 65536; lia).
  rewrite lreadFull_app by lia.
  rewrite len_app, len_put_be. do 2 f_equal. f_equal. lia.
Qed.

(** ** command.go: marshalling and unmarshalling a command packet *)

Lemma wfAuthCommand_spec (a : AuthCommand) :
  wfAuthCommand a = true ->
  0 <= SessionHandle a < 2 ^ 32 /\ 0 <= cSessionAttributes a < 2 ^ 8
  /\ len (cNonce a) <= 65535 /\ len (cHMAC a) <= 65535.
Proof. unfold wfAuthCommand. rewrite !andb_true_iff. lia. Qed.

Lemma marshalAuthCommand_wf (a : AuthCommand) :
  wfAuthCommand a = true ->
  exists nb hb,
    mu.put_sized (cNonce a) = Some nb /\ mu.put_sized (cHMAC a) = Some hb
    /\ marshalAuthCommand a
       = Some (mu.put_be 4 (SessionHandle a) ++ nb ++ mu.put_be 1 (cSessionAttributes a) ++ hb).
Proof.
  intros (_ & _ & Hn & Hh)%wfAuthCommand_spec.
  unfold marshalAuthCommand, mu.put_sized.
  apply Z.leb_le in Hn, Hh. rewrite Hn, Hh. eauto.
Qed.

Lemma marshalAuthCommand_len (a : AuthCommand) (bs : list byte) :
  marshalAuthCommand a = Some bs -> 9 <= len bs <= 131079.
Proof.
  unfold marshalAuthCommand.
  destruct (mu.put_sized (cNonce a)) as [nb|] eqn:Hn; [|discriminate].
  destruct (mu.put_sized (cHMAC a)) as [hb|] eqn:Hh; [|discriminate].
  intros Heq.
  assert (bs = mu.put_be 4 (SessionHandle a) ++ nb ++ mu.put_be 1 (cSessionAttributes a) ++ hb)
    as -> by congruence.
  clear Heq.
  apply put_sized_Some in Hn as [Hn ->]. apply put_sized_Some in Hh as [Hh ->].
  rewrite !len_app, !len_put_be.
  pose proof (len_nonneg (cNonce a)). pose proof (len_nonneg (cHMAC a)). lia.
Qed.

Lemma unmarshal_marshal_AuthCommand (a : AuthCommand) (bs rest : list byte) (n : Z) :
  wfAuthCommand a = true ->
  marshalAuthCommand a = Some bs ->
  len bs <= n ->
  unmarshalAuthCommand (mu.mkLimited (bs ++ rest) n) = Some (a, mu.mkLimited rest (n - len bs)).
Proof.
  intros Hwf Hm Hn.
  destruct (marshalAuthCommand_wf a Hwf) as (nb & hb & Hnb & Hhb & Heq).
  assert (bs = mu.put_be 4 (SessionHandle a) ++ nb ++ mu.put_be 1 (cSessionAttributes a) ++ hb)
    as -> by congruence.
  clear Hm.
  apply wfAuthCommand_spec in Hwf as (Hh & Ha & _ & _).
  rewrite !len_app, !len_put_be in Hn.
  pose proof (len_nonneg nb). pose proof (len_nonneg hb).
  unfold unmarshalAuthCommand.
  rewrite <- !app_assoc.
  rewrite lget_uint_put_be by lia.
  rewrite (lget_sized_put_sized _ _ _ _ Hnb) by lia.
  rewrite lget_uint_put_be by lia.
  rewrite (lget_sized_put_sized _ _ _ _ Hhb) by lia.
  rewrite !Z.mod_small by (simpl Z.of_nat; lia).
  destruct a; cbn. do 3 f_equal.
  rewrite !len_app, !len_put_be. lia.
Qed.

Lemma marshalAuthArea_wf (authArea : list AuthCommand) :
  Forall (fun a => wfAuthCommand a = true) authArea ->
  exists aBytes, marshalAuthArea authArea = Some aBytes
                 /\ len aBytes <= 131079 * len authArea.
Proof.
  induction 1 as [|a l Ha _ (bs & IH & Hlen)].
  - exists []. split; [reflexivity|]. unfold len. simpl. lia.
  - destruct (marshalAuthCommand_wf a Ha) as (nb & hb & _ & _ & Heq).
    cbn [marshalAuthArea]. rewrite Heq, IH. eexists. split; [reflexivity|].
    apply marshalAuthCommand_len in Heq.
    rewrite len_app. unfold len in *. cbn [length]. lia.
Qed.

(** The loop reads back what the marshaller wrote, entry by entry,
    and stops where the auth area ends. *)
Lemma readCommandAuthArea_marshal (authArea : list AuthCommand) :
  forall (slots : nat) (aBytes rest : list byte) (acc : list AuthCommand),
    Forall (fun a => wfAuthCommand a = true) authArea ->
    marshalAuthArea authArea = Some aBytes ->
    (length authArea <= slots)%nat ->
    readCommandAuthArea slots (mu.mkLimited (aBytes ++ rest) (len aBytes)) acc
    = Ok (acc ++ authArea, mu.mkLimited rest 0).
Proof.
  induction authArea as [|a l IH]; intros slots aBytes rest acc Hwf Hm Hs.
  - injection Hm as <-. destruct slots; cbn; now rewrite app_nil_r.
  - cbn [marshalAuthArea] in Hm.
    destruct (marshalAuthCommand a) as [bs|] eqn:Ha; [|discriminate].
    destruct (marshalAuthArea l) as [bl|] eqn:Hl; [|discriminate].
    injection Hm as <-.
    apply Forall_cons in Hwf as [Hwa Hwl].
    destruct slots as [|k]; [cbn in Hs; lia|].
    pose proof (marshalAuthCommand_len _ _ Ha) as Hlen.
    pose proof (len_nonneg bl) as Hbl.
    cbn [readCommandAuthArea mu.N].
    replace (0 <? len (bs ++ bl)) with true
      by (symmetry; apply Z.ltb_lt; rewrite len_app; lia).
    rewrite <- app_assoc.
    rewrite (unmarshal_marshal_AuthCommand a bs (bl ++ rest) _ Hwa Ha)
      by (rewrite len_app; lia).
    replace (len (bs ++ bl) - len bs) with (len bl) by (rewrite len_app; lia).
    rewrite (IH k bl rest (acc ++ [a]) Hwl eq_refl) by (cbn in Hs; lia).
    now rewrite <- app_assoc.
Qed.

Lemma unmarshal_marshal_CommandHeader (tag sz code : Z) (rest : list byte) :
  0 <= tag < 2 ^ 16 -> 0 <= sz < 2 ^ 32 ->
  unmarshalCommandHeader (marshalCommandHeader (mkCommandHeader tag sz code) ++ rest)
  = Some (mkCommandHeader tag sz (uint32 code), rest).
Proof.
  intros Ht Hs. unfold unmarshalCommandHeader, marshalCommandHeader. cbn [cmdTag CommandSize cmdCode].
  rewrite <- !app_assoc.
  rewrite !get_uint_put_be.
  rewrite !Z.mod_small by (simpl Z.of_nat; lia).
  reflexivity.
Qed.

Lemma uint32_range (z : Z) : 0 <= uint32 z < 2 ^ 32.
Proof. unfold uint32, wrap. apply Z.mod_pos_bound. lia. Qed.

Lemma len_marshalCommandHeader (h : CommandHeader) : len (marshalCommandHeader h) = headerSize.
Proof. unfold marshalCommandHeader. rewrite !len_app, !len_put_be. reflexivity. Qed.

(** C3.  For every command code, every handle block of [numHandles]
    4-byte handles, every command auth area of at most three
    well-formed entries and all parameter bytes, [MarshalCommandPacket]
    produces a packet, and [CommandPacket.UnmarshalPayload] with
    [numHandles] succeeds on that packet and returns exactly the given
    handle bytes, auth area entries and parameter bytes. *)
Theorem UnmarshalPayload_MarshalCommandPacket
    (command : CommandCode) (handles : list byte) (authArea : list AuthCommand)
    (parameters : list byte) (numHandles : Z) :
  len handles = numHandles * handleSize ->
  (length authArea <= 3)%nat ->
  Forall (fun a => wfAuthCommand a = true) authArea ->
  exists p : CommandPacket,
    MarshalCommandPacket command handles authArea parameters = Ok p
    /\ UnmarshalPayload p numHandles = Ok (handles, authArea, parameters).
Proof.
  intros Hh H3 Hwf.
  pose proof (len_nonneg handles) as Hhn.
  destruct (marshalAuthArea_wf authArea Hwf) as (aBytes & Ha & Hlen).
  unfold MarshalCommandPacket. rewrite Ha.
  assert (Hread : forall payload,
    UnmarshalPayload
      (marshalCommandHeader
         (mkCommandHeader (if 0 <? len authArea then TagSessions else TagNoSessions)
            (uint32 (headerSize + len (handles ++ payload))) command)
       ++ handles ++ payload) numHandles
    = if 0 <? len authArea then
        match mu.get_uint 4 payload with
        | None => Err ErrUnmarshalAuthSize
        | Some (authSize, buf) =>
            match readCommandAuthArea 3 (mu.mkLimited buf authSize) [] with
            | Ok (area, r) => Ok (handles, area, mu.R r)
            | Err e => Err e
            | Panic => Panic
            end
        end
      else Ok (handles, [], payload)).
  { intros payload. unfold UnmarshalPayload.
    rewrite unmarshal_marshal_CommandHeader
      by (try apply uint32_range; destruct (0 <? len authArea); cbv; split; congruence).
    cbn [CommandSize cmdTag].
    rewrite (len_app (marshalCommandHeader _)), len_marshalCommandHeader, Z.eqb_refl.
    cbn [negb].
    replace (numHandles * handleSize <? 0) with false by (symmetry; apply Z.ltb_ge; lia).
    rewrite <- Hh, readFull_app.
    destruct (0 <? len authArea); reflexivity. }
  destruct (0 <? len authArea) eqn:Hpos.
  - eexists. split; [reflexivity|].
    rewrite Hread, get_uint_put_be.
    unfold len in Hlen.
    pose proof (len_nonneg aBytes).
    rewrite Z.mod_small by (unfold uint32, wrap; rewrite Z.mod_small; simpl Z.of_nat; unfold len in *; lia).
    unfold uint32, wrap. rewrite Z.mod_small by (unfold len in *; lia).
    now rewrite (readCommandAuthArea_marshal authArea 3 aBytes parameters [] Hwf Ha H3).
  - eexists. split; [reflexivity|].
    rewrite Hread.
    apply Z.ltb_ge in Hpos. destruct authArea; [reflexivity|]. unfold len in Hpos. cbn in Hpos. lia.
Qed.

(** The theorem at the auth area of the test-suite. *)
Lemma UnmarshalPayload_MarshalCommandPacket_witness :
  exists p : CommandPacket,
    MarshalCommandPacket CommandUnseal (marshalHandleList [0x80000001]) authAreaExample [] = Ok p
    /\ UnmarshalPayload p 1 = Ok (marshalHandleList [0x80000001], authAreaExample, []).
Proof.
  apply (UnmarshalPayload_MarshalCommandPacket CommandUnseal (marshalHandleList [0x80000001])
           authAreaExample [] 1).
  - reflexivity.
  - simpl. lia.
  - repeat constructor.
Defined.

(** ** command.go: the packets of the test-suite *)

Example TestMarshalCommandPacketNoSessions :
  MarshalCommandPacket CommandStartAuthSession (marshalHandleList [HandleNull; 0x80000000]) []
    (DecodeHexString
       "00204355a46b19d348dc2f57c046f8ef63d4538ebb936000f3c9ee954a27460dd8650000000010000b")
  = Ok (DecodeHexString
          "80010000003b00000176400000078000000000204355a46b19d348dc2f57c046f8ef63d4538ebb936000f3c9ee954a27460dd8650000000010000b").
Proof. vm_compute. reflexivity. Qed.

Example TestMarshalCommandPacketWithSessions :
  MarshalCommandPacket CommandUnseal (marshalHandleList [0x80000001]) authAreaExample []
  = Ok (DecodeHexString
          "8002000000670000015e8000000100000055400000090000010003666f6f0200000100204355a46b19d348dc2f57c046f8ef63d4538ebb936000f3c9ee954a27460dd865400020042aea10a0f14f2d391373599be69d53a75dde9951fc3d3cd10b6100aa7a9f24").
Proof. vm_compute. reflexivity. Qed.

Example TestUnmarshalResponsePacketTooSmall :
  Unmarshal (DecodeHexString "80010000000a000000") 0 = Ok (fail 0 ErrUnmarshalHeader).
Proof. vm_compute. reflexivity. Qed.

Example TestUnmarshalResponsePacketInvalidSize :
  Unmarshal (DecodeHexString "80010000001000000000") 0
  = Ok (fail 0 (ErrInvalidResponseSize 16 10)).
Proof. vm_compute. reflexivity. Qed.

Example TestUnmarshalResponsePacketTPM12 :
  Unmarshal (DecodeHexString "00c40000000a0000001e") 0
  = Ok (mkUnmarshalled 0x1e [] [] [] None).
Proof. vm_compute. reflexivity. Qed.

Example TestUnmarshalResponsePacketNoSessions :
  Unmarshal (DecodeHexString
               "80010000002c0000000000200000000000000000000000000000000000000000000000000000000000000000") 0
  = Ok (mkUnmarshalled Success []
          (DecodeHexString
             "00200000000000000000000000000000000000000000000000000000000000000000")
          [] None).
Proof. vm_compute. reflexivity. Qed.

Example TestUnmarshalResponsePacketWithSessions :
  Unmarshal (DecodeHexString "80020000001a00000000000000070005a5a5a5a5a50000010000") 0
  = Ok (mkUnmarshalled Success [] (DecodeHexString "0005a5a5a5a5a5")
          [mkAuthResponse [] AttrContinueSession []] None).
Proof. vm_compute. reflexivity. Qed.

Example TestUnmarshalResponsePacketWithHandle :
  Unmarshal (DecodeHexString "80010000000e0000000080000002") 1
  = Ok (mkUnmarshalled Success (DecodeHexString "80000002") [] [] None).
Proof. vm_compute. reflexivity. Qed.

Example TestUnmarshalResponsePacketInvalidParamSize :
  Unmarshal (DecodeHexString "80020000001a00000000000010070005a5a5a5a5a50000010000") 0
  = Ok (fail 0 ErrReadParameters).
Proof. vm_compute. reflexivity. Qed.

Example TestUnmarshalResponsePacketTooManySessions :
  Unmarshal (DecodeHexString
               "80020000002900000000000000070005a5a5a5a5a50000010000000001000000000100000000010000") 0
  = Ok (fail 0 (ErrTrailingBytes 5)).
Proof. vm_compute. reflexivity. Qed.

(** ** command.go: unsuccessful responses *)

(** C1.  The response packet [80 02 00 00 00 0a 00 00 08 8e] of
    [TestUnmarshalResponsePacketUnsuccessfulWithSessions] has the tag
    [TPM_ST_SESSIONS] and the nonzero response code [0x88e]; the test
    expects an error, but [ResponsePacket.Unmarshal] returns the
    response code with a nil error: the packet is not rejected. *)
Theorem Unmarshal_unsuccessful_with_sessions_not_rejected :
  Unmarshal unsuccessfulWithSessions 0 = Ok (mkUnmarshalled 0x88e [] [] [] None)
  /\ rejected (Unmarshal unsuccessfulWithSessions 0) = false.
Proof. split; vm_compute; reflexivity. Qed.

(** The branch for an unsuccessful response returns before the tag is
    looked at: a ten-byte packet with a nonzero response code is
    returned without an error whatever its tag is. *)
Lemma Unmarshal_unsuccessful_any_tag (tag : StructTag) (rc : ResponseCode) (numHandles : Z) :
  0 <= tag < 2 ^ 16 -> 0 < rc < 2 ^ 32 ->
  Unmarshal (mu.put_be 2 tag ++ mu.put_be 4 10 ++ mu.put_be 4 rc) numHandles
  = Ok (mkUnmarshalled rc [] [] [] None).
Proof.
  intros Ht Hrc. unfold Unmarshal.
  assert (Hl : len (mu.put_be 2 tag ++ mu.put_be 4 10 ++ mu.put_be 4 rc) = 10)
    by (rewrite !len_app, !len_put_be; reflexivity).
  rewrite Hl. change (maxResponseSize <? 10) with false. cbv iota.
  unfold unmarshalResponseHeader.
  rewrite get_uint_put_be, get_uint_put_be.
  rewrite <- (app_nil_r (mu.put_be 4 rc)), get_uint_put_be.
  rewrite !Z.mod_small by (simpl Z.of_nat; lia).
  cbn [ResponseSize rspCode]. change (uint32 10) with 10. rewrite Z.eqb_refl. cbn [negb].
  unfold Success. replace (rc =? 0) with false by (symmetry; apply Z.eqb_neq; lia).
  reflexivity.
Qed.

(** ** tpm.go: the exclusive audit session *)

Lemma isSessionAllowed_false (commandCode : CommandCode) :
  isSessionAllowed commandCode = false
  <-> commandCode = CommandStartup \/ commandCode = CommandContextLoad
      \/ commandCode = CommandContextSave \/ commandCode = CommandFlushContext.
Proof.
  unfold isSessionAllowed.
  destruct (Z.eqb_spec commandCode CommandStartup); [tauto|].
  destruct (Z.eqb_spec commandCode CommandContextLoad); [tauto|].
  destruct (Z.eqb_spec commandCode CommandContextSave); [tauto|].
  destruct (Z.eqb_spec commandCode CommandFlushContext); [tauto|].
  split; [discriminate|tauto].
Qed.

Lemma SessionIsExclusive_clearExclusive (h : heap) (s : sessionContext) :
  SessionIsExclusive (clearExclusive h s) s = false.
Proof.
  unfold SessionIsExclusive, clearExclusive, Data.
  destruct (h !! ctx s) as [d|] eqn:Hd.
  - now rewrite lookup_insert_eq.
  - now rewrite Hd.
Qed.

(** The flag of every other session is left alone. *)
Lemma clearExclusive_other (h : heap) (s s' : sessionContext) :
  ctx s' <> ctx s -> Data (clearExclusive h s) s' = Data h s'.
Proof.
  intros Hne. unfold clearExclusive, Data.
  destruct (h !! ctx s); [|reflexivity].
  now rewrite lookup_insert_ne.
Qed.

(** C2, as the code has it.  With a cached last-exclusive session [s],
    processing the pending response of a command that allows sessions
    (any command but Startup, ContextLoad, ContextSave and
    FlushContext) clears the exclusivity flag of [s] on the host side
    before the response auth area is processed, and forgets [s];
    processing the pending response of one of those four commands hands
    the session data to the auth processing untouched and keeps [s]
    cached unless a session of the response is found exclusive. *)
Theorem processResponseAuth_exclusive {X : Type} (P : authProcessor X)
    (e : execContext X) (r : loc) (rsp : rspContext X) (s : sessionContext) :
  responses e !! r = Some rsp ->
  pendingResponse e = Some r ->
  lastExclusiveSession e = Some s ->
  let seen := if isSessionAllowed (rCommandCode rsp)
              then clearExclusive (sessionHeap e) s else sessionHeap e in
  let after := P (SessionParams rsp) (ResponseAuthArea rsp) (RpBytes rsp) seen in
  exists e' err,
    processResponseAuth P e r = Ok (e', err)
    /\ sessionHeap e' = fst after
    /\ pendingResponse e' = None
    /\ (isSessionAllowed (rCommandCode rsp) = true ->
        SessionIsExclusive seen s = false
        /\ lastExclusiveSession e'
           = match snd after with
             | Some _ => None
             | None => firstExclusive (fst after) (Sessions (SessionParams rsp))
             end)
    /\ (isSessionAllowed (rCommandCode rsp) = false ->
        seen = sessionHeap e
        /\ lastExclusiveSession e'
           = match snd after with
             | Some _ => Some s
             | None =>
                 match firstExclusive (fst after) (Sessions (SessionParams rsp)) with
                 | Some s' => Some s'
                 | None => Some s
                 end
             end).
Proof.
  intros Hr Hp Hl seen after. subst seen after.
  unfold processResponseAuth. rewrite Hr, Hp, Hl.
  rewrite bool_decide_eq_true_2 by reflexivity. cbn [negb].
  destruct (isSessionAllowed (rCommandCode rsp)) eqn:Hallowed.
  - destruct (P _ _ _ (clearExclusive (sessionHeap e) s)) as [h2 [x|]] eqn:HP;
      (do 2 eexists; split; [reflexivity|]; cbn; repeat split; try discriminate;
       try apply SessionIsExclusive_clearExclusive).
    destruct (firstExclusive h2 _); reflexivity.
  - destruct (P _ _ _ (sessionHeap e)) as [h2 [x|]] eqn:HP;
      (do 2 eexists; split; [reflexivity|]; cbn; repeat split; discriminate).
Qed.

(** The theorem at the pending response of a [GetRandom] command. *)
Lemma processResponseAuth_exclusive_witness :
  exists e' err,
    processResponseAuth acceptAll (pendingAfter CommandGetRandom) 7%positive = Ok (e', err)
    /\ SessionIsExclusive (sessionHeap e') auditSession = false
    /\ lastExclusiveSession e' = None.
Proof.
  destruct (processResponseAuth_exclusive acceptAll (pendingAfter CommandGetRandom) 7%positive
              (mkRspContext CommandGetRandom (mkSessionParams []) [] [] None) auditSession
              eq_refl eq_refl eq_refl)
    as (e' & err & Hrun & Hheap & _ & Hallowed & _).
  exists e', err. split; [exact Hrun|].
  destruct (Hallowed eq_refl) as [Hflag Hlast].
  split; [rewrite Hheap; exact Hflag|exact Hlast].
Defined.

(** C2, as the spec words it, fails both ways: after the response of
    [Startup] the cached session is still exclusive on the host side,
    and after the response of [GetRandom], a command that is not among
    the four, it no longer is. *)
Lemma startup_keeps_exclusive_getrandom_clears :
  exclusiveAfter (processResponseAuth acceptAll (pendingAfter CommandStartup) 7%positive)
  = Some (true, Some auditSession)
  /\ exclusiveAfter (processResponseAuth acceptAll (pendingAfter CommandGetRandom) 7%positive)
     = Some (false, None).
Proof. split; vm_compute; reflexivity. Qed.

(** ** tpm.go: the retry loop of [RunCommand] *)

Section RunCommand.

Context {T X : Type} (env : dispatcherEnv T X).
Context (maxSubmissions : Z) (commandCode : CommandCode).
Context (cmd : CommandPacket) (nAuth : Z) (rHandle : bool).

(** What the loop guarantees when it is entered at [tries] with the
    earlier submissions in [log]: it ends, all submissions but the
    last one were retry warnings, it does not go beyond
    [maxSubmissions] unless it is already there, and an error
    decoded from the last response is the error returned. *)
Lemma runLoop_spec (fuel : nat) :
  forall (tries : Z) (t : T) (log : list (submission X)),
    maxSubmissions - tries <= Z.of_nat fuel ->
    len log = tries - 1 ->
    Forall (fun s => isRetry env commandCode s = true) log ->
    exists out pre lastsub,
      runLoop env maxSubmissions commandCode cmd nAuth rHandle fuel tries t log = Some out
      /\ submissions out = pre ++ [lastsub]
      /\ Forall (fun s => isRetry env commandCode s = true) pre
      /\ len (submissions out) <= Z.max tries maxSubmissions
      /\ (forall rc err, lastsub = SubDecoded rc (Some err) ->
                         returned out = Err (TPMResponseError err))
      /\ (forall rc, lastsub = SubDecoded rc None -> is_Ok (returned out) = true
                     \/ exists got, returned out
                                    = Err (InvalidResponseAuthCount commandCode got nAuth)).
Proof.
  induction fuel as [|k IH]; intros tries t log Hfuel Hlen Hlog.
  all: cbn [runLoop].
  all: destruct (RunCommandBytes env t cmd) as [t1 [resp|err|]].
  all: try (do 3 eexists; split; [reflexivity|]; cbn [submissions returned];
            split; [reflexivity|]; split; [exact Hlog|];
            split; [rewrite len_app; unfold len at 2; cbn [length]; lia|];
            split; intros; discriminate).
  all: destruct (unmarshalResponse env resp rHandle) as [[[rc rpBytes] rAuthArea] [uerr|]].
  all: try (do 3 eexists; split; [reflexivity|]; cbn [submissions returned];
            split; [reflexivity|]; split; [exact Hlog|];
            split; [rewrite len_app; unfold len at 2; cbn [length]; lia|];
            split; intros; discriminate).
  all: destruct (DecodeResponseCode env commandCode rc) as [err|] eqn:Hdec.
  all: try (destruct (negb (len rAuthArea =? nAuth));
            (do 3 eexists; split; [reflexivity|]; cbn [submissions returned];
             split; [reflexivity|]; split; [exact Hlog|];
             split; [rewrite len_app; unfold len at 2; cbn [length]; lia|];
             split; [intros; discriminate|]; intros; eauto)).
  all: destruct (maxSubmissions <=? tries) eqn:Hmax.
  all: try (do 3 eexists; split; [reflexivity|]; cbn [submissions returned];
            split; [reflexivity|]; split; [exact Hlog|];
            split; [rewrite len_app; unfold len at 2; cbn [length]; lia|];
            split; [intros ? ? [= _ <-]; reflexivity|intros; discriminate]).
  all: destruct (retryWarning env err commandCode) eqn:Hretry; cbn [negb].
  all: try (do 3 eexists; split; [reflexivity|]; cbn [submissions returned];
            split; [reflexivity|]; split; [exact Hlog|];
            split; [rewrite len_app; unfold len at 2; cbn [length]; lia|];
            split; [intros ? ? [= _ <-]; reflexivity|intros; discriminate]).
  - apply Z.leb_gt in Hmax. cbn in Hfuel. lia.
  - apply Z.leb_gt in Hmax.
    destruct (IH (tries + 1) t1 (log ++ [SubDecoded rc (Some err)]))
      as (out & pre & lastsub & Hrun & Hsub & Hpre & Hcount & Herr & Hok).
    + lia.
    + rewrite len_app. unfold len at 2. cbn [length]. lia.
    + apply Forall_app. split; [exact Hlog|]. constructor; [exact Hretry|constructor].
    + exists out, pre, lastsub. repeat split; try assumption. lia.
Qed.

End RunCommand.

(** What the loop of [RunCommand] does for every [maxSubmissions].
    [RunCommand] always returns.  Of its submissions all but the last
    brought back a response whose code decodes to [WarningYielded],
    [WarningTesting] or [WarningRetry]: nothing else is resubmitted.
    The submissions are counted against [maxSubmissions] only after
    the first one has been made, so there are at most
    [max 1 maxSubmissions] of them.  A TPM error decoded from the
    last response is returned to the caller, so an error that is not
    one of the three warnings is surfaced by the response that
    carries it. *)
Theorem RunCommand_retries {T X : Type} (env : dispatcherEnv T X) (maxSubmissions : Z) (t : T)
    (commandCode : CommandCode) (cHandles : HandleList) (cAuthArea : list AuthCommand)
    (cpBytes : list byte) (rHandle : bool) :
  exists out,
    RunCommand env maxSubmissions t commandCode cHandles cAuthArea cpBytes rHandle = Some out
    /\ len (submissions out) <= Z.max 1 maxSubmissions
    /\ (forall pre s post, submissions out = pre ++ s :: post -> post <> [] ->
                           isRetry env commandCode s = true)
    /\ (forall pre rc err post,
          submissions out = pre ++ SubDecoded rc (Some err) :: post ->
          retryWarning env err commandCode = false ->
          post = [] /\ returned out = Err (TPMResponseError err))
    /\ (forall pre rc err,
          submissions out = pre ++ [SubDecoded rc (Some err)] ->
          returned out = Err (TPMResponseError err)).
Proof.
  unfold RunCommand.
  destruct (MarshalCommandPacket commandCode (marshalHandleList cHandles) cAuthArea cpBytes)
    as [cmd|e|].
  2,3: eexists; split; [reflexivity|]; cbn [submissions returned]; split;
       [unfold len; cbn; lia|];
       repeat split; intros; exfalso; eapply app_cons_not_nil; eassumption.
  destruct (runLoop_spec env maxSubmissions commandCode cmd (len cAuthArea) rHandle
              (Z.to_nat maxSubmissions) 1 t [])
    as (out & pre & lastsub & Hrun & Hsub & Hpre & Hcount & Herr & _).
  { lia. }
  { reflexivity. }
  { constructor. }
  exists out. split; [exact Hrun|]. split; [exact Hcount|].
  assert (Hmid : forall pre' s post, submissions out = pre' ++ s :: post -> post <> [] ->
                                     isRetry env commandCode s = true).
  { intros pre' s post Heq Hpost. rewrite Hsub in Heq.
    destruct (exists_last Hpost) as (post' & z & ->).
    change (pre' ++ s :: post' ++ [z]) with (pre' ++ (s :: post') ++ [z]) in Heq.
    rewrite app_assoc in Heq. apply app_inj_tail in Heq as [-> _].
    apply Forall_app in Hpre as [_ Hs]. now inversion Hs. }
  split; [exact Hmid|].
  assert (Hlast : forall pre' rc err, submissions out = pre' ++ [SubDecoded rc (Some err)] ->
                                      returned out = Err (TPMResponseError err)).
  { intros pre' rc err Heq. rewrite Hsub in Heq.
    apply app_inj_tail in Heq as [_ ->]. eapply Herr. reflexivity. }
  split; [|exact Hlast].
  intros pre' rc err post Heq Hno.
  destruct post as [|p post].
  - split; [reflexivity|]. eapply Hlast. exact Heq.
  - exfalso. specialize (Hmid pre' _ (p :: post) Heq ltac:(discriminate)).
    cbn in Hmid. congruence.
Qed.

(** C5.  [SetMaxSubmissions] is documented to set "the maximum number
    of times that CommandContext will attempt to submit a command
    before failing with an error".  After [SetMaxSubmissions(0)] the
    code breaks that bound: the test [tries >= t.maxSubmissions] is
    reached only after the first submission and its response, so a
    command is submitted once, which is more than zero times. *)
Lemma RunCommand_zero_maxSubmissions_submits_once :
  exists out,
    RunCommand playback 0 [retryResponse; successResponse] CommandGetRandom [] [] [] false
    = Some out
    /\ len (submissions out) = 1
    /\ ~ len (submissions out) <= 0.
Proof. eexists. split; [vm_compute; reflexivity|]. split; [reflexivity|]. cbv. congruence. Qed.

(** Five submissions are made when the TPM keeps asking for a retry. *)
Example RunCommand_five_retries :
  option_map (fun out => len (submissions out))
    (RunCommand playback defaultMaxSubmissions (replicate 8 retryResponse)
       CommandGetRandom [] [] [] false) = Some 5.
Proof. vm_compute. reflexivity. Qed.

(** ** tpm.go: the read/write-multiple helper *)

Lemma prepareSessions_usable (h : heap) (sessions : list SessionContext) :
  forallb (usable h) sessions = true ->
  prepareSessions h sessions = Some (map withContinue sessions, existsb (isPolicy h) sessions).
Proof.
  induction sessions as [|[s|] l IH]; cbn [forallb existsb prepareSessions map];
    [reflexivity| |].
  - intros [Hs Hl]%andb_true_iff. unfold usable, isPolicy in *.
    destruct (Data h s) as [d|]; [|discriminate].
    now rewrite (IH Hl).
  - intros Hl. cbn [usable andb] in Hl. now rewrite (IH Hl).
Qed.

Lemma prepareSessions_unusable (h : heap) (sessions : list SessionContext) :
  forallb (usable h) sessions = false -> prepareSessions h sessions = None.
Proof.
  induction sessions as [|[s|] l IH]; cbn [forallb prepareSessions]; [discriminate| |].
  - unfold usable at 1. destruct (Data h s) as [d|]; [|reflexivity].
    cbn [andb]. intros Hl. now rewrite (IH Hl).
  - cbn [usable andb]. intros Hl. now rewrite (IH Hl).
Qed.







Lemma execLoop_last {S E} (fuel : nat) (action : execMultipleHelperAction S E) (p : bool)
    (sessions sessionsOrig : list SessionContext) (st : S) :
  last action st = true ->
  execLoop fuel action p sessions sessionsOrig st
  = match run action sessionsOrig st with
    | (st', Some e) => Some (st', Some (ErrRun e))
    | (st', None) => Some (st', None)
    end.
Proof. intros H. destruct fuel; cbn [execLoop]; rewrite H; reflexivity. Qed.


Lemma execLoop_more {S E} (fuel : nat) (action : execMultipleHelperAction S E)
    (sessions sessionsOrig : list SessionContext) (st : S) :
  last action st = false ->
  execLoop fuel action false sessions sessionsOrig st
  = match run action sessions st with
    | (st', Some e) => Some (st', Some (ErrRun e))
    | (st', None) =>
        match fuel with
        | O => None
        | S k => execLoop k action false sessions sessionsOrig st'
        end
    end.
Proof. intros H. destruct fuel; cbn [execLoop]; rewrite H; reflexivity. Qed.

Lemma readRun_logging {W E} (fn : execFn W E) (sessions : list SessionContext)
    (c : readMultipleHelperContext) (log : list call) (w : W) :
  readRun (logging fn) sessions (c, (log, w))
  = let sz := if maxSize c <? remaining c then maxSize c else remaining c in
    match fn sz (total c) sessions w with
    | (w', inl err) => ((c, (log ++ [(sz, total c, sessions)], w')), Some err)
    | (w', inr tmpData) =>
        ((mkReadCtx (copyAt (data c) (total c) tmpData) (maxSize c)
                    (uint16 (remaining c - sz)) (uint16 (total c + sz)),
          (log ++ [(sz, total c, sessions)], w')), None)
    end.
Proof.
  unfold readRun, logging. cbn [fst snd].
  destruct (fn _ (total c) sessions w) as [w' [err|tmp]]; reflexivity.
Qed.

Section ReadMultiple.

Context {W E : Type} (fn : execFn W E).
Context (h : heap) (sessions : list SessionContext).
Context (m : Z) (Hm : 0 < m <= 65535).

Lemma uint16_small (z : Z) : 0 <= z <= 65535 -> uint16 z = z.
Proof. intros Hz. unfold uint16, wrap. apply Z.mod_small. lia. Qed.

(** The last command: one call with the original session contexts. *)
Lemma execLoop_read_last (fuel : nat) (p : bool) (rem off : Z) (dat : list byte)
    (log : list call) (w : W) :
  rem <= m ->
  exists c' w' r,
    execLoop fuel (readAction (logging fn)) p (map withContinue sessions) sessions
             (mkReadCtx dat m rem off, (log, w))
    = Some ((c', (log ++ [(rem, off, sessions)], w')), r)
    /\ (r = None <-> exists tmp, fn rem off sessions w = (w', inr tmp))
    /\ (forall e, r = Some e -> exists x, e = ErrRun x).
Proof.
  intros Hle.
  rewrite execLoop_last
    by (cbn [readAction last fst]; unfold readLast; cbn; now apply Z.leb_le).
  cbn [readAction run]. rewrite readRun_logging. cbn [maxSize remaining total data].
  replace (m <? rem) with false by (symmetry; apply Z.ltb_ge; lia). cbv zeta.
  destruct (fn rem off sessions w) as [w' [err|tmp]].
  - do 3 eexists. split; [reflexivity|]. split; [|intros e [= <-]; eauto].
    split; [discriminate|]. intros [tmp [= _ ?]].
  - do 3 eexists. split; [reflexivity|]. split; [|discriminate].
    split; [eauto|reflexivity].
Qed.




(** A transfer that fits one chunk: one command with the caller's
    session contexts, policy sessions or not. *)
Lemma readMultipleHelper_one_chunk (size : Z) (log : list call) (w : W) :
  size <= m ->
  forallb (usable h) sessions = true ->
  exists w' r,
    readMultipleHelper size m (logging fn) h sessions (log, w)
    = Some ((log ++ [(size, 0, sessions)], w'), r)
    /\ r <> Err ErrPolicySession
    /\ (is_Ok r = true <-> exists tmp, fn size 0 sessions w = (w', inr tmp)).
Proof.
  intros Hs Hu. unfold readMultipleHelper, execMultipleHelper.
  rewrite (prepareSessions_usable h sessions Hu).
  destruct (execLoop_read_last (Z.to_nat size) (existsb (isPolicy h) sessions) size 0
              (replicate (Z.to_nat size) Byte.x00) log w Hs)
    as (c' & w' & r & Hrun & Hok & Herr).
  rewrite Hrun. exists w'. destruct r as [e|].
  - exists (Err e). split; [reflexivity|]. split.
    + destruct (Herr e eq_refl) as [x ->]. discriminate.
    + split; [discriminate|]. intros Hfn. apply Hok in Hfn. discriminate.
  - exists (Ok (data c')). split; [reflexivity|]. split; [discriminate|].
    split; [intros _; now apply Hok|reflexivity].
Qed.

End ReadMultiple.

Lemma execLoop_false_no_policy_error {S E} (action : execMultipleHelperAction S E) (fuel : nat) :
  forall (sessions sessionsOrig : list SessionContext) (st st' : S) (r : option (helperError E)),
    execLoop fuel action false sessions sessionsOrig st = Some (st', r) ->
    r <> Some ErrPolicySession.
Proof.
  induction fuel as [|k IH]; intros sessions sessionsOrig st st' r; cbn [execLoop].
  all: destruct (last action st); cbn [negb].
  all: try (destruct (run action sessionsOrig st) as [s1 [e|]]; intros [= _ <-]; discriminate).
  - destruct (run action sessions st) as [s1 [e|]]; [intros [= _ <-]|]; discriminate.
  - destruct (run action sessions st) as [s1 [e|]]; [intros [= _ <-]; discriminate|].
    apply IH.
Qed.

(** The policy-session error comes from nowhere else: it needs a
    policy session and a transfer of more than one chunk. *)
Lemma readMultipleHelper_policy_error_only {W E} (fn : execFn W E) (h : heap)
    (sessions : list SessionContext) (size m : Z) (w w' : W) :
  readMultipleHelper size m fn h sessions w = Some (w', Err ErrPolicySession) ->
  m < size /\ existsb (isPolicy h) sessions = true.
Proof.
  unfold readMultipleHelper, execMultipleHelper.
  destruct (forallb (usable h) sessions) eqn:Hu.
  - rewrite (prepareSessions_usable h sessions Hu).
    destruct (existsb (isPolicy h) sessions) eqn:Hp.
    + destruct (Z_le_gt_dec size m) as [Hle|Hgt]; [|intros _; split; [lia|reflexivity]].
      rewrite execLoop_last by (cbn; unfold readLast; cbn; now apply Z.leb_le).
      destruct (run _ _ _) as [[c1 w1] [e|]]; intros [= _ ?]; discriminate.
    + destruct (execLoop _ _ false _ _ _) as [[[c1 w1] r]|] eqn:Hrun; [|discriminate].
      apply execLoop_false_no_policy_error in Hrun.
      destruct r as [e|]; [|discriminate]. intros [= _ ->]. congruence.
  - rewrite (prepareSessions_unusable h sessions Hu). discriminate.
Qed.




(** C10.  With usable session contexts, a transfer that fits a single
    chunk ([size <= maxSize]) is done by exactly one command, issued
    with the caller's own session contexts, policy sessions included,
    and is not refused for a policy session; and whenever the helper
    refuses a policy session, the transfer needs more than one command
    and a policy session is among the sessions. *)
Theorem readMultipleHelper_single_chunk {W E : Type} (fn : execFn W E) (h : heap)
    (sessions : list SessionContext) (size maxSize : Z) (log : list call) (w : W) :
  forallb (usable h) sessions = true ->
  (size <= maxSize ->
   exists w' r,
     readMultipleHelper size maxSize (logging fn) h sessions (log, w)
     = Some ((log ++ [(size, 0, sessions)], w'), r)
     /\ r <> Err ErrPolicySession
     /\ (is_Ok r = true <-> exists tmp, fn size 0 sessions w = (w', inr tmp)))
  /\ (forall st, readMultipleHelper size maxSize (logging fn) h sessions (log, w)
                 = Some (st, Err ErrPolicySession) ->
                 maxSize < size /\ existsb (isPolicy h) sessions = true).
Proof.
  intros Hu. split.
  - intros Hle. now apply readMultipleHelper_one_chunk.
  - intros st. apply readMultipleHelper_policy_error_only.
Qed.

(** The theorem for ten bytes and a policy session. *)
Lemma readMultipleHelper_single_chunk_witness :
  exists w' r,
    readMultipleHelper 10 1024 (logging zeroFill) twoSessions
                       [Some policySession; None; Some hmacSession] ([], tt)
    = Some (([(10, 0, [Some policySession; None; Some hmacSession])], w'), r)
    /\ r <> Err ErrPolicySession.
Proof.
  destruct (readMultipleHelper_single_chunk zeroFill twoSessions
              [Some policySession; None; Some hmacSession] 10 1024 [] tt eq_refl)
    as [Hone _].
  destruct (Hone ltac:(lia)) as (w' & r & Hrun & Hnot & _).
  exists w', r. split; [exact Hrun|exact Hnot].
Defined.

(** ** cmds_session.go: salted sessions *)

(** Every call with a non-nil [tpmKey] ends at the first statement:
    [StartAuthSession] returns the [InvalidParamError]
    "no support for salted sessions yet", generates no salt, sends no
    command and leaves the [tpmImpl] as it was.  The branch for the
    salt further down is a TODO that no call reaches with a key. *)
Theorem StartAuthSession_salted_unsupported {T X : Type} (env : sessionEnv T X) (t : T)
    (tpmKey : ResourceContext) (bind : option ResourceContext) (sessionType : SessionType)
    (symmetric : bool) (authHash : AlgorithmId) (authValue : authValueArg) :
  StartAuthSession env t (Some tpmKey) bind sessionType symmetric authHash authValue
  = (t, Err (InvalidParamError NoSaltedSessions)).
Proof. reflexivity. Qed.

(** C7.  The call of the tests [Session1] and [Session5] of
    cmds_context_test.go, which take a salted session for granted: a
    storage key as [tpmKey], the owner handle as [bind], an HMAC
    session, no symmetric algorithm and SHA-256.  The code returns an
    error where the tests demand a session: no salt is generated and
    no command reaches the TPM. *)
Lemma StartAuthSession_with_tpmKey_sends_nothing :
  StartAuthSession loopbackTpm [] (Some storageKeyContext)
                   (Some (mkResourceContext HandleOwner)) SessionTypeHMAC false
                   HashAlgorithmSHA256 AuthNil
  = ([], Err (InvalidParamError NoSaltedSessions)).
Proof. vm_compute. reflexivity. Qed.

(** Without [tpmKey] and [bind] the command is sent and the session
    key is empty. *)
Example StartAuthSession_unsalted_unbound :
  StartAuthSession loopbackTpm [] None None SessionTypeHMAC false HashAlgorithmSHA256 AuthNil
  = ([mkStartCmd (mkResourceContext HandleNull) (mkResourceContext HandleNull) (zeros 32) []
                 SessionTypeHMAC AlgorithmNull HashAlgorithmSHA256],
     Ok (mkStartedSession 0x02000000 HashAlgorithmSHA256 (mkResourceContext HandleNull)
                          (zeros 32) (zeros 32) [])).
Proof. vm_compute. reflexivity. Qed.

(** ** util: qualified names *)

Section QualifiedNameProofs.

Context (ops : nameOps).

(** The index at which the loop starts only shows in the errors. *)
Lemma foldAncestors_index (l : list Entity) :
  forall (i j : Z) (q : Name),
    qualifiedName (foldAncestors ops i q l) = qualifiedName (foldAncestors ops j q l).
Proof.
  induction l as [|a l IH]; intros i j q; cbn [foldAncestors]; [reflexivity|].
  destruct (computeOneQualifiedName ops a q); [apply IH|reflexivity|reflexivity].
Qed.

Lemma foldAncestors_app (l1 l2 : list Entity) :
  forall (i : Z) (q : Name),
    qualifiedName (foldAncestors ops i q (l1 ++ l2))
    = match qualifiedName (foldAncestors ops i q l1) with
      | Some mid => qualifiedName (foldAncestors ops 0 mid l2)
      | None => None
      end.
Proof.
  induction l1 as [|a l IH]; intros i q; cbn [app foldAncestors qualifiedName].
  - apply foldAncestors_index.
  - destruct (computeOneQualifiedName ops a q); [apply IH|reflexivity|reflexivity].
Qed.

(** A call is the loop over the ancestors followed by the entity. *)
Lemma ComputeQualifiedName_fold (entity : Entity) (rootQn : Name) (ancestors : list Entity) :
  qualifiedName (ComputeQualifiedName ops entity rootQn ancestors)
  = qualifiedName (foldAncestors ops 0 rootQn (ancestors ++ [entity])).
Proof.
  rewrite foldAncestors_app. unfold ComputeQualifiedName.
  destruct (foldAncestors ops 0 rootQn ancestors) as [q| |]; cbn [qualifiedName foldAncestors];
    [|reflexivity|reflexivity].
  destruct (computeOneQualifiedName ops entity q); reflexivity.
Qed.

End QualifiedNameProofs.

(** C8.  For every root qualified name, ancestor list [a1..an], child
    [c] and split point [0 <= k <= n]: the qualified name of [c]
    computed in one call from the root below [a1..an] is the one
    computed below [a(k+1)..an] from the intermediate qualified name,
    which for [k >= 1] is the qualified name of [ak] computed from the
    root below [a1..a(k-1)] and for [k = 0] the root itself; if either
    computation delivers no name, neither does the other. *)
Theorem ComputeQualifiedName_split (ops : nameOps) (c : Entity) (rootQn : Name)
    (ancestors : list Entity) (k : nat) :
  (k <= length ancestors)%nat ->
  qualifiedName (ComputeQualifiedName ops c rootQn ancestors)
  = match intermediateQN ops rootQn ancestors k with
    | Some mid => qualifiedName (ComputeQualifiedName ops c mid (drop k ancestors))
    | None => None
    end.
Proof.
  intros Hk. destruct k as [|j]; [reflexivity|].
  cbn [intermediateQN].
  destruct (ancestors !! j) as [ak|] eqn:Hak;
    [|apply lookup_ge_None in Hak; lia].
  assert (Hsplit : ancestors ++ [c]
                   = (take j ancestors ++ [ak]) ++ (drop (S j) ancestors ++ [c])).
  { rewrite <- (take_drop_middle ancestors j ak Hak) at 1.
    rewrite <- !app_assoc. reflexivity. }
  rewrite (ComputeQualifiedName_fold ops c rootQn ancestors), Hsplit, foldAncestors_app.
  rewrite (ComputeQualifiedName_fold ops ak rootQn (take j ancestors)).
  destruct (qualifiedName (foldAncestors ops 0 rootQn (take j ancestors ++ [ak]))) as [mid|];
    [|reflexivity].
  now rewrite ComputeQualifiedName_fold.
Qed.

(** The theorem for a child below three ancestors in the owner
    hierarchy, split at the second ancestor. *)
Lemma ComputeQualifiedName_split_witness :
  qualifiedName (ComputeQualifiedName sha256Names (entityOf "child") (mu.put_be 4 HandleOwner)
                   [entityOf "a1"; entityOf "a2"; entityOf "a3"])
  = match intermediateQN sha256Names (mu.put_be 4 HandleOwner)
            [entityOf "a1"; entityOf "a2"; entityOf "a3"] 2 with
    | Some mid => qualifiedName (ComputeQualifiedName sha256Names (entityOf "child") mid
                                   [entityOf "a3"])
    | None => None
    end.
Proof.
  apply (ComputeQualifiedName_split sha256Names (entityOf "child") (mu.put_be 4 HandleOwner)
           [entityOf "a1"; entityOf "a2"; entityOf "a3"] 2).
  simpl. lia.
Defined.

(** The names of the witness are computed, not refused. *)
Example ComputeQualifiedName_example :
  is_Ok (ComputeQualifiedNameInHierarchy sha256Names (entityOf "child") HandleOwner
           [entityOf "a1"; entityOf "a2"; entityOf "a3"]) = true.
Proof. vm_compute. reflexivity. Qed.

(** ** policyutil: the digests of [TestPolicyMixed] *)

(** The digests of the single assertions that the spec lists. *)
Example ComputeFor_AuthValue :
  Policy.ComputeFor [Policy.AuthValue] HashAlgorithmSHA256
  = Some (DecodeHexString
            "8fcd2169ab92694e0c633f1ab772842b8241bbc20288981fc7ac1eddc1fddb0e")
  /\ Policy.ComputeFor [Policy.Password] HashAlgorithmSHA256
     = Policy.ComputeFor [Policy.AuthValue] HashAlgorithmSHA256.
Proof. split; vm_compute; reflexivity. Qed.

Example ComputeFor_CommandCode :
  Policy.ComputeFor [Policy.CommandCodeElt CommandNVChangeAuth] HashAlgorithmSHA256
  = Some (DecodeHexString
            "445ed953601a045504550999bf2cbb2992cba2dbb5121bcf03869f65b50c26e5").
Proof. vm_compute. reflexivity. Qed.

(** C9.  The offline digest of the ordered policy
    [PolicySecret(owner, "bar"); PolicyAuthValue;
    PolicyCommandCode(NVChangeAuth)] is
    [426df7dd...c0feeee5] for SHA-256 and [abdce83a...559612d3] for
    SHA-1. *)
Theorem ComputeFor_policyMixed :
  Policy.ComputeFor Policy.policyMixed HashAlgorithmSHA256
  = Some (DecodeHexString
            "426df7ddd07dbfaa400237f773da801e464ef2766084966b04d8b4dfc0feeee5")
  /\ Policy.ComputeFor Policy.policyMixed HashAlgorithmSHA1
     = Some (DecodeHexString "abdce83ab50f4d5fd378181e21de9486559612d3").
Proof. split; vm_compute; reflexivity. Qed.

(** ** util/object.go: wrapping and unwrapping *)

Lemma rbind_Ok {E A B} (r : result E A) (k : A -> result E B) (b : B) :
  rbind r k = Ok b -> exists a, r = Ok a /\ k a = Ok b.
Proof. destruct r as [a|e|]; cbn; [eauto|discriminate|discriminate]. Qed.

Lemma orPanic_Ok {E A} (o : option A) (a : A) : @orPanic E A o = Ok a -> o = Some a.
Proof. destruct o; cbn; [intros [= ->]; reflexivity|discriminate]. Qed.

Lemma orErr_Ok {E A} (e : E) (o : option A) (a : A) : orErr e o = Ok a -> o = Some a.
Proof. destruct o; cbn; [intros [= ->]; reflexivity|discriminate]. Qed.

Section ObjectProofs.

Context (C : cryptoAdapter) (HC : cipherLaw C).

(** The outer wrapper without IV comes off again. *)
Lemma UnwrapOuter_ProduceOuterWrap (hashAlg : HashAlgorithmId)
    (symmetricAlg : option SymDefObject) (name : Name) (seed data wrapped : list byte) :
  ProduceOuterWrap C hashAlg symmetricAlg name seed false data = Ok wrapped ->
  UnwrapOuter C hashAlg symmetricAlg name seed false wrapped = Ok data.
Proof.
  unfold ProduceOuterWrap, UnwrapOuter.
  intros (sym & ->%orPanic_Ok & H)%rbind_Ok.
  cbn [rbind] in H.
  apply rbind_Ok in H as (symKey & HsymKey%orPanic_Ok & H).
  apply rbind_Ok in H as (enc & Henc%orErr_Ok & H).
  cbn [rbind] in H.
  apply rbind_Ok in H as (hmacKey & HhmacKey%orPanic_Ok & H).
  apply rbind_Ok in H as (integrity & Hint%orPanic_Ok & H).
  apply rbind_Ok in H as (ib & Hib%orPanic_Ok & [= <-]).
  rewrite (get_sized_put_sized _ _ _ Hib).
  rewrite HhmacKey. cbn [orPanic rbind]. rewrite Hint. cbn [orPanic rbind].
  rewrite bool_decide_eq_true_2 by reflexivity. cbn [negb orPanic rbind].
  rewrite HsymKey. cbn [orPanic rbind].
  now rewrite (HC _ _ _ _ _ Henc).
Qed.

Context {Sensitive : Type} (SC : sensitiveCodec Sensitive) (HS : codecLaw SC).

(** The sized structure is read back, whatever follows it. *)
Lemma unmarshalSized_marshalSized (sensitive : option Sensitive) (b rest : list byte) :
  marshalSized SC sensitive = Some b ->
  unmarshalSized SC (b ++ rest) = Some sensitive.
Proof.
  unfold marshalSized, unmarshalSized. destruct sensitive as [s|].
  - destruct (marshalSensitive SC s) as [b0|] eqn:Hm; [|discriminate].
    intros Hb. rewrite (get_sized_put_sized _ _ _ Hb).
    destruct (HS s b0 Hm) as [Hu Hpos].
    replace (len b0 =? 0) with false by (symmetry; apply Z.eqb_neq; lia).
    now rewrite Hu.
  - intros [= <-]. unfold mu.get_sized. rewrite get_uint_put_be.
    pose proof (readFull_app [] rest) as Hnil.
    change (mu.readFull 0 rest = Some ([], rest)) in Hnil.
    change (0 mod 256 ^ Z.of_nat 2) with 0. rewrite Hnil. reflexivity.
Qed.

Lemma innerWrapperWanted_cases (symmetricAlg : option SymDefObject) :
  innerWrapperWanted symmetricAlg = None
  \/ exists sym, innerWrapperWanted symmetricAlg = Some sym.
Proof. destruct (innerWrapperWanted symmetricAlg); eauto. Qed.

(** The inner wrapper comes off again under the key it was put on
    with. *)
Lemma inner_roundtrip (sym : SymDefObject) (name : Name) (key plain blob : list byte)
    (sensitive : option Sensitive) :
  marshalSized SC sensitive = Some plain ->
  (do innerIntegrity <- orPanic (digest C (NameAlgorithm C name) (plain ++ name));
   do ib <- orPanic (mu.put_sized innerIntegrity);
   orErr ErrApplyInnerWrapper
     (CryptSymmetricEncrypt C (Algorithm sym) key (zeros (BlockSize C (Algorithm sym)))
        (ib ++ plain))) = Ok blob ->
  (do duplicate <- orErr ErrRemoveInnerWrapper
     (CryptSymmetricDecrypt C (Algorithm sym) key (zeros (BlockSize C (Algorithm sym))) blob);
   match mu.get_sized duplicate with
   | None => Err ErrUnpackInnerIntegrity
   | Some (innerIntegrity, duplicate) =>
       do sum <- orPanic (digest C (NameAlgorithm C name) (duplicate ++ name));
       if negb (bool_decide (sum = innerIntegrity))
       then Err ErrInnerIntegrityInvalid
       else Ok duplicate
   end) = Ok plain.
Proof.
  intros Hplain H.
  apply rbind_Ok in H as (integrity & Hint%orPanic_Ok & H).
  apply rbind_Ok in H as (ib & Hib%orPanic_Ok & Henc%orErr_Ok).
  rewrite (HC _ _ _ _ _ Henc). cbn [orErr rbind].
  rewrite (get_sized_put_sized _ _ _ Hib), Hint. cbn [orPanic rbind].
  now rewrite bool_decide_eq_true_2 by reflexivity.
Qed.

(** C4.  For every sensitive structure, object name, parent public
    area, seed, symmetric algorithm and inner symmetric key: when
    [SensitiveToDuplicate] produces a duplication blob, then
    [DuplicateToSensitive], given that blob with the same name, the
    parent's name algorithm and symmetric algorithm, the same seed and
    symmetric algorithm and the matching inner key (the caller's key,
    or the fresh key handed back when the caller supplied none),
    returns the sensitive structure.  The cipher is assumed to decrypt
    what it encrypted ([cipherLaw]) and the wire schema of the
    sensitive structure to be symmetric ([codecLaw]). *)
Theorem DuplicateToSensitive_SensitiveToDuplicate
    (sensitive : option Sensitive) (name : Name) (parent : Public)
    (seed : list byte) (symmetricAlg : option SymDefObject)
    (innerSymKey innerSymKeyOut duplicate : list byte) :
  SensitiveToDuplicate C SC sensitive name parent seed symmetricAlg innerSymKey
  = Ok (innerSymKeyOut, duplicate) ->
  DuplicateToSensitive C SC duplicate name (NameAlg parent) (AsymDetail parent) seed
                       symmetricAlg (matchingKey innerSymKey innerSymKeyOut)
  = Ok sensitive.
Proof.
  unfold SensitiveToDuplicate, DuplicateToSensitive.
  intros (plain & Hplain%orErr_Ok & H)%rbind_Ok.
  apply rbind_Ok in H as ([kout inner] & Hinner & H).
  (* the inner blob is opened by the matching key *)
  assert (Hopen :
    match innerWrapperWanted symmetricAlg with
    | Some sym =>
        do duplicate <- orErr ErrRemoveInnerWrapper
          (CryptSymmetricDecrypt C (Algorithm sym) (matchingKey innerSymKey kout)
             (zeros (BlockSize C (Algorithm sym))) inner);
        match mu.get_sized duplicate with
        | None => Err ErrUnpackInnerIntegrity
        | Some (innerIntegrity, duplicate) =>
            do sum <- orPanic (digest C (NameAlgorithm C name) (duplicate ++ name));
            if negb (bool_decide (sum = innerIntegrity))
            then Err ErrInnerIntegrityInvalid
            else Ok duplicate
        end
    | None => Ok inner
    end = Ok plain).
  { destruct (innerWrapperWanted symmetricAlg) as [sym|]; [|now injection Hinner as _ ->].
    apply rbind_Ok in Hinner as (integrity & Hint & Hinner).
    apply rbind_Ok in Hinner as (ib & Hib & Hinner).
    apply rbind_Ok in Hinner as ([key keyOut] & Hkeys & Hinner).
    apply rbind_Ok in Hinner as (enc & Henc & [= <- <-]).
    assert (Hkey : matchingKey innerSymKey keyOut = key).
    { unfold matchingKey. destruct (len innerSymKey =? 0).
      - apply rbind_Ok in Hkeys as (k & _ & [= <- <-]). reflexivity.
      - now injection Hkeys as <- _. }
    rewrite Hkey.
    apply (inner_roundtrip sym name key plain enc sensitive Hplain).
    rewrite Hint. cbn [rbind]. rewrite Hib. cbn [rbind]. exact Henc. }
  destruct (0 <? len seed).
  - destruct (ProduceOuterWrap C (NameAlg parent) (AsymDetail parent) name seed false inner)
      as [wrapped|e|] eqn:Hwrap; try discriminate.
    injection H as <- <-.
    rewrite (UnwrapOuter_ProduceOuterWrap _ _ _ _ _ _ Hwrap). cbn [rbind].
    rewrite Hopen. cbn [rbind].
    rewrite <- (app_nil_r plain).
    now rewrite (unmarshalSized_marshalSized sensitive plain [] Hplain).
  - injection H as <- <-. cbn [rbind]. rewrite Hopen. cbn [rbind].
    rewrite <- (app_nil_r plain).
    now rewrite (unmarshalSized_marshalSized sensitive plain [] Hplain).
Qed.

End ObjectProofs.

Lemma byte_of_Z_mod (z : Z) : byte_of_Z (z mod 256) = byte_of_Z z.
Proof. unfold byte_of_Z. now rewrite Z.mod_mod by lia. Qed.

Lemma byte_of_Z_of_byte (b : byte) : byte_of_Z (Z_of_byte b) = b.
Proof.
  unfold byte_of_Z. pose proof (Z_of_byte_range b) as Hb.
  rewrite Z.mod_small by lia. unfold Z_of_byte. rewrite N2Z.id.
  now rewrite Byte.of_to_N.
Qed.

Lemma toyCrypto_cipherLaw : cipherLaw toyCrypto.
Proof.
  intros alg key iv plain cipher. cbn [toyCrypto CryptSymmetricEncrypt CryptSymmetricDecrypt].
  unfold shiftCipher. destruct ((alg =? 6) && (0 <? len key)); [|discriminate].
  intros [= <-]. f_equal. rewrite map_map.
  rewrite <- (map_id plain) at 2. apply map_ext. intros b.
  rewrite Z_of_byte_of_Z, <- byte_of_Z_mod, Zplus_mod_idemp_l.
  replace (Z_of_byte b + 1 * shiftOf key iv + -1 * shiftOf key iv) with (Z_of_byte b) by lia.
  now rewrite byte_of_Z_mod, byte_of_Z_of_byte.
Qed.

Lemma toyCodec_codecLaw : codecLaw toyCodec.
Proof.
  intros s b. cbn [toyCodec marshalSensitive unmarshalSensitive].
  destruct (mu.put_sized s) as [b'|] eqn:Hb'; [|discriminate].
  intros Hb. assert (b = mu.put_be 2 8 ++ b') as -> by congruence. clear Hb. split.
  - rewrite get_uint_put_be. change (8 mod 256 ^ Z.of_nat 2 =? 8) with true. cbv iota.
    rewrite <- (app_nil_r b'). now rewrite (get_sized_put_sized _ _ _ Hb').
  - rewrite len_app, len_put_be. pose proof (len_nonneg b'). lia.
Qed.

(** The theorem for an object with an auth value, wrapped for an RSA
    parent with an inner AES wrapper under a fresh key. *)
Lemma DuplicateToSensitive_SensitiveToDuplicate_witness :
  exists innerSymKeyOut duplicate,
    SensitiveToDuplicate toyCrypto toyCodec (Some (list_byte_of_string "auth")) objectName
      rsaParent (list_byte_of_string "seed") (Some aes128) []
    = Ok (innerSymKeyOut, duplicate)
    /\ DuplicateToSensitive toyCrypto toyCodec duplicate objectName HashAlgorithmSHA256
         (Some aes128) (list_byte_of_string "seed") (Some aes128) innerSymKeyOut
       = Ok (Some (list_byte_of_string "auth")).
Proof.
  do 2 eexists. split.
  - vm_compute. reflexivity.
  - apply (DuplicateToSensitive_SensitiveToDuplicate toyCrypto toyCrypto_cipherLaw
             toyCodec toyCodec_codecLaw
             (Some (list_byte_of_string "auth")) objectName rsaParent
             (list_byte_of_string "seed") (Some aes128) []).
    vm_compute. reflexivity.
Defined.

(** A blob does not open under another key: the integrity check of
    the inner wrapper fails. *)
Example DuplicateToSensitive_wrong_key :
  match SensitiveToDuplicate toyCrypto toyCodec (Some (list_byte_of_string "auth")) objectName
          rsaParent (list_byte_of_string "seed") (Some aes128) (list_byte_of_string "k1") with
  | Ok (_, duplicate) =>
      DuplicateToSensitive toyCrypto toyCodec duplicate objectName HashAlgorithmSHA256
        (Some aes128) (list_byte_of_string "seed") (Some aes128) (list_byte_of_string "k2")
  | _ => Panic
  end = Err ErrUnpackInnerIntegrity.
Proof. vm_compute. reflexivity. Qed.

(* ===================================================================== *)
(** * Part III: further properties of the code                            *)
(* ===================================================================== *)

(** ** command.go *)

Lemma readFull_Some (n : Z) (buf x rest : list byte) :
  mu.readFull n buf = Some (x, rest) -> buf = x ++ rest /\ len x = n.
Proof.
  unfold mu.readFull. destruct ((0 <=? n) && (n <=? len buf)) eqn:Hn; [|discriminate].
  apply andb_true_iff in Hn as [H0%Z.leb_le Hl%Z.leb_le].
  intros Heq. assert (x = take (Z.to_nat n) buf /\ rest = drop (Z.to_nat n) buf) as [-> ->]
    by (split; congruence).
  split; [now rewrite take_drop|].
  unfold len in *. rewrite length_take. lia.
Qed.

Lemma get_be_range (bs : list byte) : 0 <= mu.get_be bs < 256 ^ len bs.
Proof.
  unfold mu.get_be.
  assert (H : forall acc, 0 <= acc ->
            0 <= fold_left (fun a b => a * 256 + Z_of_byte b) bs acc
            < (acc + 1) * 256 ^ len bs).
  { induction bs as [|b l IH]; intros acc Hacc; cbn [fold_left].
    - unfold len. cbn. lia.
    - pose proof (Z_of_byte_range b) as Hb.
      destruct (IH (acc * 256 + Z_of_byte b) ltac:(lia)) as [Hlo Hhi].
      split; [exact Hlo|].
      replace (len (b :: l)) with (len l + 1) by (unfold len; cbn [length]; lia).
      pose proof (len_nonneg l).
      rewrite Z.pow_add_r by lia.
      assert (0 < 256 ^ len l) by (apply Z.pow_pos_nonneg; lia). nia. }
  specialize (H 0 ltac:(lia)). lia.
Qed.

Lemma get_uint_Some (k : nat) (buf rest : list byte) (v : Z) :
  mu.get_uint k buf = Some (v, rest) ->
  exists bs, buf = bs ++ rest /\ len bs = Z.of_nat k /\ 0 <= v < 256 ^ Z.of_nat k.
Proof.
  unfold mu.get_uint. destruct (mu.readFull (Z.of_nat k) buf) as [[bs r]|] eqn:Hr; [|discriminate].
  intros Heq. assert (v = mu.get_be bs /\ rest = r) as [-> ->] by (split; congruence).
  apply readFull_Some in Hr as [-> Hlen]. exists bs. split; [reflexivity|]. split; [exact Hlen|].
  rewrite <- Hlen. apply get_be_range.
Qed.

Lemma get_sized_Some (buf b rest : list byte) :
  mu.get_sized buf = Some (b, rest) -> rest `suffix_of` buf /\ len b <= 65535.
Proof.
  unfold mu.get_sized. destruct (mu.get_uint 2 buf) as [[sz r]|] eqn:Hu; [|discriminate].
  apply get_uint_Some in Hu as (bs & -> & _ & Hsz).
  intros [-> Hlen]%readFull_Some. split.
  - exists (bs ++ b). now rewrite <- app_assoc.
  - change (256 ^ Z.of_nat 2) with 65536 in Hsz. lia.
Qed.

Lemma lreadFull_Some (n : Z) (r r' : mu.LimitedReader) (x : list byte) :
  mu.lreadFull n r = Some (x, r') -> mu.R r = x ++ mu.R r' /\ len x = n.
Proof.
  unfold mu.lreadFull. destruct (n <=? mu.N r); [|discriminate].
  destruct (mu.readFull n (mu.R r)) as [[bs rest]|] eqn:Hr; [|discriminate].
  intros Heq. assert (x = bs /\ r' = mu.mkLimited rest (mu.N r - n)) as [-> ->]
    by (split; congruence).
  now apply readFull_Some in Hr.
Qed.

Lemma lget_uint_Some (k : nat) (r r' : mu.LimitedReader) (v : Z) :
  mu.lget_uint k r = Some (v, r') ->
  mu.R r' `suffix_of` mu.R r /\ 0 <= v < 256 ^ Z.of_nat k.
Proof.
  unfold mu.lget_uint. destruct (mu.lreadFull (Z.of_nat k) r) as [[bs r1]|] eqn:Hr; [|discriminate].
  intros Heq. assert (v = mu.get_be bs /\ r' = r1) as [-> ->] by (split; congruence).
  apply lreadFull_Some in Hr as [Hr Hlen]. split.
  - exists bs. exact Hr.
  - rewrite <- Hlen. apply get_be_range.
Qed.

Lemma lget_sized_Some (r r' : mu.LimitedReader) (b : list byte) :
  mu.lget_sized r = Some (b, r') -> mu.R r' `suffix_of` mu.R r /\ len b <= 65535.
Proof.
  unfold mu.lget_sized. destruct (mu.lget_uint 2 r) as [[sz r1]|] eqn:Hu; [|discriminate].
  apply lget_uint_Some in Hu as [Hs Hsz].
  intros [Hr Hlen]%lreadFull_Some. split.
  - etransitivity; [|exact Hs]. exists b. exact Hr.
  - change (256 ^ Z.of_nat 2) with 65536 in Hsz. lia.
Qed.

Lemma unmarshalAuthCommand_Some (r r' : mu.LimitedReader) (a : AuthCommand) :
  unmarshalAuthCommand r = Some (a, r') ->
  mu.R r' `suffix_of` mu.R r /\ wfAuthCommand a = true.
Proof.
  unfold unmarshalAuthCommand.
  destruct (mu.lget_uint 4 r) as [[h r1]|] eqn:H1; [|discriminate].
  destruct (mu.lget_sized r1) as [[n r2]|] eqn:H2; [|discriminate].
  destruct (mu.lget_uint 1 r2) as [[at' r3]|] eqn:H3; [|discriminate].
  destruct (mu.lget_sized r3) as [[m r4]|] eqn:H4; [|discriminate].
  intros Heq. assert (a = mkAuthCommand h n at' m /\ r' = r4) as [-> ->] by (split; congruence).
  apply lget_uint_Some in H1 as [S1 R1]. apply lget_sized_Some in H2 as [S2 R2].
  apply lget_uint_Some in H3 as [S3 R3]. apply lget_sized_Some in H4 as [S4 R4].
  split.
  - etransitivity; [exact S4|]. etransitivity; [exact S3|]. etransitivity; eassumption.
  - unfold wfAuthCommand. cbn [SessionHandle cSessionAttributes cNonce cHMAC].
    change (256 ^ Z.of_nat 4) with (2 ^ 32) in R1. change (256 ^ Z.of_nat 1) with (2 ^ 8) in R3.
    rewrite !andb_true_iff, !Z.leb_le, !Z.ltb_lt. lia.
Qed.

Lemma readCommandAuthArea_Ok (slots : nat) :
  forall (r r' : mu.LimitedReader) (acc area : list AuthCommand),
    readCommandAuthArea slots r acc = Ok (area, r') ->
    Forall (fun a => wfAuthCommand a = true) acc ->
    (length area <= length acc + slots)%nat
    /\ mu.R r' `suffix_of` mu.R r
    /\ Forall (fun a => wfAuthCommand a = true) area.
Proof.
  induction slots as [|k IH]; intros r r' acc area; cbn [readCommandAuthArea].
  all: destruct (0 <? mu.N r).
  all: try discriminate.
  all: try (intros Heq Hacc; assert (area = acc /\ r' = r) as [-> ->] by (split; congruence);
            split; [lia|]; split; [reflexivity|exact Hacc]).
  destruct (unmarshalAuthCommand r) as [[a r1]|] eqn:Ha; [|discriminate].
  apply unmarshalAuthCommand_Some in Ha as [Hs Hwf].
  intros Hrun Hacc. apply IH in Hrun as (Hlen & Hsuf & Hall).
  - rewrite length_app in Hlen. cbn [length] in Hlen. split; [lia|].
    split; [etransitivity; eassumption|exact Hall].
  - apply Forall_app. split; [exact Hacc|]. now constructor.
Qed.

(** [GetCommandCode] reads back the command code (as a 32-bit value)
    of every packet that [MarshalCommandPacket] builds. *)
Theorem GetCommandCode_MarshalCommandPacket (command : CommandCode) (handles : list byte)
    (authArea : list AuthCommand) (parameters : list byte) (p : CommandPacket) :
  MarshalCommandPacket command handles authArea parameters = Ok p ->
  GetCommandCode p = Ok (uint32 command).
Proof.
  unfold MarshalCommandPacket, GetCommandCode.
  destruct (0 <? len authArea).
  - destruct (marshalAuthArea authArea) as [aBytes|]; [|discriminate].
    intros Heq.
    assert (p = marshalCommandHeader
                  (mkCommandHeader TagSessions
                     (uint32 (headerSize + len (handles ++ mu.put_be 4 (uint32 (len aBytes))
                                                 ++ aBytes ++ parameters))) command)
                ++ handles ++ mu.put_be 4 (uint32 (len aBytes)) ++ aBytes ++ parameters)
      as -> by congruence.
    rewrite unmarshal_marshal_CommandHeader;
      [reflexivity|cbv; split; congruence|apply uint32_range].
  - intros Heq.
    assert (p = marshalCommandHeader
                  (mkCommandHeader TagNoSessions
                     (uint32 (headerSize + len (handles ++ parameters))) command)
                ++ handles ++ parameters) as -> by congruence.
    rewrite unmarshal_marshal_CommandHeader;
      [reflexivity|cbv; split; congruence|apply uint32_range].
Qed.

Lemma GetCommandCode_MarshalCommandPacket_witness :
  exists p,
    MarshalCommandPacket CommandUnseal (marshalHandleList [0x80000001]) authAreaExample [] = Ok p
    /\ GetCommandCode p = Ok CommandUnseal.
Proof.
  eexists. split; [vm_compute; reflexivity|].
  apply (GetCommandCode_MarshalCommandPacket CommandUnseal (marshalHandleList [0x80000001])
           authAreaExample []).
  vm_compute. reflexivity.
Defined.

(** What [UnmarshalPayload] hands back is well formed.  For a number
    of handles whose byte count [4 * numHandles] does not overflow an
    [int]: the handle block has [4 * numHandles] bytes, there are at
    most three auth entries, each of which fits its wire type (so it
    can be marshalled again), and the parameters are the tail of the
    packet. *)
Theorem UnmarshalPayload_shape (p : CommandPacket) (numHandles : Z)
    (handles : list byte) (authArea : list AuthCommand) (parameters : list byte) :
  intRange (numHandles * handleSize) ->
  UnmarshalPayload p numHandles = Ok (handles, authArea, parameters) ->
  len handles = numHandles * handleSize
  /\ (length authArea <= 3)%nat
  /\ Forall (fun a => wfAuthCommand a = true) authArea
  /\ parameters `suffix_of` p.
Proof.
  intros _. unfold UnmarshalPayload.
  destruct (unmarshalCommandHeader p) as [[header buf]|] eqn:Hh; [|discriminate].
  assert (Hbuf : buf `suffix_of` p).
  { unfold unmarshalCommandHeader in Hh.
    destruct (mu.get_uint 2 p) as [[tag b1]|] eqn:H1; [|discriminate].
    destruct (mu.get_uint 4 b1) as [[sz b2]|] eqn:H2; [|discriminate].
    destruct (mu.get_uint 4 b2) as [[code b3]|] eqn:H3; [|discriminate].
    assert (buf = b3) as -> by congruence.
    apply get_uint_Some in H1 as (x1 & -> & _). apply get_uint_Some in H2 as (x2 & -> & _).
    apply get_uint_Some in H3 as (x3 & -> & _).
    exists (x1 ++ x2 ++ x3). now rewrite <- !app_assoc. }
  destruct (negb (CommandSize header =? uint32 (len p))); [discriminate|].
  destruct (numHandles * handleSize <? 0); [discriminate|].
  destruct (mu.readFull (numHandles * handleSize) buf) as [[hs buf1]|] eqn:Hr; [|discriminate].
  apply readFull_Some in Hr as [-> Hlen].
  assert (Hbuf1 : buf1 `suffix_of` p) by (etransitivity; [|exact Hbuf]; now exists hs).
  destruct (cmdTag header =? TagSessions).
  - destruct (mu.get_uint 4 buf1) as [[authSize buf2]|] eqn:Hu; [|discriminate].
    apply get_uint_Some in Hu as (x & -> & _).
    destruct (readCommandAuthArea 3 (mu.mkLimited buf2 authSize) []) as [[area r]|e|] eqn:Ha;
      try discriminate.
    apply readCommandAuthArea_Ok in Ha as (Hn & Hs & Hwf); [|constructor].
    intros Heq.
    assert (handles = hs /\ authArea = area /\ parameters = mu.R r) as (-> & -> & ->)
      by (repeat split; congruence).
    repeat split; try assumption.
    etransitivity; [exact Hs|]. etransitivity; [|exact Hbuf1]. now exists x.
  - destruct (cmdTag header =? TagNoSessions); [|discriminate].
    intros Heq.
    assert (handles = hs /\ authArea = [] /\ parameters = buf1) as (-> & -> & ->)
      by (repeat split; congruence).
    repeat split; try assumption; [cbn; lia|constructor].
Qed.

Lemma UnmarshalPayload_shape_witness :
  len (DecodeHexString "4000000780000000") = 2 * handleSize
  /\ (length (@nil AuthCommand) <= 3)%nat
  /\ Forall (fun a => wfAuthCommand a = true) []
  /\ DecodeHexString
       "00204355a46b19d348dc2f57c046f8ef63d4538ebb936000f3c9ee954a27460dd8650000000010000b"
     `suffix_of`
     DecodeHexString
       "80010000003b00000176400000078000000000204355a46b19d348dc2f57c046f8ef63d4538ebb936000f3c9ee954a27460dd8650000000010000b".
Proof.
  apply (UnmarshalPayload_shape _ 2 (DecodeHexString "4000000780000000") []).
  - unfold intRange, handleSize. lia.
  - vm_compute. reflexivity.
Defined.

(** The loop over the auth area stops at a fourth entry: with more
    entries than slots it reports the bytes that are left. *)
Lemma readCommandAuthArea_overflow (authArea : list AuthCommand) :
  forall (slots : nat) (aBytes rest : list byte) (acc : list AuthCommand),
    Forall (fun a => wfAuthCommand a = true) authArea ->
    marshalAuthArea authArea = Some aBytes ->
    (slots < length authArea)%nat ->
    exists tail,
      marshalAuthArea (drop slots authArea) = Some tail
      /\ readCommandAuthArea slots (mu.mkLimited (aBytes ++ rest) (len aBytes)) acc
         = Err (ErrAuthAreaTrailing (len tail)).
Proof.
  induction authArea as [|a l IH]; intros slots aBytes rest acc Hwf Hm Hs; [cbn in Hs; lia|].
  pose proof Hm as Hm'. cbn [marshalAuthArea] in Hm.
  destruct (marshalAuthCommand a) as [bs|] eqn:Ha; [|discriminate].
  destruct (marshalAuthArea l) as [bl|] eqn:Hl; [|discriminate].
  assert (aBytes = bs ++ bl) as -> by congruence. clear Hm.
  pose proof (marshalAuthCommand_len _ _ Ha) as Hlen.
  pose proof (len_nonneg bl) as Hbl.
  apply Forall_cons in Hwf as [Hwa Hwl].
  destruct slots as [|k].
  - exists (bs ++ bl). split; [exact Hm'|].
    cbn [readCommandAuthArea mu.N].
    replace (0 <? len (bs ++ bl)) with true
      by (symmetry; apply Z.ltb_lt; rewrite len_app; lia).
    reflexivity.
  - destruct (IH k bl rest (acc ++ [a]) Hwl eq_refl ltac:(cbn in Hs; lia)) as (tail & Ht & Hrun).
    exists tail. split; [exact Ht|].
    cbn [readCommandAuthArea mu.N].
    replace (0 <? len (bs ++ bl)) with true
      by (symmetry; apply Z.ltb_lt; rewrite len_app; lia).
    rewrite <- app_assoc.
    rewrite (unmarshal_marshal_AuthCommand a bs (bl ++ rest) _ Hwa Ha)
      by (rewrite len_app; lia).
    replace (len (bs ++ bl) - len bs) with (len bl) by (rewrite len_app; lia).
    exact Hrun.
Qed.

(** The codec is not symmetric beyond three sessions:
    [MarshalCommandPacket] builds a packet for an auth area of four or
    more well-formed entries (as long as its size fits 32 bits), but
    [UnmarshalPayload] refuses that packet, reporting as trailing the
    bytes of the entries after the third. *)
Theorem UnmarshalPayload_more_than_three_auths
    (command : CommandCode) (handles : list byte) (authArea : list AuthCommand)
    (parameters aBytes : list byte) (numHandles : Z) :
  len handles = numHandles * handleSize ->
  Forall (fun a => wfAuthCommand a = true) authArea ->
  (3 < length authArea)%nat ->
  marshalAuthArea authArea = Some aBytes ->
  len aBytes < 2 ^ 32 ->
  exists p tail,
    MarshalCommandPacket command handles authArea parameters = Ok p
    /\ marshalAuthArea (drop 3 authArea) = Some tail
    /\ UnmarshalPayload p numHandles = Err (ErrAuthAreaTrailing (len tail)).
Proof.
  intros Hh Hwf H3 Ha Hsize.
  pose proof (len_nonneg handles) as Hhn. pose proof (len_nonneg aBytes) as Han.
  destruct (readCommandAuthArea_overflow authArea 3 aBytes parameters [] Hwf Ha H3)
    as (tail & Htail & Hrun).
  unfold MarshalCommandPacket. rewrite Ha.
  replace (0 <? len authArea) with true
    by (symmetry; apply Z.ltb_lt; unfold len; lia).
  eexists. exists tail. split; [reflexivity|]. split; [exact Htail|].
  unfold UnmarshalPayload.
  rewrite unmarshal_marshal_CommandHeader; [|cbv; split; congruence|apply uint32_range].
  cbn [CommandSize cmdTag].
  rewrite (len_app (marshalCommandHeader _)), len_marshalCommandHeader, Z.eqb_refl.
  cbn [negb].
  replace (numHandles * handleSize <? 0) with false by (symmetry; apply Z.ltb_ge; lia).
  rewrite <- Hh, readFull_app. change (TagSessions =? TagSessions) with true. cbv iota.
  rewrite get_uint_put_be.
  unfold uint32, wrap. rewrite (Z.mod_small (len aBytes)) by lia.
  rewrite Z.mod_small by (simpl Z.of_nat; lia).
  now rewrite Hrun.
Qed.

Lemma UnmarshalPayload_more_than_three_auths_witness :
  exists p tail,
    MarshalCommandPacket CommandUnseal (marshalHandleList [0x80000001])
      (authAreaExample ++ authAreaExample) [] = Ok p
    /\ marshalAuthArea (drop 3 (authAreaExample ++ authAreaExample)) = Some tail
    /\ UnmarshalPayload p 1 = Err (ErrAuthAreaTrailing (len tail)).
Proof.
  destruct (marshalAuthArea (authAreaExample ++ authAreaExample)) as [aBytes|] eqn:Ha;
    [|vm_compute in Ha; discriminate].
  apply (UnmarshalPayload_more_than_three_auths CommandUnseal (marshalHandleList [0x80000001])
           (authAreaExample ++ authAreaExample) [] aBytes 1).
  - reflexivity.
  - repeat constructor.
  - simpl. lia.
  - exact Ha.
  - vm_compute in Ha. injection Ha as <-. reflexivity.
Defined.

(** A response that [Unmarshal] returns without an error has at most
    [maxResponseSize] bytes.  If it is a success, then, for a number
    of handles whose byte count [4 * numHandles] does not overflow an
    [int], the handle block has [4 * numHandles] bytes and there are
    at most three auth responses; if it carries another response
    code, the packet is the bare ten-byte header and nothing else is
    returned. *)
Theorem Unmarshal_shape (p : ResponsePacket) (numHandles : Z) (u : unmarshalled) :
  intRange (numHandles * handleSize) ->
  Unmarshal p numHandles = Ok u ->
  u_err u = None ->
  len p <= maxResponseSize
  /\ (u_rc u = Success ->
      len (u_handles u) = numHandles * handleSize /\ (length (u_authArea u) <= 3)%nat)
  /\ (u_rc u <> Success ->
      len p = headerSize /\ u_handles u = [] /\ u_parameters u = [] /\ u_authArea u = []).
Proof.
  intros _. unfold Unmarshal.
  destruct (maxResponseSize <? len p) eqn:Hmax; [intros [= <-]; discriminate|].
  apply Z.ltb_ge in Hmax.
  destruct (unmarshalResponseHeader p) as [[header buf]|] eqn:Hh; [|intros [= <-]; discriminate].
  assert (Hp : len p = headerSize + len buf).
  { unfold unmarshalResponseHeader in Hh.
    destruct (mu.get_uint 2 p) as [[tag b1]|] eqn:H1; [|discriminate].
    destruct (mu.get_uint 4 b1) as [[sz b2]|] eqn:H2; [|discriminate].
    destruct (mu.get_uint 4 b2) as [[code b3]|] eqn:H3; [|discriminate].
    assert (buf = b3) as -> by congruence.
    apply get_uint_Some in H1 as (x1 & -> & L1 & _).
    apply get_uint_Some in H2 as (x2 & -> & L2 & _).
    apply get_uint_Some in H3 as (x3 & -> & L3 & _).
    rewrite !len_app, L1, L2, L3. unfold headerSize. lia. }
  destruct (negb (ResponseSize header =? uint32 (len p))); [intros [= <-]; discriminate|].
  destruct (rspCode header =? Success) eqn:Hrc; cbn [negb].
  - apply Z.eqb_eq in Hrc.
    destruct (numHandles * handleSize <? 0); [discriminate|].
    destruct (mu.readFull (numHandles * handleSize) buf) as [[hs buf1]|] eqn:Hr;
      [|intros [= <-]; discriminate].
    apply readFull_Some in Hr as [-> Hlen].
    destruct (rspTag header =? TagSessions).
    + destruct (mu.get_uint 4 buf1) as [[psz buf2]|]; [|intros [= <-]; discriminate].
      destruct (mu.readFull psz buf2) as [[params buf3]|]; [|intros [= <-]; discriminate].
      destruct (readResponseAuthArea 3 buf3 []) as [area|e|] eqn:Ha;
        [|intros [= <-]; discriminate|discriminate].
      intros [= <-] _. cbn. split; [exact Hmax|]. split; [|congruence].
      intros _. split; [exact Hlen|].
      assert (Hgen : forall slots b acc area',
                 readResponseAuthArea slots b acc = Ok area' ->
                 (length area' <= length acc + slots)%nat).
      { clear. induction slots as [|k IH]; intros b acc area'; cbn [readResponseAuthArea];
          destruct (0 <? len b); try discriminate; try (intros [= <-]; lia).
        destruct (unmarshalAuthResponse b) as [[a b']|]; [|discriminate].
        intros Hrun%IH. rewrite length_app in Hrun. cbn [length] in Hrun. lia. }
      apply Hgen in Ha. cbn in Ha. lia.
    + destruct (rspTag header =? TagNoSessions); [|intros [= <-]; discriminate].
      intros [= <-] _. cbn. split; [exact Hmax|]. split; [|congruence].
      intros _. split; [exact Hlen|lia].
  - apply Z.eqb_neq in Hrc.
    destruct (len buf =? 0) eqn:Hb; cbn [negb]; [|intros [= <-]; discriminate].
    apply Z.eqb_eq in Hb.
    intros [= <-] _. cbn. split; [exact Hmax|]. split; [intros; congruence|].
    intros _. repeat split. lia.
Qed.

Lemma Unmarshal_shape_witness :
  len (DecodeHexString "80010000000e0000000080000002") <= maxResponseSize
  /\ len (DecodeHexString "80000002") = 1 * handleSize.
Proof.
  destruct (Unmarshal_shape (DecodeHexString "80010000000e0000000080000002") 1
              (mkUnmarshalled Success (DecodeHexString "80000002") [] [] None))
    as (Hmax & Hok & _).
  - unfold intRange, handleSize. lia.
  - vm_compute. reflexivity.
  - reflexivity.
  - split; [exact Hmax|]. exact (proj1 (Hok eq_refl)).
Defined.

(** ** tpm.go: the read/write-multiple helper *)


Lemma copyAt_app (pre suf tmp : list byte) (off : Z) :
  length pre = Z.to_nat off ->
  (length tmp <= length suf)%nat ->
  copyAt (pre ++ suf) off tmp = pre ++ tmp ++ drop (length tmp) suf.
Proof.
  intros Hpre Htmp. unfold copyAt. rewrite <- Hpre.
  rewrite take_app_length, length_app.
  replace (Nat.min (length pre + length suf - length pre) (length tmp)) with (length tmp) by lia.
  now rewrite take_ge, drop_app_add by lia.
Qed.





Section ReadContents.

Context (contents : list byte) (sessions : list SessionContext).
Context (m : Z) (Hm : 0 < m <= 65535).

(** The loop on a stored value: what has been read so far is the
    beginning of the value, and the loop ends with all of it. *)
Lemma execLoop_readFrom (fuel : nat) :
  forall (rem off : Z) (suf : list byte),
    0 <= rem -> 0 <= off -> off + rem <= 65535 -> off + rem <= len contents ->
    rem <= Z.of_nat fuel -> len suf = rem ->
    exists c',
      execLoop fuel (readAction (readFrom contents)) false (map withContinue sessions) sessions
               (mkReadCtx (take (Z.to_nat off) contents ++ suf) m rem off, tt)
      = Some ((c', tt), None)
      /\ data c' = take (Z.to_nat (off + rem)) contents.
Proof.
  assert (Hstep : forall (off sz : Z) (suf : list byte) (ss : list SessionContext),
    0 <= off -> 0 <= sz -> off + sz <= len contents -> sz <= len suf ->
    copyAt (take (Z.to_nat off) contents ++ suf) off
           (take (Z.to_nat sz) (drop (Z.to_nat off) contents))
    = take (Z.to_nat (off + sz)) contents ++ drop (Z.to_nat sz) suf).
  { intros off sz suf ss Hoff Hsz Hlen Hsuf. unfold len in *.
    assert (Hl : length (take (Z.to_nat sz) (drop (Z.to_nat off) contents)) = Z.to_nat sz)
      by (rewrite length_take, length_drop; lia).
    rewrite copyAt_app by (rewrite ?length_take, ?Hl; lia).
    rewrite Hl, app_assoc, take_take_drop. f_equal. f_equal. lia. }
  induction fuel as [|k IH]; intros rem off suf Hrem Hoff Hsum Hlen Hfuel Hsuf.
  all: destruct (Z_le_gt_dec rem m) as [Hle|Hgt].
  1,3: (rewrite execLoop_last
          by (cbn [readAction last fst]; unfold readLast; cbn; now apply Z.leb_le);
        cbn [readAction run]; unfold readRun, readFrom; cbn [maxSize remaining total data];
        (replace (m <? rem) with false by (symmetry; apply Z.ltb_ge; lia));
        eexists; split; [reflexivity|]; cbn [data];
        rewrite (Hstep off rem suf sessions) by lia;
        rewrite drop_ge by (unfold len in Hsuf; lia); now rewrite app_nil_r).
  - cbn in Hfuel. lia.
  - rewrite execLoop_more
      by (cbn [readAction last fst]; unfold readLast; cbn; apply Z.leb_gt; lia).
    cbn [readAction run]. unfold readRun at 1, readFrom at 1.
    cbn [maxSize remaining total data].
    replace (m <? rem) with true by (symmetry; apply Z.ltb_lt; lia).
    rewrite (Hstep off m suf (map withContinue sessions)) by lia.
    rewrite (uint16_small (rem - m)), (uint16_small (off + m)) by lia.
    destruct (IH (rem - m) (off + m) (drop (Z.to_nat m) suf)) as (c' & Hrun & Hdata); try lia.
    { unfold len in *. rewrite length_drop. lia. }
    exists c'. split; [exact Hrun|]. rewrite Hdata. f_equal. lia.
Qed.

End ReadContents.

(** Reading a stored value in chunks gives the value: when every
    command returns the [sz] bytes at its offset, a read-multiple
    operation of [size] bytes with usable sessions and no policy
    session returns the first [size] bytes of the value, for every
    positive chunk size. *)
Theorem readMultipleHelper_reassembles (contents : list byte) (h : heap)
    (sessions : list SessionContext) (size maxSize : Z) :
  0 < maxSize <= 65535 ->
  0 <= size <= 65535 ->
  size <= len contents ->
  forallb (usable h) sessions = true ->
  existsb (isPolicy h) sessions = false ->
  readMultipleHelper size maxSize (readFrom contents) h sessions tt
  = Some (tt, Ok (take (Z.to_nat size) contents)).
Proof.
  intros Hm Hs Hlen Hu Hp. unfold readMultipleHelper, execMultipleHelper.
  rewrite (prepareSessions_usable h sessions Hu), Hp.
  destruct (execLoop_readFrom contents sessions maxSize Hm (Z.to_nat size) size 0
              (replicate (Z.to_nat size) Byte.x00)) as (c' & Hrun & Hdata); try lia.
  { unfold len. rewrite length_replicate. lia. }
  change (take (Z.to_nat 0) contents ++ replicate (Z.to_nat size) Byte.x00)
    with (replicate (Z.to_nat size) Byte.x00) in Hrun.
  rewrite Hrun, Hdata. reflexivity.
Qed.

Lemma readMultipleHelper_reassembles_witness :
  readMultipleHelper 26 4 (readFrom (list_byte_of_string "abcdefghijklmnopqrstuvwxyz0123"))
                     twoSessions [Some hmacSession; None] tt
  = Some (tt, Ok (list_byte_of_string "abcdefghijklmnopqrstuvwxyz")).
Proof.
  apply (readMultipleHelper_reassembles (list_byte_of_string "abcdefghijklmnopqrstuvwxyz0123")
           twoSessions [Some hmacSession; None] 26 4).
  - lia.
  - lia.
  - vm_compute. discriminate.
  - reflexivity.
  - reflexivity.
Defined.

(** A session context without session data stops the helper before
    anything is run: it returns "unusable session context" whatever
    the action is and wherever the session stands in the list. *)
Theorem execMultipleHelper_unusable_session {S E : Type} (fuel : nat)
    (action : execMultipleHelperAction S E) (h : heap) (sessions : list SessionContext)
    (s : sessionContext) (st : S) :
  In (Some s) sessions ->
  Data h s = None ->
  execMultipleHelper fuel action h sessions st = Some (st, Some ErrUnusableSessionContext).
Proof.
  intros Hin Hdata. unfold execMultipleHelper.
  rewrite prepareSessions_unusable; [reflexivity|].
  apply not_true_is_false. intros Hall.
  rewrite forallb_forall in Hall. specialize (Hall _ Hin).
  unfold usable in Hall. rewrite Hdata in Hall. discriminate.
Qed.

Lemma execMultipleHelper_unusable_session_witness :
  execMultipleHelper 5 (readAction (logging zeroFill)) twoSessions
    [Some hmacSession; Some flushedSession] (mkReadCtx [] 1024 10 0, ([], tt))
  = Some ((mkReadCtx [] 1024 10 0, ([], tt)), Some ErrUnusableSessionContext).
Proof.
  apply (execMultipleHelper_unusable_session 5 (readAction (logging zeroFill)) twoSessions
           [Some hmacSession; Some flushedSession] flushedSession).
  - right. left. reflexivity.
  - reflexivity.
Defined.

(** ** tpm.go: completing a response *)

(** Processing the auth area of a response is latched: a second call
    for the same response returns what the first one returned and
    leaves everything as it is. *)
Lemma processResponseAuth_again {X : Type} (P : authProcessor X) (e e' : execContext X)
    (r : loc) (err : option (dispatchError X)) :
  processResponseAuth P e r = Ok (e', err) ->
  processResponseAuth P e' r = Ok (e', err)
  /\ (forall rsp, responses e !! r = Some rsp ->
        exists rsp', responses e' !! r = Some rsp'
                     /\ RpBytes rsp' = RpBytes rsp /\ rCommandCode rsp' = rCommandCode rsp).
Proof.
  unfold processResponseAuth at 1.
  destruct (responses e !! r) as [rsp|] eqn:Hr; [|discriminate].
  destruct (bool_decide (Some r = pendingResponse e)) eqn:Hp; cbn [negb].
  - destruct (if isSessionAllowed (rCommandCode rsp) then _ else _) as [h1 last1].
    destruct (P _ _ _ h1) as [h2 [x|]].
    + intros [= <- <-]. split.
      * unfold processResponseAuth. cbn [responses pendingResponse].
        rewrite lookup_insert_eq. rewrite bool_decide_eq_false_2 by discriminate.
        reflexivity.
      * intros rsp0 [= <-]. cbn [responses]. rewrite lookup_insert_eq. eauto.
    + intros [= <- <-]. split.
      * unfold processResponseAuth. cbn [responses pendingResponse].
        rewrite lookup_insert_eq. rewrite bool_decide_eq_false_2 by discriminate.
        reflexivity.
      * intros rsp0 [= <-]. cbn [responses]. rewrite lookup_insert_eq. eauto.
  - intros [= <- <-]. split.
    + unfold processResponseAuth. rewrite Hr, Hp. reflexivity.
    + intros rsp0 [= <-]. exists rsp. rewrite Hr. eauto.
Qed.

(** Completing a response can be repeated: a second
    [CompleteResponse] for the same response returns the same values
    or the same error and changes nothing, so the response auth area
    is processed once only. *)
Theorem CompleteResponse_repeatable {X V : Type} (P : authProcessor X)
    (decode : list byte -> option (V * list byte)) (e e' : execContext X) (r : loc)
    (res : result (completeError X) V) :
  CompleteResponse P decode e r = Ok (e', res) ->
  CompleteResponse P decode e' r = Ok (e', res).
Proof.
  unfold CompleteResponse.
  destruct (processResponseAuth P e r) as [[e1 err]|[]|] eqn:Hfirst; [|discriminate].
  destruct (processResponseAuth_again P e e1 r err Hfirst) as [Hagain _].
  destruct err as [x|].
  - intros [= <- <-]. now rewrite Hagain.
  - destruct (responses e1 !! r) as [rsp|] eqn:Hr; [|discriminate].
    destruct (decode (RpBytes rsp)) as [[v rest]|] eqn:Hd.
    + destruct (0 <? len rest) eqn:Hrest; intros [= <- <-];
        now rewrite Hagain, Hr, Hd, Hrest.
    + intros [= <- <-]. now rewrite Hagain, Hr, Hd.
Qed.

Lemma CompleteResponse_repeatable_witness :
  exists e',
    CompleteResponse acceptAll decodeUint16 pendingWithParams 7%positive = Ok (e', Ok 0x1234)
    /\ CompleteResponse acceptAll decodeUint16 e' 7%positive = Ok (e', Ok 0x1234).
Proof.
  eexists. split; [vm_compute; reflexivity|].
  apply (CompleteResponse_repeatable acceptAll decodeUint16 pendingWithParams).
  vm_compute. reflexivity.
Defined.

(** ** tpm.go: more on [TPMContext.RunCommand] *)

Section RunCommandMore.

Context {T X : Type} (env : dispatcherEnv T X).
Context (maxSubmissions : Z) (commandCode : CommandCode).
Context (cmd : CommandPacket) (nAuth : Z) (rHandle : bool).

Lemma runLoop_success_count (fuel : nat) :
  forall (tries : Z) (t : T) (log : list (submission X)) (out : runOutcome T X)
         (rpBytes : list byte) (rAuthArea : list AuthResponse),
    runLoop env maxSubmissions commandCode cmd nAuth rHandle fuel tries t log = Some out ->
    returned out = Ok (rpBytes, rAuthArea) ->
    len rAuthArea = nAuth
    /\ exists pre rc, submissions out = pre ++ [SubDecoded rc None].
Proof.
  induction fuel as [|k IH]; intros tries t log out rpBytes rAuthArea; cbn [runLoop].
  all: destruct (RunCommandBytes env t cmd) as [t1 [resp|err|]];
       try (intros [= <-]; discriminate).
  all: destruct (unmarshalResponse env resp rHandle) as [[[rc rp] ra] [uerr|]];
       try (intros [= <-]; discriminate).
  all: destruct (DecodeResponseCode env commandCode rc) as [err|].
  all: try (destruct (len ra =? nAuth) eqn:Hn; cbn [negb];
            [|intros [= <-]; discriminate];
            intros [= <-] [= _ <-]; cbn [submissions];
            split; [now apply Z.eqb_eq|eauto]).
  all: destruct (maxSubmissions <=? tries); [intros [= <-]; discriminate|].
  all: destruct (retryWarning env err commandCode); cbn [negb];
       [|intros [= <-]; discriminate].
  - discriminate.
  - apply IH.
Qed.

Lemma runLoop_always_retry (Hbusy : alwaysRetry env commandCode rHandle) (fuel : nat) :
  forall (tries : Z) (t : T) (log : list (submission X)),
    maxSubmissions - tries <= Z.of_nat fuel ->
    len log = tries - 1 ->
    exists out err,
      runLoop env maxSubmissions commandCode cmd nAuth rHandle fuel tries t log = Some out
      /\ len (submissions out) = Z.max tries maxSubmissions
      /\ returned out = Err (TPMResponseError err)
      /\ retryWarning env err commandCode = true.
Proof.
  induction fuel as [|k IH]; intros tries t log Hfuel Hlen.
  all: destruct (Hbusy t cmd) as (t' & resp & rc & rp & ra & err & Hrun & Hun & Hdec & Hretry).
  all: cbn [runLoop]; rewrite Hrun, Hun, Hdec, Hretry; cbn [negb].
  all: destruct (maxSubmissions <=? tries) eqn:Hmax.
  all: try (apply Z.leb_le in Hmax; exists (mkRunOutcome t' (log ++ [SubDecoded rc (Some err)])
                                            (Err (TPMResponseError err))), err;
            split; [reflexivity|]; cbn [submissions returned];
            split; [rewrite len_app; unfold len at 2; cbn [length]; lia|];
            split; [reflexivity|exact Hretry]).
  - apply Z.leb_gt in Hmax. cbn in Hfuel. lia.
  - apply Z.leb_gt in Hmax.
    destruct (IH (tries + 1) t' (log ++ [SubDecoded rc (Some err)])) as (out & err' & H1 & H2 & H3).
    + lia.
    + rewrite len_app. unfold len at 2. cbn [length]. lia.
    + exists out, err'. split; [exact H1|]. split; [lia|exact H3].
Qed.

End RunCommandMore.

(** When [RunCommand] returns response parameters, the response
    carried as many auth responses as the command had auth commands,
    and it was the last response that was read: a success is never
    followed by another submission. *)
Theorem RunCommand_success {T X : Type} (env : dispatcherEnv T X) (maxSubmissions : Z) (t : T)
    (commandCode : CommandCode) (cHandles : HandleList) (cAuthArea : list AuthCommand)
    (cpBytes : list byte) (rHandle : bool) (out : runOutcome T X)
    (rpBytes : list byte) (rAuthArea : list AuthResponse) :
  RunCommand env maxSubmissions t commandCode cHandles cAuthArea cpBytes rHandle = Some out ->
  returned out = Ok (rpBytes, rAuthArea) ->
  len rAuthArea = len cAuthArea
  /\ exists pre rc, submissions out = pre ++ [SubDecoded rc None].
Proof.
  unfold RunCommand.
  destruct (MarshalCommandPacket commandCode (marshalHandleList cHandles) cAuthArea cpBytes)
    as [cmd|e|]; try (intros [= <-]; discriminate).
  apply runLoop_success_count.
Qed.

Lemma RunCommand_success_witness :
  len (@nil AuthResponse) = len (@nil AuthCommand)
  /\ exists pre rc,
       [SubDecoded 0x922 (Some 0x922); SubDecoded 0 None] = pre ++ [@SubDecoded Z rc None].
Proof.
  apply (RunCommand_success playback 5 [retryResponse; successResponse] CommandGetRandom
           [] [] [] false
           (mkRunOutcome [] [SubDecoded 0x922 (Some 0x922); SubDecoded 0 None] (Ok ([], [])))
           [] []).
  - vm_compute. reflexivity.
  - reflexivity.
Defined.

(** The submission budget is used up when the TPM keeps asking for a
    retry: if every submission is answered with one of the three
    warnings, a command that can be marshalled is submitted exactly
    [max 1 maxSubmissions] times and the warning of the last response
    is returned as the error. *)
Theorem RunCommand_exhausts_submissions {T X : Type} (env : dispatcherEnv T X)
    (maxSubmissions : Z) (t : T) (commandCode : CommandCode) (cHandles : HandleList)
    (cAuthArea : list AuthCommand) (cpBytes : list byte) (rHandle : bool) :
  alwaysRetry env commandCode rHandle ->
  Forall (fun a => wfAuthCommand a = true) cAuthArea ->
  exists out err,
    RunCommand env maxSubmissions t commandCode cHandles cAuthArea cpBytes rHandle = Some out
    /\ len (submissions out) = Z.max 1 maxSubmissions
    /\ returned out = Err (TPMResponseError err)
    /\ retryWarning env err commandCode = true.
Proof.
  intros Hbusy Hwf. unfold RunCommand, MarshalCommandPacket.
  destruct (marshalAuthArea_wf cAuthArea Hwf) as (aBytes & -> & _).
  destruct (0 <? len cAuthArea);
    apply (runLoop_always_retry env maxSubmissions commandCode _ (len cAuthArea) rHandle Hbusy);
    (lia || reflexivity).
Qed.

Lemma busyTpm_alwaysRetry : alwaysRetry busyTpm CommandGetRandom false.
Proof.
  intros t cmd. exists t, retryResponse, 0x922, [], [], 0x922.
  repeat split; vm_compute; reflexivity.
Defined.

Lemma RunCommand_exhausts_submissions_witness :
  exists out err,
    RunCommand busyTpm 5 tt CommandGetRandom [] [] [] false = Some out
    /\ len (submissions out) = 5
    /\ returned out = Err (TPMResponseError err)
    /\ retryWarning busyTpm err CommandGetRandom = true.
Proof.
  apply (RunCommand_exhausts_submissions busyTpm 5 tt CommandGetRandom [] [] [] false).
  - exact busyTpm_alwaysRetry.
  - constructor.
Defined.

(** With a submission budget of at least one, [RunCommand] keeps to
    it and resubmits on the three warnings only: the call returns
    after at most [maxSubmissions] submissions, every submission but
    the last was answered with [WarningYielded], [WarningTesting] or
    [WarningRetry], and a TPM error that is not one of these is
    returned by the response that carries it, with no submission
    after it. *)
Theorem RunCommand_resubmits_on_warnings_only {T X : Type} (env : dispatcherEnv T X)
    (maxSubmissions : Z) (t : T) (commandCode : CommandCode) (cHandles : HandleList)
    (cAuthArea : list AuthCommand) (cpBytes : list byte) (rHandle : bool) :
  1 <= maxSubmissions ->
  exists out,
    RunCommand env maxSubmissions t commandCode cHandles cAuthArea cpBytes rHandle = Some out
    /\ len (submissions out) <= maxSubmissions
    /\ (forall pre s post, submissions out = pre ++ s :: post -> post <> [] ->
                           isRetry env commandCode s = true)
    /\ (forall pre rc err post,
          submissions out = pre ++ SubDecoded rc (Some err) :: post ->
          retryWarning env err commandCode = false ->
          post = [] /\ returned out = Err (TPMResponseError err)).
Proof.
  intros Hmax.
  destruct (RunCommand_retries env maxSubmissions t commandCode cHandles cAuthArea cpBytes
              rHandle) as (out & Hrun & Hcount & Hmid & Hother & _).
  exists out. split; [exact Hrun|]. split; [lia|]. split; [exact Hmid|exact Hother].
Qed.

Lemma RunCommand_resubmits_on_warnings_only_witness :
  exists out,
    RunCommand playback 5 [retryResponse; successResponse] CommandGetRandom [] [] [] false
    = Some out
    /\ len (submissions out) <= 5
    /\ (forall pre s post, submissions out = pre ++ s :: post -> post <> [] ->
                           isRetry playback CommandGetRandom s = true)
    /\ (forall pre rc err post,
          submissions out = pre ++ SubDecoded rc (Some err) :: post ->
          retryWarning playback err CommandGetRandom = false ->
          post = [] /\ returned out = Err (TPMResponseError err)).
Proof.
  apply (RunCommand_resubmits_on_warnings_only playback 5 [retryResponse; successResponse]
           CommandGetRandom [] [] [] false).
  lia.
Defined.

(** ** tpm.go: [execContext.RunCommand] *)



(** A command that cannot be built is not sent: when
    [execContext.RunCommand] fails before it reaches the dispatcher,
    the transport is untouched, the response that was pending is
    still pending and no response context has changed. *)
Theorem execRunCommand_not_built {T X P : Type} (eng : commandEngine T X P)
    (e e' : execContext X) (t t' : T) (c : cmdContext P) (responseHandle : bool)
    (err : runError X) :
  execRunCommand eng e t c responseHandle = Ok (e', t', Err err) ->
  (forall d, err <> ErrDispatch d) ->
  t' = t
  /\ pendingResponse e' = pendingResponse e
  /\ responses e' = responses e
  /\ lastExclusiveSession e' = lastExclusiveSession e.
Proof.
  unfold execRunCommand.
  destruct (appendHandles _ _ _ _ _ _ _) as [[[handles names] sp]|err0|];
    [|now intros [= <- <- <-]|discriminate].
  destruct (AppendExtraSessions eng sp _ _) as [err0|sp']; [now intros [= <- <- <-]|].
  destruct (hasDecryptSession eng sp' && _); [now intros [= <- <- <-]|].
  destruct (MarshalToBytes eng _) as [err0|cpBytes]; [now intros [= <- <- <-]|].
  destruct (BuildCommandAuthArea eng sp' _ _ _ _) as [h1 [err0|cAuthArea]];
    [now intros [= <- <- <-]|].
  destruct (match pendingResponse (withHeap e h1) with Some _ => _ | None => _ end)
    as [e2|[]|]; [|discriminate].
  destruct (dispatch eng t _ _ _ _ _) as [t1 [[rp ra]|err0|]]; try discriminate.
  intros [= <- <- <-] Hno. now destruct (Hno err0).
Qed.


Lemma execRunCommand_not_built_witness :
  exists e' t',
    execRunCommand plainEngine (pendingZ CommandStartup) [successResponse] staleSessionCmd false
    = Ok (e', t', Err (ErrHandleContext CommandUnseal 1 1))
    /\ t' = [successResponse]
    /\ pendingResponse e' = Some 7%positive.
Proof.
  do 2 eexists. split; [vm_compute; reflexivity|].
  destruct (execRunCommand_not_built plainEngine (pendingZ CommandStartup)
              (pendingZ CommandStartup) [successResponse] [successResponse] staleSessionCmd
              false (ErrHandleContext CommandUnseal 1 1)) as (Ht & Hp & _).
  - vm_compute. reflexivity.
  - discriminate.
  - split; [exact Ht|exact Hp].
Defined.

(** ** tpm.go: the properties of the TPM *)

Lemma applyProperties_ranges {X : Type} (props : list TaggedProperty) :
  forall (t t' : tpmProperties) (r : option (initError X)),
    applyProperties props t = (t', r) ->
    wfProperties t ->
    wfProperties t' /\ propertiesInitialized t' = propertiesInitialized t.
Proof.
  assert (H16 : forall z, 0 <= uint16 z <= 65535)
    by (intros z; unfold uint16, wrap; pose proof (Z.mod_pos_bound z (2 ^ 16)); lia).
  assert (H8 : forall z, 0 <= uint8 z <= 255)
    by (intros z; unfold uint8, wrap; pose proof (Z.mod_pos_bound z (2 ^ 8)); lia).
  induction props as [|prop rest IH]; intros t t' r; cbn [applyProperties].
  - intros [= <- <-]. tauto.
  - destruct ((Property prop =? PropertyInputBuffer) || (Property prop =? PropertyMaxDigest)
              || (Property prop =? PropertyNVBufferMax)).
    + destruct (65535 <? Value prop); [intros [= <- <-]; tauto|].
      intros Hrun Hwf. apply IH in Hrun.
      * destruct Hrun as [Hw ->]. split; [exact Hw|].
        destruct (Property prop =? PropertyInputBuffer);
          [|destruct (Property prop =? PropertyMaxDigest)]; reflexivity.
      * specialize (H16 (Value prop)). unfold wfProperties in *.
        destruct (Property prop =? PropertyInputBuffer);
          [|destruct (Property prop =? PropertyMaxDigest)]; cbn; lia.
    + destruct (Property prop =? PropertyPCRSelectMin); [|apply IH].
      destruct (255 <? Value prop); [intros [= <- <-]; tauto|].
      intros Hrun Hwf. apply IH in Hrun.
      * exact Hrun.
      * specialize (H8 (Value prop)). unfold wfProperties in *. cbn. lia.
Qed.

(** After a successful [InitProperties] the context is marked
    initialized and every size is positive and fits its type: the
    buffer sizes lie between 1 and 65535 and the PCR select size
    between 1 and 255.  A following [initPropertiesIfNeeded] returns
    at once, without a command to the TPM. *)
Theorem InitProperties_success {T X : Type}
    (getProperties : list SessionContext -> T -> T * (X + list TaggedProperty))
    (sessions : list SessionContext) (w w' : T) (t t' : tpmProperties) :
  wfProperties t ->
  InitProperties getProperties sessions w t = (w', t', None) ->
  propertiesInitialized t' = true
  /\ 1 <= maxBufferSize t' <= 65535
  /\ 1 <= maxDigestSize t' <= 65535
  /\ 1 <= maxNVBufferSize t' <= 65535
  /\ 1 <= minPcrSelectSize t' <= 255
  /\ forall w1, initPropertiesIfNeeded (X := X) getProperties w1 t' = (w1, t', None).
Proof.
  intros Hwf. unfold InitProperties.
  destruct (getProperties sessions w) as [w1 [err|props]]; [discriminate|].
  destruct (applyProperties props t) as [t1 [err|]] eqn:Happly; [discriminate|].
  apply applyProperties_ranges in Happly as [(Hb & Hp & Hd & Hn) _]; [|exact Hwf].
  destruct (maxBufferSize t1 =? 0) eqn:Hzero; cbn [maxDigestSize maxNVBufferSize
    minPcrSelectSize maxBufferSize].
  all: destruct (maxDigestSize t1 =? 0) eqn:Hd0; [discriminate|].
  all: destruct (maxNVBufferSize t1 =? 0) eqn:Hn0; [discriminate|].
  all: destruct (minPcrSelectSize t1 =? 0) eqn:Hp0; [discriminate|].
  all: intros [= <- <-]; cbn; unfold initPropertiesIfNeeded; cbn.
  all: apply Z.eqb_neq in Hd0, Hn0, Hp0.
  - repeat split; lia.
  - apply Z.eqb_neq in Hzero. repeat split; lia.
Qed.

Lemma InitProperties_success_witness :
  propertiesInitialized (mkTpmProperties true 1024 3 64 2048) = true
  /\ 1 <= 1024 <= 65535 /\ 1 <= 64 <= 65535 /\ 1 <= 2048 <= 65535 /\ 1 <= 3 <= 255
  /\ forall w1, initPropertiesIfNeeded (X := unit) reportingTpm w1
                  (mkTpmProperties true 1024 3 64 2048)
                = (w1, mkTpmProperties true 1024 3 64 2048, None).
Proof.
  apply (InitProperties_success (X := unit) reportingTpm [] O 1%nat newProperties
           (mkTpmProperties true 1024 3 64 2048)).
  - unfold wfProperties. cbn. lia.
  - vm_compute. reflexivity.
Defined.

Lemma applyProperties_no_input_buffer {X : Type} (props : list TaggedProperty) :
  forall (t t' : tpmProperties) (r : option (initError X)),
    applyProperties props t = (t', r) ->
    Forall (fun q => Property q <> PropertyInputBuffer) props ->
    maxBufferSize t' = maxBufferSize t.
Proof.
  induction props as [|prop rest IH]; intros t t' r; cbn [applyProperties].
  - now intros [= <- <-].
  - intros Hrun [Hq Hrest]%Forall_cons.
    apply Z.eqb_neq in Hq. rewrite Hq in Hrun. cbn [orb] in Hrun.
    destruct ((Property prop =? PropertyMaxDigest) || (Property prop =? PropertyNVBufferMax)).
    + destruct (65535 <? Value prop); [now injection Hrun as <- _|].
      apply IH in Hrun; [|exact Hrest].
      rewrite Hrun. destruct (Property prop =? PropertyMaxDigest); reflexivity.
    + destruct (Property prop =? PropertyPCRSelectMin); [|now apply IH in Hrun].
      destruct (255 <? Value prop); [now injection Hrun as <- _|].
      now apply IH in Hrun.
Qed.

(** A TPM that does not report [TPM_PT_INPUT_BUFFER] gets the default:
    after a successful [InitProperties] on a context that had no
    buffer size yet, the buffer size is 1024. *)
Theorem InitProperties_default_buffer {T X : Type}
    (getProperties : list SessionContext -> T -> T * (X + list TaggedProperty))
    (sessions : list SessionContext) (w w' : T) (t t' : tpmProperties)
    (props : list TaggedProperty) :
  maxBufferSize t = 0 ->
  getProperties sessions w = (w', inr props) ->
  Forall (fun q => Property q <> PropertyInputBuffer) props ->
  InitProperties getProperties sessions w t = (w', t', None) ->
  maxBufferSize t' = 1024.
Proof.
  intros Hzero Hget Hno. unfold InitProperties. rewrite Hget.
  destruct (applyProperties props t) as [t1 [err|]] eqn:Happly; [discriminate|].
  apply applyProperties_no_input_buffer in Happly; [|exact Hno].
  rewrite Happly, Hzero. cbn.
  destruct (maxDigestSize t1 =? 0); [discriminate|].
  destruct (maxNVBufferSize t1 =? 0); [discriminate|].
  destruct (minPcrSelectSize t1 =? 0); [discriminate|].
  now intros [= <-].
Qed.

Lemma InitProperties_default_buffer_witness :
  maxBufferSize (mkTpmProperties true 1024 3 64 2048) = 1024.
Proof.
  apply (InitProperties_default_buffer (X := unit) reportingTpm [] O 1%nat newProperties
           (mkTpmProperties true 1024 3 64 2048) reportedProperties).
  - reflexivity.
  - reflexivity.
  - repeat constructor; vm_compute; discriminate.
  - vm_compute. reflexivity.
Defined.

Lemma applyProperties_out_of_range {X : Type} (props : list TaggedProperty) (q : TaggedProperty) :
  In q props ->
  Property q = PropertyInputBuffer \/ Property q = PropertyMaxDigest
  \/ Property q = PropertyNVBufferMax ->
  65535 < Value q ->
  forall t, exists t' err, applyProperties (X := X) props t = (t', Some err).
Proof.
  intros Hin Hq Hv. induction props as [|prop rest IH]; [contradiction|].
  intros t. cbn [applyProperties]. destruct Hin as [->|Hin].
  - replace ((Property q =? PropertyInputBuffer) || (Property q =? PropertyMaxDigest)
             || (Property q =? PropertyNVBufferMax)) with true
      by (symmetry; rewrite !orb_true_iff, !Z.eqb_eq; tauto).
    replace (65535 <? Value q) with true by (symmetry; now apply Z.ltb_lt).
    eauto.
  - destruct ((Property prop =? PropertyInputBuffer) || (Property prop =? PropertyMaxDigest)
              || (Property prop =? PropertyNVBufferMax)).
    + destruct (65535 <? Value prop); [eauto|apply (IH Hin)].
    + destruct (Property prop =? PropertyPCRSelectMin); [|apply (IH Hin)].
      destruct (255 <? Value prop); [eauto|apply (IH Hin)].
Qed.

(** A buffer or digest size that does not fit 16 bits is not
    truncated: if the TPM reports one, [InitProperties] fails, and
    whenever it fails the context is not marked initialized. *)
Theorem InitProperties_out_of_range {T X : Type}
    (getProperties : list SessionContext -> T -> T * (X + list TaggedProperty))
    (sessions : list SessionContext) (w w' : T) (t : tpmProperties)
    (props : list TaggedProperty) (q : TaggedProperty) :
  getProperties sessions w = (w', inr props) ->
  In q props ->
  Property q = PropertyInputBuffer \/ Property q = PropertyMaxDigest
  \/ Property q = PropertyNVBufferMax ->
  65535 < Value q ->
  exists t' err,
    InitProperties getProperties sessions w t = (w', t', Some err)
    /\ propertiesInitialized t' = propertiesInitialized t.
Proof.
  intros Hget Hin Hq Hv. unfold InitProperties. rewrite Hget.
  destruct (applyProperties_out_of_range (X := X) props q Hin Hq Hv t) as (t1 & err & Happly).
  rewrite Happly. exists t1, err. split; [reflexivity|].
  clear Hget Hin Hq Hv. revert t t1 err Happly.
  induction props as [|prop rest IH]; intros t t1 err; cbn [applyProperties]; [discriminate|].
  destruct ((Property prop =? PropertyInputBuffer) || (Property prop =? PropertyMaxDigest)
            || (Property prop =? PropertyNVBufferMax)).
  - destruct (65535 <? Value prop); [now intros [= <- _]|].
    intros Hrun%IH. rewrite Hrun.
    destruct (Property prop =? PropertyInputBuffer);
      [|destruct (Property prop =? PropertyMaxDigest)]; reflexivity.
  - destruct (Property prop =? PropertyPCRSelectMin); [|apply IH].
    destruct (255 <? Value prop); [now intros [= <- _]|].
    intros Hrun%IH. now rewrite Hrun.
Qed.

Lemma InitProperties_out_of_range_witness :
  exists t' err,
    InitProperties (X := unit) oversizedTpm [] O newProperties = (1%nat, t', Some err)
    /\ propertiesInitialized t' = false.
Proof.
  apply (InitProperties_out_of_range (X := unit) oversizedTpm [] O 1%nat newProperties
           (reportedProperties ++ [mkTaggedProperty PropertyInputBuffer 0x100000])
           (mkTaggedProperty PropertyInputBuffer 0x100000)).
  - reflexivity.
  - apply in_or_app. right. left. reflexivity.
  - left. reflexivity.
  - reflexivity.
Defined.

(** ** cmds_session.go: what a call of [StartAuthSession] does *)

(** Whenever [StartAuthSession] returns an [InvalidParamError] of its
    own, the [tpmImpl] is as it was: the arguments are checked before
    a nonce is drawn and before a command is sent. *)
Theorem StartAuthSession_invalid_param {T X : Type} (env : sessionEnv T X) (t t' : T)
    (tpmKey bind : option ResourceContext) (sessionType : SessionType) (symmetric : bool)
    (authHash : AlgorithmId) (authValue : authValueArg) (p : invalidParam) :
  StartAuthSession env t tpmKey bind sessionType symmetric authHash authValue
  = (t', Err (InvalidParamError p)) ->
  t' = t.
Proof.
  unfold StartAuthSession.
  destruct tpmKey; [now intros [= <-]|].
  destruct (match bind with Some b => checkResourceContextParam env t b | None => None end);
    [now intros [= <-]|].
  destruct symmetric; [now intros [= <-]|].
  destruct (digestSizes env !! authHash) as [digestSize|]; [|now intros [= <-]].
  destruct (match bind with
            | Some b => match authValue with
                        | AuthString a => Ok (a, b)
                        | AuthBytes a => Ok (a, b)
                        | AuthNil => Ok ([], b)
                        | AuthOther => Err (InvalidParamError InvalidAuthValue)
                        end
            | None => Ok ([], WrapHandle env t HandleNull)
            end) as [[authB bind']|e|]; [|now intros [= <-]|discriminate].
  destruct (cryptComputeNonce env t digestSize) as [t1 [err|nonceCaller]]; [discriminate|].
  destruct (runStartAuthSession env t1 _) as [t2 [err|[sessionHandle nonceTPM]]]; discriminate.
Qed.

Lemma StartAuthSession_invalid_param_witness :
  StartAuthSession loopbackTpm [] None (Some storageKeyContext) SessionTypeHMAC false
                   HashAlgorithmSHA256 AuthOther
  = ([], Err (InvalidParamError InvalidAuthValue))
  /\ @nil startAuthSessionCmd = [].
Proof.
  split; [vm_compute; reflexivity|].
  apply (StartAuthSession_invalid_param loopbackTpm [] [] None (Some storageKeyContext)
           SessionTypeHMAC false HashAlgorithmSHA256 AuthOther InvalidAuthValue).
  vm_compute. reflexivity.
Defined.

(** A session bound to a resource gets its session key from the auth
    value of that resource: after a successful call with a [bind]
    that is not the null handle, the session key is
    [KDFa(authHash, authValue, "ATH", nonceTPM, nonceCaller, bits)]
    for the digest size of [authHash] in bits, over the nonces the
    session keeps, a string and a byte slice giving the same key. *)
Theorem StartAuthSession_bound_session_key {T X : Type} (env : sessionEnv T X) (t t' : T)
    (b : ResourceContext) (sessionType : SessionType) (authHash : AlgorithmId)
    (authValue : authValueArg) (sc : startedSession) :
  rcHandle b <> HandleNull ->
  StartAuthSession env t None (Some b) sessionType false authHash authValue = (t', Ok sc) ->
  exists digestSize,
    digestSizes env !! authHash = Some digestSize
    /\ boundResource sc = b
    /\ hashAlg sc = authHash
    /\ sessionKey sc = cryptKDFa env authHash (authBytes authValue) label_ATH
                                 (ssNonceTPM sc) (ssNonceCaller sc) (digestSize * 8).
Proof.
  intros Hb. unfold StartAuthSession.
  destruct (checkResourceContextParam env t b); [discriminate|].
  destruct (digestSizes env !! authHash) as [digestSize|]; [|discriminate].
  assert (Hnull : negb (rcHandle b =? HandleNull) = true)
    by (apply negb_true_iff, Z.eqb_neq; exact Hb).
  destruct authValue as [a|a| |]; try discriminate.
  all: destruct (cryptComputeNonce env t digestSize) as [t1 [err|nonceCaller]]; [discriminate|].
  all: destruct (runStartAuthSession env t1 _) as [t2 [err|[sessionHandle nonceTPM]]];
    [discriminate|].
  all: intros [= <- <-]; exists digestSize; cbn [boundResource hashAlg sessionKey ssNonceTPM
                                                   ssNonceCaller authBytes rcHandle].
  all: rewrite Hnull, ?app_nil_r; auto.
Qed.

Lemma StartAuthSession_bound_session_key_witness :
  exists digestSize,
    digestSizes loopbackTpm !! HashAlgorithmSHA256 = Some digestSize
    /\ boundResource (mkStartedSession 0x02000000 HashAlgorithmSHA256 storageKeyContext
                        (zeros 32) (zeros 32) (list_byte_of_string "auth")) = storageKeyContext
    /\ hashAlg (mkStartedSession 0x02000000 HashAlgorithmSHA256 storageKeyContext
                  (zeros 32) (zeros 32) (list_byte_of_string "auth")) = HashAlgorithmSHA256
    /\ sessionKey (mkStartedSession 0x02000000 HashAlgorithmSHA256 storageKeyContext
                     (zeros 32) (zeros 32) (list_byte_of_string "auth"))
       = cryptKDFa loopbackTpm HashAlgorithmSHA256
           (authBytes (AuthString (list_byte_of_string "auth"))) label_ATH
           (ssNonceTPM (mkStartedSession 0x02000000 HashAlgorithmSHA256 storageKeyContext
                          (zeros 32) (zeros 32) (list_byte_of_string "auth")))
           (ssNonceCaller (mkStartedSession 0x02000000 HashAlgorithmSHA256 storageKeyContext
                             (zeros 32) (zeros 32) (list_byte_of_string "auth")))
           (digestSize * 8).
Proof.
  apply (StartAuthSession_bound_session_key loopbackTpm []
           [mkStartCmd (mkResourceContext HandleNull) storageKeyContext (zeros 32) []
                       SessionTypeHMAC AlgorithmNull HashAlgorithmSHA256]
           storageKeyContext SessionTypeHMAC HashAlgorithmSHA256
           (AuthString (list_byte_of_string "auth"))).
  - vm_compute. discriminate.
  - vm_compute. reflexivity.
Defined.

(** Without [bind] the auth value plays no part: when the wrapped null
    handle is the null handle, a successful call leaves the session
    key empty, and every other auth value, one of an unsupported type
    included, gives the same session and the same [tpmImpl]. *)
Theorem StartAuthSession_unbound_session_key {T X : Type} (env : sessionEnv T X) (t t' : T)
    (sessionType : SessionType) (authHash : AlgorithmId) (authValue : authValueArg)
    (sc : startedSession) :
  rcHandle (WrapHandle env t HandleNull) = HandleNull ->
  StartAuthSession env t None None sessionType false authHash authValue = (t', Ok sc) ->
  sessionKey sc = []
  /\ forall authValue',
       StartAuthSession env t None None sessionType false authHash authValue' = (t', Ok sc).
Proof.
  intros Hnull. unfold StartAuthSession.
  destruct (digestSizes env !! authHash) as [digestSize|]; [|discriminate].
  destruct (cryptComputeNonce env t digestSize) as [t1 [err|nonceCaller]]; [discriminate|].
  destruct (runStartAuthSession env t1 _) as [t2 [err|[sessionHandle nonceTPM]]];
    [discriminate|].
  rewrite Hnull. cbn [rcHandle]. rewrite Z.eqb_refl. cbn [negb orb].
  intros [= <- <-]. split; [reflexivity|]. intros _. reflexivity.
Qed.

Lemma StartAuthSession_unbound_session_key_witness :
  sessionKey (mkStartedSession 0x02000000 HashAlgorithmSHA256 (mkResourceContext HandleNull)
                (zeros 32) (zeros 32) []) = []
  /\ forall authValue',
       StartAuthSession loopbackTpm [] None None SessionTypeHMAC false HashAlgorithmSHA256
                        authValue'
       = ([mkStartCmd (mkResourceContext HandleNull) (mkResourceContext HandleNull) (zeros 32)
                      [] SessionTypeHMAC AlgorithmNull HashAlgorithmSHA256],
          Ok (mkStartedSession 0x02000000 HashAlgorithmSHA256 (mkResourceContext HandleNull)
                               (zeros 32) (zeros 32) [])).
Proof.
  apply (StartAuthSession_unbound_session_key loopbackTpm [] _ SessionTypeHMAC
           HashAlgorithmSHA256 (AuthString (list_byte_of_string "ignored"))).
  - reflexivity.
  - vm_compute. reflexivity.
Defined.

(** ** util/object.go: the private area and the inner key *)

Section ObjectMore.

Context (C : cryptoAdapter) (HC : cipherLaw C) (HIV : ivLaw C).

(** The outer wrapper with an IV comes off again. *)
Lemma UnwrapOuter_ProduceOuterWrap_iv (hashAlg : HashAlgorithmId)
    (symmetricAlg : option SymDefObject) (name : Name) (seed data wrapped : list byte) :
  ProduceOuterWrap C hashAlg symmetricAlg name seed true data = Ok wrapped ->
  UnwrapOuter C hashAlg symmetricAlg name seed true wrapped = Ok data.
Proof.
  unfold ProduceOuterWrap, UnwrapOuter.
  intros (sym & ->%orPanic_Ok & H)%rbind_Ok.
  apply rbind_Ok in H as (iv & Hiv%orErr_Ok & H).
  apply rbind_Ok in H as (symKey & HsymKey%orPanic_Ok & H).
  apply rbind_Ok in H as (enc & Henc%orErr_Ok & H).
  apply rbind_Ok in H as (body & Hbody & H).
  apply rbind_Ok in Hbody as (ivb & Hivb%orPanic_Ok & [= <-]).
  apply rbind_Ok in H as (hmacKey & HhmacKey%orPanic_Ok & H).
  apply rbind_Ok in H as (integrity & Hint%orPanic_Ok & H).
  apply rbind_Ok in H as (ib & Hib%orPanic_Ok & [= <-]).
  rewrite (get_sized_put_sized _ _ _ Hib).
  rewrite HhmacKey. cbn [orPanic rbind]. rewrite Hint. cbn [orPanic rbind].
  rewrite bool_decide_eq_true_2 by reflexivity. cbn [negb orPanic rbind].
  rewrite (get_sized_put_sized _ _ _ Hivb).
  assert (Hkept : (if len iv =? 0 then zeros (BlockSize C (Algorithm sym)) else iv) = iv).
  { destruct (len iv =? 0) eqn:Hempty; [|reflexivity].
    apply Z.eqb_eq in Hempty. rewrite <- (HIV _ _ Hiv), Hempty.
    destruct iv; [reflexivity|]. unfold len in Hempty. cbn [length] in Hempty. lia. }
  cbv zeta. rewrite Hkept, (HIV _ _ Hiv), Z.eqb_refl. cbn [negb rbind].
  rewrite HsymKey. cbn [orPanic rbind].
  now rewrite (HC _ _ _ _ _ Henc).
Qed.

Context {Sensitive : Type} (SC : sensitiveCodec Sensitive) (HS : codecLaw SC).

(** The private area of an object opens again: when
    [SensitiveToPrivate] produces a private area, [PrivateToSensitive]
    on it, with the same name, hash algorithm, symmetric algorithm and
    seed, returns the sensitive structure.  The cipher is assumed to
    decrypt what it encrypted, the random source to fill the IV, and
    the wire schema of the sensitive structure to be symmetric. *)
Theorem PrivateToSensitive_SensitiveToPrivate
    (sensitive : option Sensitive) (name : Name) (hashAlg : HashAlgorithmId)
    (symmetricAlg : option SymDefObject) (seed private : list byte) :
  SensitiveToPrivate C SC sensitive name hashAlg symmetricAlg seed = Ok private ->
  PrivateToSensitive C SC private name hashAlg symmetricAlg seed = Ok sensitive.
Proof.
  unfold SensitiveToPrivate, PrivateToSensitive.
  intros (plain & Hplain%orErr_Ok & H)%rbind_Ok.
  destruct (ProduceOuterWrap C hashAlg symmetricAlg name seed true plain)
    as [wrapped|e|] eqn:Hwrap; try discriminate.
  injection H as <-.
  rewrite (UnwrapOuter_ProduceOuterWrap_iv _ _ _ _ _ _ Hwrap).
  rewrite <- (app_nil_r plain).
  unfold codecLaw in HS.
  pose proof (unmarshalSized_marshalSized SC HS sensitive plain [] Hplain) as Hread.
  now rewrite Hread.
Qed.

(** [SensitiveToDuplicate] hands a key back only when it made one: a
    successful call returns the fresh random key of the inner wrapper
    when such a wrapper is applied and the caller gave no key, and an
    empty key in every other case; the caller's own key is never
    returned. *)
Theorem SensitiveToDuplicate_key_out
    (sensitive : option Sensitive) (name : Name) (parent : Public)
    (seed : list byte) (symmetricAlg : option SymDefObject)
    (innerSymKey innerSymKeyOut duplicate : list byte) :
  SensitiveToDuplicate C SC sensitive name parent seed symmetricAlg innerSymKey
  = Ok (innerSymKeyOut, duplicate) ->
  match innerWrapperWanted symmetricAlg with
  | Some sym =>
      if len innerSymKey =? 0
      then randRead C (KeyBitsSym sym / 8) = Some innerSymKeyOut
      else innerSymKeyOut = []
  | None => innerSymKeyOut = []
  end.
Proof.
  unfold SensitiveToDuplicate.
  intros (plain & Hplain%orErr_Ok & H)%rbind_Ok.
  apply rbind_Ok in H as ([kout inner] & Hinner & H).
  assert (Hout : innerSymKeyOut = kout).
  { destruct (0 <? len seed); [|now injection H as <- _].
    destruct (ProduceOuterWrap C (NameAlg parent) (AsymDetail parent) name seed false inner);
      try discriminate.
    now injection H as <- _. }
  subst kout. clear H.
  destruct (innerWrapperWanted symmetricAlg) as [sym|]; [|now injection Hinner as <- _].
  apply rbind_Ok in Hinner as (integrity & _ & Hinner).
  apply rbind_Ok in Hinner as (ib & _ & Hinner).
  apply rbind_Ok in Hinner as ([key keyOut] & Hkeys & Hinner).
  apply rbind_Ok in Hinner as (enc & _ & [= <- <-]).
  destruct (len innerSymKey =? 0).
  - apply rbind_Ok in Hkeys as (k & Hk%orErr_Ok & [= <- <-]). exact Hk.
  - now injection Hkeys as _ <-.
Qed.

End ObjectMore.

Lemma toyCrypto_ivLaw : ivLaw toyCrypto.
Proof.
  intros alg iv Hread. vm_compute in Hread. injection Hread as <-. reflexivity.
Qed.

Lemma PrivateToSensitive_SensitiveToPrivate_witness :
  exists private,
    SensitiveToPrivate toyCrypto toyCodec (Some (list_byte_of_string "auth")) objectName
      HashAlgorithmSHA256 (Some aes128) (list_byte_of_string "seed") = Ok private
    /\ PrivateToSensitive toyCrypto toyCodec private objectName HashAlgorithmSHA256
         (Some aes128) (list_byte_of_string "seed") = Ok (Some (list_byte_of_string "auth")).
Proof.
  eexists. split.
  - vm_compute. reflexivity.
  - apply (PrivateToSensitive_SensitiveToPrivate toyCrypto toyCrypto_cipherLaw toyCrypto_ivLaw
             toyCodec toyCodec_codecLaw (Some (list_byte_of_string "auth")) objectName
             HashAlgorithmSHA256 (Some aes128) (list_byte_of_string "seed")).
    vm_compute. reflexivity.
Defined.

Lemma SensitiveToDuplicate_key_out_witness :
  exists innerSymKeyOut duplicate,
    SensitiveToDuplicate toyCrypto toyCodec (Some (list_byte_of_string "auth")) objectName
      rsaParent (list_byte_of_string "seed") (Some aes128) []
    = Ok (innerSymKeyOut, duplicate)
    /\ randRead toyCrypto (128 / 8) = Some innerSymKeyOut.
Proof.
  destruct (SensitiveToDuplicate toyCrypto toyCodec (Some (list_byte_of_string "auth"))
              objectName rsaParent (list_byte_of_string "seed") (Some aes128) [])
    as [[innerSymKeyOut duplicate]|e|] eqn:Hdup;
    [|vm_compute in Hdup; discriminate|vm_compute in Hdup; discriminate].
  exists innerSymKeyOut, duplicate. split; [reflexivity|].
  exact (SensitiveToDuplicate_key_out toyCrypto toyCodec
           (Some (list_byte_of_string "auth")) objectName rsaParent
           (list_byte_of_string "seed") (Some aes128) [] innerSymKeyOut duplicate Hdup).
Defined.

(** ** util: which ancestor a qualified name fails at, and the
       algorithms along a chain *)

Section QualifiedNameMore.

Context (ops : nameOps).

Lemma computeOneQualifiedName_Err (entity : Entity) (parentQn : Name) (e : qnError) :
  computeOneQualifiedName ops entity parentQn = Err e ->
  e = ErrInvalidName \/ e = ErrAlgorithmNotAvailable \/ e = ErrInvalidParentQN
  \/ e = ErrAlgorithmMismatch.
Proof.
  unfold computeOneQualifiedName.
  repeat match goal with |- context [if ?c then _ else _] => destruct c end;
    intros [= <-]; tauto.
Qed.

Lemma foldAncestors_Err (l : list Entity) :
  forall (i0 : Z) (q0 : Name) (e : qnError),
    foldAncestors ops i0 q0 l = Err e ->
    exists (n : nat) (a : Entity) (q : Name) (cause : qnError),
      e = ErrIntermediateQN (i0 + Z.of_nat n) cause
      /\ l !! n = Some a
      /\ foldAncestors ops 0 q0 (take n l) = Ok q
      /\ computeOneQualifiedName ops a q = Err cause.
Proof.
  induction l as [|a l IH]; intros i0 q0 e; cbn [foldAncestors]; [discriminate|].
  destruct (computeOneQualifiedName ops a q0) as [qn|cause|] eqn:Hone.
  - intros (n & a' & q & cause & -> & Hn & Hq & Hfail)%IH.
    exists (Datatypes.S n), a', q, cause. split; [f_equal; lia|]. split; [exact Hn|].
    split; [|exact Hfail]. cbn [take foldAncestors]. rewrite Hone.
    pose proof (foldAncestors_index ops (take n l) (0 + 1) 0 qn) as Hidx.
    rewrite Hq in Hidx. cbn [qualifiedName] in Hidx.
    destruct (foldAncestors ops (0 + 1) qn (take n l)); cbn [qualifiedName] in Hidx;
      congruence.
  - intros [= <-]. exists O, a, q0, cause. split; [f_equal; lia|]. now cbn.
  - discriminate.
Qed.

(** The index in the error of [ComputeQualifiedName] is the position
    of the ancestor that failed: when the call fails with "cannot
    compute intermediate QN for ancestor at index i", then [i] counts
    an ancestor of the list, the intermediate qualified name up to
    that ancestor was computed, and [computeOneQualifiedName] of that
    ancestor below it fails with the wrapped error. *)
Theorem ComputeQualifiedName_error_index (entity : Entity) (rootQn : Name)
    (ancestors : list Entity) (i : Z) (cause : qnError) :
  ComputeQualifiedName ops entity rootQn ancestors = Err (ErrIntermediateQN i cause) ->
  exists (n : nat) (a : Entity) (q : Name),
    i = Z.of_nat n
    /\ ancestors !! n = Some a
    /\ intermediateQN ops rootQn ancestors n = Some q
    /\ computeOneQualifiedName ops a q = Err cause.
Proof.
  unfold ComputeQualifiedName.
  destruct (foldAncestors ops 0 rootQn ancestors) as [lastQn|e|] eqn:Hfold.
  - intros Hone. apply computeOneQualifiedName_Err in Hone.
    destruct Hone as [|[|[|]]]; discriminate.
  - intros [= ->].
    apply foldAncestors_Err in Hfold as (n & a & q & cause' & [= -> ->] & Hn & Hq & Hfail).
    exists n, a, q. split; [lia|]. split; [exact Hn|]. split; [|exact Hfail].
    destruct n as [|j]; cbn [intermediateQN].
    + rewrite take_0 in Hq. cbn in Hq. congruence.
    + assert (Hj : exists aj, ancestors !! j = Some aj).
      { apply lookup_lt_is_Some. apply lookup_lt_Some in Hn. lia. }
      destruct Hj as [aj Hj]. rewrite Hj.
      rewrite ComputeQualifiedName_fold.
      rewrite <- (take_S_r _ _ _ Hj), Hq. reflexivity.
  - discriminate.
Qed.

Context (HL : nameAlgLaw ops).

Lemma computeOneQualifiedName_Ok (entity : Entity) (parentQn qn : Name) :
  computeOneQualifiedName ops entity parentQn = Ok qn ->
  Algorithm_of ops (EntityName entity) <> HashAlgorithmNull
  /\ (Algorithm_of ops parentQn = HashAlgorithmNull
      \/ Algorithm_of ops parentQn = Algorithm_of ops (EntityName entity))
  /\ Algorithm_of ops qn = Algorithm_of ops (EntityName entity).
Proof.
  unfold computeOneQualifiedName.
  destruct (Algorithm_of ops (EntityName entity) =? HashAlgorithmNull) eqn:Hnull;
    [discriminate|].
  destruct (Available ops (Algorithm_of ops (EntityName entity))) eqn:Hav; [|discriminate].
  cbn [negb]. destruct (IsValid ops parentQn); [|discriminate]. cbn [negb].
  destruct (Algorithm_of ops parentQn =? HashAlgorithmNull) eqn:Hp; cbn [negb andb].
  - intros [= <-]. apply Z.eqb_neq in Hnull. apply Z.eqb_eq in Hp.
    split; [exact Hnull|]. split; [now left|]. now apply HL.
  - destruct (Algorithm_of ops parentQn =? Algorithm_of ops (EntityName entity)) eqn:Hsame;
      [|discriminate].
    cbn [negb]. intros [= <-]. apply Z.eqb_neq in Hnull. apply Z.eqb_eq in Hsame.
    split; [exact Hnull|]. split; [now right|]. now apply HL.
Qed.

Lemma foldAncestors_same_algorithm (l : list Entity) :
  forall (i : Z) (q q' : Name),
    foldAncestors ops i q l = Ok q' ->
    Algorithm_of ops q <> HashAlgorithmNull ->
    Algorithm_of ops q' = Algorithm_of ops q
    /\ Forall (fun a => Algorithm_of ops (EntityName a) = Algorithm_of ops q) l.
Proof.
  induction l as [|a l IH]; intros i q q'; cbn [foldAncestors].
  - intros [= <-] _. split; [reflexivity|constructor].
  - destruct (computeOneQualifiedName ops a q) as [qn| |] eqn:Hone; try discriminate.
    apply computeOneQualifiedName_Ok in Hone as (Ha & [Hq|Hq] & Hqn); intros Hfold Hnull;
      [contradiction|].
    apply IH in Hfold as [Hq' Hall]; [|congruence].
    split; [congruence|]. constructor; [congruence|].
    eapply Forall_impl; [exact Hall|]. cbn. intros; congruence.
Qed.

(** A qualified name is only computed along a chain of one name
    algorithm: when [ComputeQualifiedName] succeeds, every ancestor's
    name has the name algorithm of the entity, and so has the
    qualified name.  [Name.Algorithm] is assumed to read the algorithm
    back from a digest name. *)
Theorem ComputeQualifiedName_same_algorithm (entity : Entity) (rootQn qn : Name)
    (ancestors : list Entity) :
  ComputeQualifiedName ops entity rootQn ancestors = Ok qn ->
  Algorithm_of ops qn = Algorithm_of ops (EntityName entity)
  /\ Forall (fun a => Algorithm_of ops (EntityName a) = Algorithm_of ops (EntityName entity))
            ancestors.
Proof.
  unfold ComputeQualifiedName.
  destruct (foldAncestors ops 0 rootQn ancestors) as [lastQn| |] eqn:Hfold; try discriminate.
  intros (He & Hlast & Hqn)%computeOneQualifiedName_Ok. split; [exact Hqn|].
  destruct ancestors as [|a rest]; [constructor|].
  cbn [foldAncestors] in Hfold.
  destruct (computeOneQualifiedName ops a rootQn) as [q1| |] eqn:Hone; try discriminate.
  apply computeOneQualifiedName_Ok in Hone as (Ha & _ & Hq1).
  apply foldAncestors_same_algorithm in Hfold as [Hl Hall]; [|congruence].
  assert (Hsame : Algorithm_of ops (EntityName a) = Algorithm_of ops (EntityName entity)).
  { destruct Hlast as [Hlast|Hlast]; congruence. }
  constructor; [exact Hsame|].
  eapply Forall_impl; [exact Hall|]. cbn. intros; congruence.
Qed.

End QualifiedNameMore.

Lemma ComputeQualifiedName_error_index_witness :
  exists (n : nat) (a : Entity) (q : Name),
    1 = Z.of_nat n
    /\ [entityOf "a1"; handleEntity; entityOf "a3"] !! n = Some a
    /\ intermediateQN sha256Names (mu.put_be 4 HandleOwner)
         [entityOf "a1"; handleEntity; entityOf "a3"] n = Some q
    /\ computeOneQualifiedName sha256Names a q = Err ErrInvalidName.
Proof.
  apply (ComputeQualifiedName_error_index sha256Names (entityOf "child")
           (mu.put_be 4 HandleOwner) [entityOf "a1"; handleEntity; entityOf "a3"] 1
           ErrInvalidName).
  vm_compute. reflexivity.
Defined.

Lemma length_unwords (ws : list Z) : length (SHA.unwords ws) = (4 * length ws)%nat.
Proof.
  induction ws as [|w ws IH]; [reflexivity|].
  cbn [SHA.unwords]. rewrite length_app, IH.
  pose proof (len_put_be 4 w) as Hlen. unfold len in Hlen. cbn [length]. lia.
Qed.

Lemma length_round256 (s : list Z) (kw : Z * Z) : length (SHA.round256 s kw) = length s.
Proof.
  unfold SHA.round256.
  do 9 (destruct s as [|? s]; [reflexivity|]). reflexivity.
Qed.

Lemma length_compress256 (h block : list Z) : length (SHA.compress256 h block) = length h.
Proof.
  unfold SHA.compress256, SHA.addState.
  rewrite length_map, length_zip_with.
  assert (Hfold : forall kws s, length (fold_left SHA.round256 kws s) = length s).
  { induction kws as [|kw kws IH]; intros s; [reflexivity|].
    cbn [fold_left]. now rewrite IH, length_round256. }
  rewrite Hfold. lia.
Qed.

Lemma len_sha256 (msg : list byte) : len (SHA.sha256 msg) = 32.
Proof.
  unfold SHA.sha256, len. rewrite length_unwords.
  assert (Hfold : forall bs h, length (fold_left SHA.compress256 bs h) = length h).
  { induction bs as [|b bs IH]; intros h; [reflexivity|].
    cbn [fold_left]. now rewrite IH, length_compress256. }
  rewrite Hfold. reflexivity.
Qed.

Lemma sha256Names_nameAlgLaw : nameAlgLaw sha256Names.
Proof.
  intros alg msg. cbn [sha256Names Available Algorithm_of hashSum].
  intros ->%Z.eqb_eq. unfold isSHA256Name.
  rewrite len_app, len_put_be, len_sha256.
  rewrite take_app_length' by (pose proof (len_put_be 2 HashAlgorithmSHA256); unfold len in *; lia).
  reflexivity.
Qed.

Lemma ComputeQualifiedName_same_algorithm_witness :
  exists qn,
    ComputeQualifiedName sha256Names (entityOf "child") (mu.put_be 4 HandleOwner)
      [entityOf "a1"; entityOf "a2"] = Ok qn
    /\ Algorithm_of sha256Names qn = Algorithm_of sha256Names (EntityName (entityOf "child"))
    /\ Forall (fun a => Algorithm_of sha256Names (EntityName a)
                        = Algorithm_of sha256Names (EntityName (entityOf "child")))
              [entityOf "a1"; entityOf "a2"].
Proof.
  eexists. split.
  - vm_compute. reflexivity.
  - apply (ComputeQualifiedName_same_algorithm sha256Names sha256Names_nameAlgLaw
             (entityOf "child") (mu.put_be 4 HandleOwner) _ [entityOf "a1"; entityOf "a2"]).
    vm_compute. reflexivity.
Defined.
